(** * Looker: capture / cache / orchestration pipeline

    A shallow embedding of the TypeScript sources
    ([retry.ts], [cache.ts], [capture.ts], [analyze.ts] and the run driver)
    together with the properties stated about them, followed by the
    run summary, the crawler, [goals.ts], [compare.ts] and the
    configuration loader.

    Conventions used throughout:
    - a JavaScript string is a [string] whose characters are code units
      below 256;
    - a JavaScript [number] that the code only uses as an integer is a [Z];
      one that carries a fraction (delays, scale factors) is a [Q], so
      doubles are read as the exact rationals they approximate;
    - an [async] function is a function on an explicit world state that
      returns either a value or the thrown value;
    - calls into packages outside the repository (the hash of
      [node:crypto], [sharp], the vision provider, [JSON.parse]) are
      Section variables. *)

From Stdlib Require Import ZArith QArith Qround Qminmax List String Ascii Lia Lqa Bool.
From Stdlib Require Import DecimalString.
From stdpp Require Import base option list strings gmap.
From Equations Require Import Equations.
Import ListNotations.

Local Open Scope Z_scope.

(* ===================================================================== *)
(** * retry.ts *)
(* ===================================================================== *)

Module Retry.

Section RetryWithBackoff.
(** [W] is the state of the world the operation acts on, [E] the values
    an operation can throw, [T] the values it can return. *)
Context {W E T : Type}.

(** [Math.random()]. *)
Variable Math_random : W -> Q * W.

(** [RetryOptions]: every field is optional.  The observer acts on the
    world and, like any JavaScript function, may itself throw
    ([Some e]). *)
Record RetryOptions := {
  attempts : option Z;
  baseDelayMs : option Q;
  maxDelayMs : option Q;
  onRetry : option (E -> Z -> W -> option E * W)
}.

Definition DEFAULT_RETRY : RetryOptions :=
  {| attempts := Some 3;
     baseDelayMs := Some (1000 # 1);
     maxDelayMs := Some (10000 # 1);
     onRetry := None |}.

(** What the caller of [retryWithBackoff] can observe. *)
Inductive Event :=
| Invoked (r : E + T)            (* one call of [fn] and how it settled *)
| Observed (e : E) (attempt : Z) (* one call of [opts.onRetry] *)
| Slept (delay : Q).             (* one [setTimeout] wait *)

(** [lastError] starts as [undefined], so the thrown value is an
    [option E]. *)
Inductive Outcome :=
| Returned (v : T)
| Threw (e : option E).

(** [{ ...DEFAULT_RETRY, ...opts }], one field at a time. *)
Definition spread {A} (dflt opt : option A) (fallback : A) : A :=
  match opt with
  | Some a => a
  | None => match dflt with Some a => a | None => fallback end
  end.

Definition backoff_delay (baseDelay maxDelay : Q) (attempt : Z) (rnd : Q) : Q :=
  let exponentialDelay := (baseDelay * Qpower (2 # 1) (attempt - 1))%Q in
  let jitter := (rnd * baseDelay)%Q in
  Qmin (exponentialDelay + jitter)%Q maxDelay.

(** The [for (let attempt = 1; attempt <= attempts; attempt++)] loop,
    for an integer [attempts].  [remaining] counts the values of
    [attempt] that still satisfy the loop condition, so [O] is the exit
    of the loop. *)
Fixpoint retry_loop (fn : W -> (E + T) * W) (opts : RetryOptions)
    (nattempts : Z) (baseDelay maxDelay : Q)
    (remaining : nat) (attempt : Z) (lastError : option E)
    (w : W) (log : list Event) : Outcome * W * list Event :=
  match remaining with
  | O => (Threw lastError, w, log)
  | S remaining' =>
      match fn w with
      | (inr v, w1) => (Returned v, w1, log ++ [Invoked (inr v)])
      | (inl error, w1) =>
          let log1 := log ++ [Invoked (inl error)] in
          if attempt =? nattempts then (Threw (Some error), w1, log1)
          else
            let observed :=
              match onRetry opts with
              | Some cb =>
                  let '(thrown, w2) := cb error attempt w1 in
                  (thrown, w2, log1 ++ [Observed error attempt])
              | None => (None, w1, log1)
              end in
            match observed with
            | (Some e', w2, log2) => (Threw (Some e'), w2, log2)
            | (None, w2, log2) =>
                let '(rnd, w3) := Math_random w2 in
                let delay := backoff_delay baseDelay maxDelay attempt rnd in
                retry_loop fn opts nattempts baseDelay maxDelay
                  remaining' (attempt + 1) (Some error) w3
                  (log2 ++ [Slept delay])
            end
      end
  end.

Definition retryWithBackoff (fn : W -> (E + T) * W) (opts : RetryOptions)
    (w : W) : Outcome * W * list Event :=
  let nattempts := spread (attempts DEFAULT_RETRY) (attempts opts) 3 in
  let baseDelay := spread (baseDelayMs DEFAULT_RETRY) (baseDelayMs opts) (1000 # 1) in
  let maxDelay := spread (maxDelayMs DEFAULT_RETRY) (maxDelayMs opts) (10000 # 1) in
  retry_loop fn opts nattempts baseDelay maxDelay
    (Z.to_nat nattempts) 1 None w [].

(** Number of calls of the operation recorded in a log. *)
Definition invocations (log : list Event) : Z :=
  Z.of_nat (List.length (List.filter
    (fun ev => match ev with Invoked _ => true | _ => false end) log)).





(** ** Further properties of the loop *)

(** Number of waits recorded in a log. *)
Definition sleeps (log : list Event) : Z :=
  Z.of_nat (List.length (List.filter
    (fun ev => match ev with Slept _ => true | _ => false end) log)).

Lemma invocations_app l1 l2 :
  invocations (l1 ++ l2) = invocations l1 + invocations l2.
Proof.
  unfold invocations. rewrite List.filter_app, List.length_app. lia.
Qed.

Lemma sleeps_app l1 l2 : sleeps (l1 ++ l2) = sleeps l1 + sleeps l2.
Proof.
  unfold sleeps. rewrite List.filter_app, List.length_app. lia.
Qed.

Lemma backoff_delay_capped baseDelay maxDelay attempt rnd :
  (backoff_delay baseDelay maxDelay attempt rnd <= maxDelay)%Q.
Proof. unfold backoff_delay. apply Q.le_min_r. Qed.

(** What any run of the loop adds to the log. *)
Lemma retry_loop_effort fn opts nattempts baseDelay maxDelay :
  forall remaining attempt lastError w log out w' log',
    attempt = nattempts - Z.of_nat remaining + 1 ->
    retry_loop fn opts nattempts baseDelay maxDelay
      remaining attempt lastError w log = (out, w', log') ->
    exists more,
      log' = log ++ more /\
      invocations more <= Z.of_nat remaining /\
      sleeps more <= Z.max 0 (Z.of_nat remaining - 1) /\
      (forall d, In (Slept d) more -> (d <= maxDelay)%Q).
Proof.
  induction remaining as [|r IH]; intros attempt lastError w log out w' log' Hatt Hrun;
    cbn [retry_loop] in Hrun.
  { injection Hrun as <- <- <-. exists []. rewrite app_nil_r.
    split; [reflexivity|]. split; [unfold invocations, sleeps; cbn; lia|]. split; [unfold invocations, sleeps; cbn; lia|]. intros d []. }
  destruct (fn w) as [[error|v] w1].
  2:{ injection Hrun as <- <- <-. exists [Invoked (inr v)].
      split; [reflexivity|]. split; [unfold invocations, sleeps; cbn; lia|]. split; [unfold invocations, sleeps; cbn; lia|].
      intros d [Hd|[]]. discriminate. }
  destruct (Z.eqb_spec attempt nattempts) as [Heq|Hne].
  { injection Hrun as <- <- <-. exists [Invoked (inl error)].
    split; [reflexivity|]. split; [unfold invocations, sleeps; cbn; lia|]. split; [unfold invocations, sleeps; cbn; lia|].
    intros d [Hd|[]]. discriminate. }
  assert (Hr : (0 < r)%nat) by lia.
  assert (Hnext : forall w2 log2 more2,
            log2 = log ++ more2 ->
            invocations more2 = 1 -> sleeps more2 = 0 ->
            (forall d, ~ In (Slept d) more2) ->
            (let '(rnd, w3) := Math_random w2 in
             retry_loop fn opts nattempts baseDelay maxDelay r (attempt + 1)
               (Some error) w3
               (log2 ++ [Slept (backoff_delay baseDelay maxDelay attempt rnd)]))
            = (out, w', log') ->
            exists more,
              log' = log ++ more /\
              invocations more <= Z.of_nat (S r) /\
              sleeps more <= Z.max 0 (Z.of_nat (S r) - 1) /\
              (forall d, In (Slept d) more -> (d <= maxDelay)%Q)).
  { intros w2 log2 more2 -> Hi Hs Hno Hrec.
    destruct (Math_random w2) as [rnd w3].
    assert (Hatt' : attempt + 1 = nattempts - Z.of_nat r + 1) by lia.
    destruct (IH _ _ _ _ _ _ _ Hatt' Hrec) as (more & -> & Hinv & Hsl & Hcap).
    exists (more2 ++ [Slept (backoff_delay baseDelay maxDelay attempt rnd)] ++ more).
    rewrite !invocations_app, !sleeps_app, Hi, Hs.
    change (invocations [Slept _]) with 0. change (sleeps [Slept _]) with 1.
    split; [rewrite <- !app_assoc; reflexivity|].
    split; [lia|]. split; [lia|].
    intros d Hd. apply in_app_or in Hd as [Hd|Hd]; [destruct (Hno d Hd)|].
    apply in_app_or in Hd as [[Hd|[]]|Hd]; [|exact (Hcap d Hd)].
    injection Hd as <-. apply backoff_delay_capped. }
  destruct (onRetry opts) as [cb|].
  - destruct (cb error attempt w1) as [[e'|] w2].
    + injection Hrun as <- <- <-.
      exists [Invoked (inl error); Observed error attempt].
      split; [rewrite <- app_assoc; reflexivity|].
      split; [unfold invocations, sleeps; cbn; lia|]. split; [unfold invocations, sleeps; cbn; lia|].
      intros d [Hd|[Hd|[]]]; discriminate.
    + refine (Hnext w2 _ [Invoked (inl error); Observed error attempt]
                _ eq_refl eq_refl _ Hrun).
      * rewrite <- app_assoc. reflexivity.
      * intros d [Hd|[Hd|[]]]; discriminate.
  - refine (Hnext w1 _ [Invoked (inl error)] eq_refl eq_refl eq_refl _ Hrun).
    intros d [Hd|[]]; discriminate.
Qed.

(** A run that returns ends with the successful call, and every call
    before it failed. *)
Lemma retry_loop_returned fn opts nattempts baseDelay maxDelay :
  forall remaining attempt lastError w log v w' log',
    retry_loop fn opts nattempts baseDelay maxDelay
      remaining attempt lastError w log = (Returned v, w', log') ->
    exists mid,
      log' = log ++ mid ++ [Invoked (inr v)] /\
      (forall r, In (Invoked r) mid -> exists e, r = inl e).
Proof.
  induction remaining as [|r IH]; intros attempt lastError w log v w' log' Hrun;
    cbn [retry_loop] in Hrun; [discriminate|].
  destruct (fn w) as [[error|v0] w1].
  2:{ injection Hrun as <- <- <-. exists []. split; [reflexivity|]. intros r0 []. }
  destruct (attempt =? nattempts); [discriminate|].
  assert (Hnext : forall w2 log2 mid2,
            log2 = log ++ mid2 ->
            (forall r0, In (Invoked r0) mid2 -> exists e, r0 = inl e) ->
            (let '(rnd, w3) := Math_random w2 in
             retry_loop fn opts nattempts baseDelay maxDelay r (attempt + 1)
               (Some error) w3
               (log2 ++ [Slept (backoff_delay baseDelay maxDelay attempt rnd)]))
            = (Returned v, w', log') ->
            exists mid,
              log' = log ++ mid ++ [Invoked (inr v)] /\
              (forall r0, In (Invoked r0) mid -> exists e, r0 = inl e)).
  { intros w2 log2 mid2 -> Hfail Hrec.
    destruct (Math_random w2) as [rnd w3].
    destruct (IH _ _ _ _ _ _ _ Hrec) as (mid & -> & Hmid).
    exists (mid2 ++ [Slept (backoff_delay baseDelay maxDelay attempt rnd)] ++ mid).
    split; [rewrite <- !app_assoc; reflexivity|].
    intros r0 Hin. apply in_app_or in Hin as [Hin|Hin]; [exact (Hfail r0 Hin)|].
    apply in_app_or in Hin as [[Hin|[]]|Hin]; [discriminate | exact (Hmid r0 Hin)]. }
  destruct (onRetry opts) as [cb|].
  - destruct (cb error attempt w1) as [[e'|] w2]; [discriminate|].
    refine (Hnext w2 _ [Invoked (inl error); Observed error attempt] _ _ Hrun).
    + rewrite <- app_assoc. reflexivity.
    + intros r0 [Hin|[Hin|[]]]; [injection Hin as <-; eauto | discriminate].
  - refine (Hnext w1 _ [Invoked (inl error)] eq_refl _ Hrun).
    intros r0 [Hin|[]]. injection Hin as <-. eauto.
Qed.

(** X1 (no attempts).  With [attempts] zero or negative the body of the
    loop never runs: the operation is not called, nothing is observed or
    waited for, the world is untouched, and the value thrown is
    [undefined], the initial value of [lastError]. *)
Theorem retry_without_attempts_throws_undefined fn opts w :
  spread (attempts DEFAULT_RETRY) (attempts opts) 3 <= 0 ->
  retryWithBackoff fn opts w = (Threw None, w, []).
Proof.
  intros Hn. unfold retryWithBackoff.
  replace (Z.to_nat (spread (attempts DEFAULT_RETRY) (attempts opts) 3)) with O
    by lia.
  reflexivity.
Qed.

(** X2 (first success wins).  When [retryWithBackoff] returns a value,
    that value is what the last call of the operation returned, every
    call before it threw, and the operation was called at least once
    and at most [attempts] times. *)
Theorem retry_returns_first_success fn opts w v w' log :
  retryWithBackoff fn opts w = (Returned v, w', log) ->
  exists before,
    log = before ++ [Invoked (inr v)] /\
    (forall r, In (Invoked r) before -> exists e, r = inl e) /\
    1 <= invocations log <= spread (attempts DEFAULT_RETRY) (attempts opts) 3.
Proof.
  unfold retryWithBackoff. intros Hrun.
  remember (spread (attempts DEFAULT_RETRY) (attempts opts) 3) as n eqn:Hn.
  destruct (retry_loop_returned _ _ _ _ _ _ _ _ _ _ _ _ _ Hrun) as (mid & Hlog & Hmid).
  cbn [List.app] in Hlog.
  assert (Hpos : 0 < n).
  { destruct (Z.to_nat n) eqn:Hz; [discriminate Hrun | lia]. }
  assert (Hone : 1 = n - Z.of_nat (Z.to_nat n) + 1) by lia.
  destruct (retry_loop_effort _ _ _ _ _ _ _ _ _ _ _ _ _ Hone Hrun)
    as (more & Hmore & Hinv & _).
  cbn [List.app] in Hmore. subst more.
  exists mid. split; [exact Hlog|]. split; [exact Hmid|].
  split; [|lia].
  rewrite Hlog, invocations_app. change (invocations [Invoked (inr v)]) with 1.
  unfold invocations. lia.
Qed.

(** X3 (bounded effort).  Whatever the operation and the observer do,
    a run calls the operation at most [attempts] times, waits at most
    [attempts - 1] times (never after the last attempt), and no wait is
    longer than [maxDelayMs]. *)
Theorem retry_effort_is_bounded fn opts w :
  let n := spread (attempts DEFAULT_RETRY) (attempts opts) 3 in
  let maxDelay := spread (maxDelayMs DEFAULT_RETRY) (maxDelayMs opts) (10000 # 1) in
  let log := snd (retryWithBackoff fn opts w) in
  invocations log <= Z.max 0 n /\
  sleeps log <= Z.max 0 (n - 1) /\
  (forall d, In (Slept d) log -> (d <= maxDelay)%Q).
Proof.
  cbv zeta. unfold retryWithBackoff.
  remember (spread (attempts DEFAULT_RETRY) (attempts opts) 3) as n eqn:Hn.
  destruct (Z.le_gt_cases n 0) as [Hle|Hgt].
  - replace (Z.to_nat n) with O by lia. unfold invocations, sleeps. cbn.
    split; [lia|]. split; [lia|]. intros d [].
  - destruct (retry_loop _ _ _ _ _ _ _ _ _ _) as [[out w'] log'] eqn:Hrun.
    assert (Hone : 1 = n - Z.of_nat (Z.to_nat n) + 1) by lia.
    destruct (retry_loop_effort _ _ _ _ _ _ _ _ _ _ _ _ _ Hone Hrun)
      as (more & Hmore & Hinv & Hsl & Hcap).
    cbn [List.app] in Hmore. subst more. cbn [snd].
    split; [lia|]. split; [lia | exact Hcap].
Qed.

End RetryWithBackoff.

Arguments RetryOptions : clear implicits.
Arguments Event : clear implicits.
Arguments Outcome : clear implicits.

(** A concrete always-failing operation: the world counts the calls and
    the [n]-th call throws [n]. *)
Definition failing_counter (w : nat) : (nat + unit) * nat := (inl (S w), S w).

Definition no_jitter (w : nat) : Q * nat := (0%Q, w).


(** An observer that throws ends the retrying: the call sits in the
    [catch] block, outside any [try]. *)
Example throwing_observer_aborts :
  retryWithBackoff no_jitter failing_counter
    {| attempts := Some 4; baseDelayMs := None; maxDelayMs := None;
       onRetry := Some (fun _ _ w => (Some 99%nat, w)) |} 0%nat
  = (Threw (Some 99%nat), 1%nat, [Invoked (inl 1%nat); Observed 1%nat 1]).
Proof. reflexivity. Qed.


(** An operation that throws on its first two calls and returns the
    number of the call on the third. *)
Definition third_time_lucky (w : nat) : (nat + nat) * nat :=
  if (w <? 2)%nat then (inl (S w), S w) else (inr (S w), S w).

Lemma retry_without_attempts_witness :
  retryWithBackoff no_jitter failing_counter
    {| attempts := Some 0; baseDelayMs := None; maxDelayMs := None;
       onRetry := None |} 7%nat
  = (Threw None, 7%nat, []).
Proof.
  apply (retry_without_attempts_throws_undefined no_jitter failing_counter
           {| attempts := Some 0; baseDelayMs := None; maxDelayMs := None;
              onRetry := None |} 7%nat).
  cbn. lia.
Defined.

Lemma retry_returns_first_success_witness :
  exists before,
    [Invoked (inl 1%nat); Slept (1000 # 1); Invoked (inl 2%nat);
     Slept (2000 # 1); Invoked (inr 3%nat)]
    = before ++ [Invoked (inr 3%nat)] /\
    (forall r, In (Invoked r) before -> exists e, r = inl e) /\
    1 <= invocations
           [Invoked (inl 1%nat); Slept (1000 # 1); Invoked (inl 2%nat);
            Slept (2000 # 1); Invoked (inr 3%nat)]
      <= 4.
Proof.
  apply (retry_returns_first_success no_jitter third_time_lucky
           {| attempts := Some 4; baseDelayMs := None; maxDelayMs := None;
              onRetry := None |} 0%nat 3%nat 3%nat).
  vm_compute. reflexivity.
Defined.

End Retry.

(* ===================================================================== *)
(** * capture.ts: the image normalizer *)
(* ===================================================================== *)

Module Normalizer.

Definition MAX_IMAGE_BYTES : Z := 5 * 1024 * 1024.
Definition MAX_IMAGE_DIMENSION : Z := 7800.

(** [Math.round]: the nearest integer, halves going up. *)
Definition Math_round (x : Q) : Z := Qfloor (x + (1 # 2))%Q.

(** What [sharp(...).metadata()] reports; both sizes may be undefined. *)
Record Metadata := { width : option Z; height : option Z }.

(** The argument of [.resize({ width, height })]; the height may be left
    out, and sharp then keeps the aspect ratio. *)
Record ResizeOptions := { resize_width : Z; resize_height : option Z }.

(** The argument of [.png({ quality })]; [.png()] leaves it out. *)
Record PngOptions := { quality : option Z }.

(** [Math.min(MAX_IMAGE_DIMENSION / origWidth, MAX_IMAGE_DIMENSION / origHeight)].
    A quotient by zero is [Infinity] in JavaScript, which [Math.min]
    discards in favour of the other quotient. *)
Definition scale_factor (origWidth origHeight : Z) : Q :=
  if origWidth =? 0 then inject_Z MAX_IMAGE_DIMENSION / inject_Z origHeight
  else if origHeight =? 0 then inject_Z MAX_IMAGE_DIMENSION / inject_Z origWidth
  else Qmin (inject_Z MAX_IMAGE_DIMENSION / inject_Z origWidth)
            (inject_Z MAX_IMAGE_DIMENSION / inject_Z origHeight).

Definition inspect {A} (a : A) : { b : A | a = b } := exist _ a eq_refl.

(** [o ?? d]. *)
Definition nullish {A} (o : option A) (d : A) : A :=
  match o with Some a => a | None => d end.










Section ResizeIfNeeded.
(** [Buffer] is the type of encoded images, [Err] what sharp rejects
    with. *)
Context {Buffer Err : Type}.

(** [buffer.length]. *)
Variable Buffer_length : Buffer -> Z.

(** [await sharp(input).metadata()]. *)
Variable sharp_metadata : Buffer -> Err + Metadata.

(** [await sharp(input).resize(r).png(p).toBuffer()]; the resize step is
    absent when [r] is [None]. *)
Variable sharp_toBuffer :
  Buffer -> option ResizeOptions -> PngOptions -> Err + Buffer.

(** Phase 1: enforce the pixel dimension limit. *)
Definition enforce_dimensions (buffer : Buffer) : Err + Buffer :=
  match sharp_metadata buffer with
  | inl err => inl err
  | inr metadata =>
      let origWidth := nullish (width metadata) 0 in
      let origHeight := nullish (height metadata) 0 in
      if (MAX_IMAGE_DIMENSION <? origWidth) || (MAX_IMAGE_DIMENSION <? origHeight)
      then
        let scale := scale_factor origWidth origHeight in
        let newWidth := Math_round (inject_Z origWidth * scale) in
        let newHeight := Math_round (inject_Z origHeight * scale) in
        sharp_toBuffer buffer
          (Some {| resize_width := newWidth; resize_height := Some newHeight |})
          {| quality := None |}
      else inr buffer
  end.

(** [while (result.length > MAX_IMAGE_BYTES && quality > 20)]. *)
Equations? quality_loop (current result : Buffer) (q : Z) : Err + Buffer
  by wf (Z.to_nat (q - 20)) lt :=
quality_loop current result q
  with inspect ((MAX_IMAGE_BYTES <? Buffer_length result) && (20 <? q)) := {
  | exist _ true Hcond
      with sharp_toBuffer current None {| quality := Some q |} := {
      | inl err => inl err
      | inr result' => quality_loop current result' (q - 10) }
  | exist _ false _ => inr result }.
Proof.
  apply andb_prop in Hcond as [_ Hq]. apply Z.ltb_lt in Hq. lia.
Qed.

(** Phase 2: enforce the file size limit, best effort. *)
Definition enforce_bytes (current : Buffer) : Err + Buffer :=
  if Buffer_length current <=? MAX_IMAGE_BYTES then inr current
  else
    match quality_loop current current 80 with
    | inl err => inl err
    | inr result =>
        if MAX_IMAGE_BYTES <? Buffer_length result then
          match sharp_metadata current with
          | inl err => inl err
          | inr meta =>
              let w := nullish (width meta) 1440 in
              sharp_toBuffer current
                (Some {| resize_width := Math_round (inject_Z w * (7 # 10));
                         resize_height := None |})
                {| quality := Some 60 |}
          end
        else inr result
    end.

Definition resizeIfNeeded (buffer : Buffer) : Err + Buffer :=
  match enforce_dimensions buffer with
  | inl err => inl err
  | inr current => enforce_bytes current
  end.

(** The 70%-width re-encode of the last resort. *)
Definition narrowed_reencode (current : Buffer) (meta : Metadata) : Err + Buffer :=
  sharp_toBuffer current
    (Some {| resize_width := Math_round (inject_Z (nullish (width meta) 1440) * (7 # 10));
             resize_height := None |})
    {| quality := Some 60 |}.




Lemma quality_loop_over_start current result q out :
  quality_loop current result q = inr out ->
  MAX_IMAGE_BYTES < Buffer_length out ->
  MAX_IMAGE_BYTES < Buffer_length result.
Proof.
  funelim (quality_loop current result q); intros Hrun Hover.
  - injection Hrun as <-. exact Hover.
  - discriminate.
  - pose proof (andb_prop _ _ Hcond) as [Hlen _].
    apply Z.ltb_lt in Hlen. exact Hlen.
Qed.

(** When the loop ends over the limit, every quality it could try was
    tried and each re-encode was over the limit. *)
Lemma quality_loop_over_all current result q out :
  quality_loop current result q = inr out ->
  MAX_IMAGE_BYTES < Buffer_length out ->
  forall q', 20 < q' -> q' <= q -> (q - q') mod 10 = 0 ->
    exists r, sharp_toBuffer current None {| quality := Some q' |} = inr r /\
              MAX_IMAGE_BYTES < Buffer_length r.
Proof.
  funelim (quality_loop current result q); intros Hrun Hover q' Hlo Hhi Hstep.
  - exfalso. injection Hrun as <-.
    match goal with
    | Hc : _ && _ = false |- _ =>
        pose proof (proj1 (andb_false_iff _ _) Hc) as [Hlen|Hq]
    end.
    + apply Z.ltb_ge in Hlen. lia.
    + apply Z.ltb_ge in Hq. lia.
  - discriminate.
  - destruct (Z.eq_dec q' q) as [->|Hne].
    + exists result'. split; [assumption|].
      eapply quality_loop_over_start; eassumption.
    + match goal with
      | IH : forall out, quality_loop _ _ _ = inr out -> _ |- _ =>
          apply (IH _ Hrun Hover q' Hlo)
      end.
      * assert (q - q' <> 0) by lia.
        pose proof (Z.mod_divide (q - q') 10 ltac:(lia)) as [Hd _].
        destruct (Hd Hstep) as [k Hk]. lia.
      * replace (q - 10 - q') with ((q - q') + (-1) * 10) by lia.
        rewrite Z.mod_add by lia. exact Hstep.
Qed.

(** The result of the loop is the buffer it started from or one of the
    plain re-encodes of [current]. *)
Lemma quality_loop_result current result q out :
  quality_loop current result q = inr out ->
  out = result \/
  exists p, sharp_toBuffer current None p = inr out.
Proof.
  funelim (quality_loop current result q); intros Hrun.
  - injection Hrun as <-. left. reflexivity.
  - discriminate.
  - match goal with
    | IH : forall out, quality_loop _ _ _ = inr out -> _ |- _ =>
        destruct (IH _ Hrun) as [->|Hp]; [|right; exact Hp]
    end.
    right. eexists. eassumption.
Qed.

Lemma enforce_bytes_cases current out :
  enforce_bytes current = inr out ->
  (out = current /\ Buffer_length out <= MAX_IMAGE_BYTES) \/
  ((exists p, sharp_toBuffer current None p = inr out) /\
   Buffer_length out <= MAX_IMAGE_BYTES) \/
  (MAX_IMAGE_BYTES < Buffer_length current /\
   Forall (fun q => exists r,
             sharp_toBuffer current None {| quality := Some q |} = inr r /\
             MAX_IMAGE_BYTES < Buffer_length r)
          [80; 70; 60; 50; 40; 30] /\
   exists meta, sharp_metadata current = inr meta /\
                narrowed_reencode current meta = inr out).
Proof.
  unfold enforce_bytes. intros Hrun.
  destruct (Z.leb_spec (Buffer_length current) MAX_IMAGE_BYTES) as [Hsmall|Hbig].
  { injection Hrun as <-. left. split; [reflexivity | exact Hsmall]. }
  destruct (quality_loop current current 80) as [err|result] eqn:Hloop;
    [discriminate|].
  destruct (Z.ltb_spec MAX_IMAGE_BYTES (Buffer_length result)) as [Hover|Hfit].
  - right. right. split; [exact Hbig|]. split.
    + repeat constructor;
        (eapply quality_loop_over_all;
         [exact Hloop | exact Hover | lia | lia | reflexivity]).
    + destruct (sharp_metadata current) as [err|meta]; [discriminate|].
      exists meta. split; [reflexivity | exact Hrun].
  - injection Hrun as <-.
    destruct (quality_loop_result _ _ _ _ Hloop) as [->|Hp].
    + left. split; [reflexivity | exact Hfit].
    + right. left. split; [exact Hp | exact Hfit].
Qed.

(** C3, as the code has it.  The byte-size pass is best effort: the
    output fits in [MAX_IMAGE_BYTES] unless the image left by the
    dimension pass is over the limit and so is its re-encode at each of
    the qualities 80, 70, 60, 50, 40 and 30; the output is then the one
    further re-encode at 70% of the width and quality 60, returned
    without a size check. *)
Theorem normalizer_size_best_effort buffer out :
  resizeIfNeeded buffer = inr out ->
  Buffer_length out <= MAX_IMAGE_BYTES \/
  exists current meta,
    enforce_dimensions buffer = inr current /\
    MAX_IMAGE_BYTES < Buffer_length current /\
    Forall (fun q => exists r,
              sharp_toBuffer current None {| quality := Some q |} = inr r /\
              MAX_IMAGE_BYTES < Buffer_length r)
           [80; 70; 60; 50; 40; 30] /\
    sharp_metadata current = inr meta /\
    narrowed_reencode current meta = inr out.
Proof.
  unfold resizeIfNeeded. intros Hrun.
  destruct (enforce_dimensions buffer) as [err|current] eqn:Hdim; [discriminate|].
  destruct (enforce_bytes_cases _ _ Hrun)
    as [[_ Hfit]|[[_ Hfit]|(Hbig & Hall & meta & Hmeta & Hout)]].
  - left. exact Hfit.
  - left. exact Hfit.
  - right. exists current, meta. repeat split; assumption.
Qed.


(** ** Further properties of the normalizer *)

(** One turn of the quality loop. *)
Lemma quality_loop_step current result q :
  quality_loop current result q
  = if (MAX_IMAGE_BYTES <? Buffer_length result) && (20 <? q)
    then match sharp_toBuffer current None {| quality := Some q |} with
         | inl err => inl err
         | inr result' => quality_loop current result' (q - 10)
         end
    else inr result.
Proof.
  funelim (quality_loop current result q);
    try match goal with H : _ && _ = _ |- _ => rewrite H end;
    try match goal with H : sharp_toBuffer _ _ _ = _ |- _ => rewrite H end;
    reflexivity.
Qed.

(** Started [k] steps above a quality whose re-encode fits, with every
    re-encode on the way down over the limit, the loop ends on the one
    that fits. *)
Lemma quality_loop_first_fit current q r :
  20 < q ->
  sharp_toBuffer current None {| quality := Some q |} = inr r ->
  Buffer_length r <= MAX_IMAGE_BYTES ->
  forall (k : nat) result,
    MAX_IMAGE_BYTES < Buffer_length result ->
    (forall j : nat, (1 <= j <= k)%nat ->
       exists r', sharp_toBuffer current None
                    {| quality := Some (q + 10 * Z.of_nat j) |} = inr r' /\
                  MAX_IMAGE_BYTES < Buffer_length r') ->
    quality_loop current result (q + 10 * Z.of_nat k) = inr r.
Proof.
  intros Hq Hr Hfit. induction k as [|k IH]; intros result Hover Hhigher.
  - replace (q + 10 * Z.of_nat 0) with q by lia.
    rewrite quality_loop_step.
    replace (MAX_IMAGE_BYTES <? Buffer_length result) with true
      by (symmetry; apply Z.ltb_lt; exact Hover).
    replace (20 <? q) with true by (symmetry; apply Z.ltb_lt; exact Hq).
    cbn [andb]. rewrite Hr, quality_loop_step.
    replace (MAX_IMAGE_BYTES <? Buffer_length r) with false
      by (symmetry; apply Z.ltb_ge; exact Hfit).
    reflexivity.
  - rewrite quality_loop_step.
    replace (MAX_IMAGE_BYTES <? Buffer_length result) with true
      by (symmetry; apply Z.ltb_lt; exact Hover).
    replace (20 <? q + 10 * Z.of_nat (S k)) with true
      by (symmetry; apply Z.ltb_lt; lia).
    cbn [andb].
    destruct (Hhigher (S k) ltac:(lia)) as (r' & Hr' & Hover').
    rewrite Hr'.
    replace (q + 10 * Z.of_nat (S k) - 10) with (q + 10 * Z.of_nat k) by lia.
    apply IH; [exact Hover'|].
    intros j Hj. apply Hhigher. lia.
Qed.

(** X4 (pass-through).  An image whose reported sides are both within
    [MAX_IMAGE_DIMENSION] (a side that sharp does not report counts as
    0) and whose encoding is within [MAX_IMAGE_BYTES] is returned as it
    is, whatever the encoder would have made of it. *)
Theorem normalizer_keeps_image_within_limits buffer meta :
  sharp_metadata buffer = inr meta ->
  nullish (width meta) 0 <= MAX_IMAGE_DIMENSION ->
  nullish (height meta) 0 <= MAX_IMAGE_DIMENSION ->
  Buffer_length buffer <= MAX_IMAGE_BYTES ->
  resizeIfNeeded buffer = inr buffer.
Proof.
  intros Hmeta Hw Hh Hlen.
  unfold resizeIfNeeded, enforce_dimensions. rewrite Hmeta.
  replace (MAX_IMAGE_DIMENSION <? nullish (width meta) 0) with false
    by (symmetry; apply Z.ltb_ge; exact Hw).
  replace (MAX_IMAGE_DIMENSION <? nullish (height meta) 0) with false
    by (symmetry; apply Z.ltb_ge; exact Hh).
  cbn [orb]. unfold enforce_bytes.
  replace (Buffer_length buffer <=? MAX_IMAGE_BYTES) with true
    by (symmetry; apply Z.leb_le; exact Hlen).
  reflexivity.
Qed.

(** X5 (first quality that fits).  When the image left by the dimension
    pass is over the byte limit, the qualities 80, 70, ..., 30 are tried
    from the top, each on that same image: the output is the re-encode
    at the first quality that fits, and no lower quality is asked for. *)
Theorem normalizer_takes_first_fitting_quality buffer current q r :
  enforce_dimensions buffer = inr current ->
  MAX_IMAGE_BYTES < Buffer_length current ->
  In q [80; 70; 60; 50; 40; 30] ->
  (forall q', In q' [80; 70; 60; 50; 40; 30] -> q < q' ->
     exists r', sharp_toBuffer current None {| quality := Some q' |} = inr r' /\
                MAX_IMAGE_BYTES < Buffer_length r') ->
  sharp_toBuffer current None {| quality := Some q |} = inr r ->
  Buffer_length r <= MAX_IMAGE_BYTES ->
  resizeIfNeeded buffer = inr r.
Proof.
  intros Hdim Hover Hq Hhigher Hr Hfit.
  unfold resizeIfNeeded. rewrite Hdim. unfold enforce_bytes.
  replace (Buffer_length current <=? MAX_IMAGE_BYTES) with false
    by (symmetry; apply Z.leb_gt; exact Hover).
  assert (Hloop : quality_loop current current 80 = inr r).
  { assert (Hk : exists k : nat, (k <= 5)%nat /\ 80 = q + 10 * Z.of_nat k).
    { cbn [In] in Hq.
      destruct Hq as [<-|[<-|[<-|[<-|[<-|[<-|[]]]]]]];
        [exists 0%nat | exists 1%nat | exists 2%nat | exists 3%nat
        | exists 4%nat | exists 5%nat]; split; lia. }
    destruct Hk as (k & Hk5 & Hk). rewrite Hk.
    apply quality_loop_first_fit; [lia | exact Hr | exact Hfit | exact Hover|].
    intros j Hj. apply Hhigher; [|lia].
    assert (Hcases : (j = 1 \/ j = 2 \/ j = 3 \/ j = 4 \/ j = 5)%nat) by lia.
    cbn [In].
    destruct Hcases as [->|[->|[->|[->| ->]]]];
      assert (Hk' : (k = 0 \/ k = 1 \/ k = 2 \/ k = 3 \/ k = 4 \/ k = 5)%nat) by lia;
      destruct Hk' as [->|[->|[->|[->|[->| ->]]]]]; lia. }
  rewrite Hloop.
  replace (MAX_IMAGE_BYTES <? Buffer_length r) with false
    by (symmetry; apply Z.ltb_ge; exact Hfit).
  reflexivity.
Qed.

End ResizeIfNeeded.

(** A stand-in for sharp on images that do not compress (noise).  A
    buffer is known by its pixel size and its byte size; a true-colour
    encode costs four bytes a pixel, a palette encode (any [quality])
    one byte a pixel.  Sizes that are not positive are rejected. *)
Record Raster := { px_width : Z; px_height : Z; byte_size : Z }.

Definition noise_metadata (r : Raster) : string + Metadata :=
  inr {| width := Some (px_width r); height := Some (px_height r) |}.

Definition noise_target (r : Raster) (rs : option ResizeOptions) : Z * Z :=
  match rs with
  | None => (px_width r, px_height r)
  | Some {| resize_width := rw; resize_height := Some rh |} => (rw, rh)
  | Some {| resize_width := rw; resize_height := None |} =>
      (rw, Math_round (inject_Z (px_height r) * (inject_Z rw / inject_Z (px_width r))))
  end.

Definition noise_toBuffer (r : Raster) (rs : option ResizeOptions)
    (p : PngOptions) : string + Raster :=
  let '(w, h) := noise_target r rs in
  if (px_width r <=? 0) || (px_height r <=? 0) || (w <=? 0) || (h <=? 0)
  then inl "Expected positive integer"%string
  else inr {| px_width := w; px_height := h;
              byte_size := match quality p with
                           | None => 4 * w * h
                           | Some _ => w * h
                           end |}.




(** A 4000 x 4000 noise image, 64 MB in true colour. *)
Definition noise_4000 : Raster :=
  {| px_width := 4000; px_height := 4000; byte_size := 64000000 |}.

(** A 3000 x 3000 noise image, 36 MB in true colour. *)
Definition noise_3000 : Raster :=
  {| px_width := 3000; px_height := 3000; byte_size := 36000000 |}.


(** C3 as stated fails: the 4000 x 4000 noise image is over the byte
    limit, and so is what the normalizer returns for it. *)
Lemma size_bound_counterexample :
  MAX_IMAGE_BYTES < byte_size noise_4000 /\
  resizeIfNeeded byte_size noise_metadata noise_toBuffer noise_4000
  = inr {| px_width := 2800; px_height := 2800; byte_size := 7840000 |} /\
  MAX_IMAGE_BYTES < 7840000.
Proof.
  split; [reflexivity|]. split; [|reflexivity].
  vm_compute. reflexivity.
Qed.

Lemma normalizer_size_witness :
  byte_size {| px_width := 2100; px_height := 2100; byte_size := 4410000 |}
  <= MAX_IMAGE_BYTES \/
  exists current meta,
    enforce_dimensions noise_metadata noise_toBuffer noise_3000 = inr current /\
    MAX_IMAGE_BYTES < byte_size current /\
    Forall (fun q => exists r,
              noise_toBuffer current None {| quality := Some q |} = inr r /\
              MAX_IMAGE_BYTES < byte_size r)
           [80; 70; 60; 50; 40; 30] /\
    noise_metadata current = inr meta /\
    narrowed_reencode noise_toBuffer current meta
    = inr {| px_width := 2100; px_height := 2100; byte_size := 4410000 |}.
Proof.
  apply (normalizer_size_best_effort byte_size noise_metadata noise_toBuffer
           noise_3000).
  vm_compute. reflexivity.
Defined.


(** A stand-in for sharp on images whose palette encoding grows with the
    quality: [quality] hundredths of a byte a pixel. *)
Definition graded_toBuffer (r : Raster) (rs : option ResizeOptions)
    (p : PngOptions) : string + Raster :=
  let '(w, h) := noise_target r rs in
  if (px_width r <=? 0) || (px_height r <=? 0) || (w <=? 0) || (h <=? 0)
  then inl "Expected positive integer"%string
  else inr {| px_width := w; px_height := h;
              byte_size := match quality p with
                           | None => 4 * w * h
                           | Some q => w * h * q / 100
                           end |}.

(** A 4000 x 2000 image, 32 MB in true colour. *)
Definition graded_4000 : Raster :=
  {| px_width := 4000; px_height := 2000; byte_size := 32000000 |}.

(** A 1000 x 1000 image of 4 MB. *)
Definition small_image : Raster :=
  {| px_width := 1000; px_height := 1000; byte_size := 4000000 |}.

Lemma normalizer_keeps_image_within_limits_witness :
  resizeIfNeeded byte_size noise_metadata noise_toBuffer small_image
  = inr small_image.
Proof.
  apply (normalizer_keeps_image_within_limits byte_size noise_metadata
           noise_toBuffer small_image
           {| width := Some 1000; height := Some 1000 |}).
  - reflexivity.
  - cbn. unfold MAX_IMAGE_DIMENSION. lia.
  - cbn. unfold MAX_IMAGE_DIMENSION. lia.
  - cbn. unfold MAX_IMAGE_BYTES. lia.
Defined.

Lemma normalizer_takes_first_fitting_quality_witness :
  resizeIfNeeded byte_size noise_metadata graded_toBuffer graded_4000
  = inr {| px_width := 4000; px_height := 2000; byte_size := 4800000 |}.
Proof.
  apply (normalizer_takes_first_fitting_quality byte_size noise_metadata
           graded_toBuffer graded_4000 graded_4000 60).
  - reflexivity.
  - cbn. unfold MAX_IMAGE_BYTES. lia.
  - cbn. tauto.
  - intros q' Hin Hlt. cbn [In] in Hin.
    destruct Hin as [<-|[<-|[<-|[<-|[<-|[<-|[]]]]]]]; try lia;
      eexists; (split; [reflexivity|]); reflexivity.
  - reflexivity.
  - cbn. unfold MAX_IMAGE_BYTES. lia.
Defined.

End Normalizer.

(* ===================================================================== *)
(** * Strings *)
(* ===================================================================== *)

Module Text.

Local Arguments String.append !_ _ / : simpl nomatch.

Lemma append_assoc (a b c : string) :
  ((a ++ b) ++ c)%string = (a ++ b ++ c)%string.
Proof. induction a as [|x a IH]; cbn; [reflexivity | rewrite IH; reflexivity]. Qed.

Lemma append_empty_r (a : string) : (a ++ EmptyString)%string = a.
Proof. induction a as [|x a IH]; cbn; [reflexivity | rewrite IH; reflexivity]. Qed.

Lemma length_append (a b : string) :
  String.length (a ++ b) = (String.length a + String.length b)%nat.
Proof. induction a as [|c a IH]; cbn; [reflexivity | rewrite IH; reflexivity]. Qed.

Lemma append_inj_tail (a b t : string) :
  (a ++ t)%string = (b ++ t)%string -> a = b.
Proof.
  revert b. induction a as [|c a IH]; intros [|d b] H; cbn in H.
  - reflexivity.
  - apply (f_equal String.length) in H. cbn in H. rewrite length_append in H. lia.
  - apply (f_equal String.length) in H. cbn in H. rewrite length_append in H. lia.
  - injection H as -> H. rewrite (IH _ H). reflexivity.
Qed.


End Text.

(* ===================================================================== *)
(** * types.ts *)
(* ===================================================================== *)

Module Types.

Record ViewportConfig := { name : string; width : Z; height : Z }.

Record CaptureOptions := {
  delay : option Z;
  waitFor : option string;
  hideSelectors : option (list string);
  noAnimations : option bool;
  darkMode : option bool;
  timeout : option Z;
  scrollReveal : option bool
}.

Record ScreenshotEntry := {
  url : string;
  viewport : ViewportConfig;
  filePath : string;
  timestamp : Z;
  cached : bool
}.

End Types.

(* ===================================================================== *)
(** * JSON.stringify *)
(* ===================================================================== *)

Module Json.

Local Set Warnings "-register-all".

(** The JavaScript values this program hands to [JSON.stringify].  An
    object is the list of its own enumerable properties in their
    order; numbers are the integers the schemas allow. *)
Inductive value :=
| Undefined
| Null
| Bool (b : bool)
| Num (n : Z)
| Str (s : string)
| Arr (items : list value)
| Obj (props : list (string * value)).

Definition dquote : string := String (ascii_of_nat 34) EmptyString.
Definition backslash : string := String (ascii_of_nat 92) EmptyString.

Definition hex_digit (n : N) : ascii :=
  if (n <? 10)%N then ascii_of_N (48 + n) else ascii_of_N (87 + n).

(** One code unit of [QuoteJSONString]. *)
Definition quote_char (c : ascii) : string :=
  let n := N_of_ascii c in
  if (n =? 8)%N then backslash ++ "b"
  else if (n =? 9)%N then backslash ++ "t"
  else if (n =? 10)%N then backslash ++ "n"
  else if (n =? 12)%N then backslash ++ "f"
  else if (n =? 13)%N then backslash ++ "r"
  else if (n =? 34)%N then backslash ++ dquote
  else if (n =? 92)%N then backslash ++ backslash
  else if (n <? 32)%N then
    backslash ++ "u00" ++ String (hex_digit (n / 16)) (String (hex_digit (n mod 16)) EmptyString)
  else String c EmptyString.

Fixpoint quote_body (s : string) : string :=
  match s with
  | EmptyString => EmptyString
  | String c rest => quote_char c ++ quote_body rest
  end.

Definition QuoteJSONString (s : string) : string :=
  dquote ++ quote_body s ++ dquote.

Definition hex_value (c : ascii) : N :=
  let n := N_of_ascii c in
  if (n <? 58)%N then (n - 48)%N else (n - 87)%N.

(** Reads back one quoted code unit from the front of a text. *)
Definition unquote_char (s : string) : option (ascii * string) :=
  match s with
  | EmptyString => None
  | String c rest =>
      let n := N_of_ascii c in
      if (n =? 34)%N then None
      else if (n =? 92)%N then
        match rest with
        | EmptyString => None
        | String d rest' =>
            let m := N_of_ascii d in
            if (m =? 98)%N then Some (ascii_of_N 8, rest')
            else if (m =? 116)%N then Some (ascii_of_N 9, rest')
            else if (m =? 110)%N then Some (ascii_of_N 10, rest')
            else if (m =? 102)%N then Some (ascii_of_N 12, rest')
            else if (m =? 114)%N then Some (ascii_of_N 13, rest')
            else if (m =? 34)%N then Some (ascii_of_N 34, rest')
            else if (m =? 92)%N then Some (ascii_of_N 92, rest')
            else
              match rest' with
              | String _ (String _ (String h1 (String h2 rest''))) =>
                  Some (ascii_of_N (16 * hex_value h1 + hex_value h2), rest'')
              | _ => None
              end
        end
      else Some (c, rest)
  end.

Lemma unquote_quote_char c rest :
  unquote_char (quote_char c ++ rest) = Some (c, rest).
Proof.
  destruct c as [[] [] [] [] [] [] [] []]; reflexivity.
Qed.

Lemma unquote_dquote rest :
  unquote_char (EmptyString ++ dquote ++ rest) = None.
Proof. reflexivity. Qed.

(** Quoting is injective, whatever follows the closing quote. *)
Lemma quote_body_inj s1 s2 k1 k2 :
  (quote_body s1 ++ dquote ++ k1)%string = (quote_body s2 ++ dquote ++ k2)%string ->
  s1 = s2 /\ k1 = k2.
Proof.
  revert s2. induction s1 as [|c1 s1 IH]; intros [|c2 s2] H; cbn [quote_body] in H.
  - change ((dquote ++ k1)%string = (dquote ++ k2)%string) in H.
    apply String.app_inj in H. subst. auto.
  - apply (f_equal unquote_char) in H.
    rewrite Text.append_assoc, unquote_quote_char, unquote_dquote in H.
    discriminate.
  - apply (f_equal unquote_char) in H.
    rewrite Text.append_assoc, unquote_quote_char, unquote_dquote in H.
    discriminate.
  - apply (f_equal unquote_char) in H.
    rewrite !Text.append_assoc, !unquote_quote_char in H.
    injection H as -> H. destruct (IH _ H) as [-> ->]. auto.
Qed.

(** [Number::toString] on an integer (below 10^21 in size, where
    JavaScript prints every digit). *)
Definition Number_toString (n : Z) : string :=
  NilZero.string_of_int (Z.to_int n).

Definition join_comma (parts : list string) : string :=
  String.concat "," parts.

(** [Get(holder, key)]. *)
Fixpoint get {A} (key : string) (props : list (string * A)) : option A :=
  match props with
  | [] => None
  | (k, v) :: rest => if String.eqb k key then Some v else get key rest
  end.

(** [SerializeJSONProperty] without indentation.  [propertyList] is the
    list built from an array replacer; when it is there, it names the
    properties that are written for every object, the nested ones
    included.  [None] is the result [undefined]. *)
Fixpoint serialize (propertyList : option (list string)) (v : value)
    : option string :=
  match v with
  | Undefined => None
  | Null => Some "null"%string
  | Bool true => Some "true"%string
  | Bool false => Some "false"%string
  | Num n => Some (Number_toString n)
  | Str s => Some (QuoteJSONString s)
  | Arr items =>
      let elements :=
        (fix each (l : list value) : list string :=
           match l with
           | [] => []
           | x :: rest =>
               match serialize propertyList x with
               | Some str => str
               | None => "null"%string
               end :: each rest
           end) items in
      Some ("[" ++ join_comma elements ++ "]")%string
  | Obj props =>
      let serialized :=
        (fix each (l : list (string * value)) : list (string * option string) :=
           match l with
           | [] => []
           | (k, x) :: rest => (k, serialize propertyList x) :: each rest
           end) props in
      let K :=
        match propertyList with
        | Some keys => keys
        | None => List.map fst props
        end in
      let members :=
        List.flat_map
          (fun P => match get P serialized with
                    | Some (Some strP) => [(QuoteJSONString P ++ ":" ++ strP)%string]
                    | _ => []
                    end) K in
      Some ("{" ++ join_comma members ++ "}")%string
  end.

(** [JSON.stringify(value, replacer)] with an array of strings, or
    nothing, as the replacer. *)
Definition JSON_stringify (v : value) (replacer : option (list string))
    : option string :=
  serialize replacer v.

(** [Object.keys]. *)
Definition Object_keys (v : value) : list string :=
  match v with
  | Obj props => List.map fst props
  | _ => []
  end.

Fixpoint insert_sorted (x : string) (l : list string) : list string :=
  match l with
  | [] => [x]
  | y :: rest => if String.leb x y then x :: l else y :: insert_sorted x rest
  end.

(** [Array.prototype.sort] with the default order, code unit by code
    unit. *)
Definition Array_sort (l : list string) : list string :=
  List.fold_right insert_sorted [] l.

End Json.

(* ===================================================================== *)
(** * cache.ts: the cache key *)
(* ===================================================================== *)

Module CacheKey.
Import Types Json.

Definition optional {A} (inj : A -> value) (o : option A) : value :=
  match o with
  | Some a => inj a
  | None => Undefined
  end.

(** A [ViewportConfig] and a [CaptureOptions] as JavaScript objects. *)
Definition viewport_value (viewport : ViewportConfig) : value :=
  Obj [ ("name"%string, Str (name viewport));
        ("width"%string, Num (width viewport));
        ("height"%string, Num (height viewport)) ].

Definition captureOpts_value (captureOpts : CaptureOptions) : value :=
  Obj [ ("delay"%string, optional Num (delay captureOpts));
        ("waitFor"%string, optional Str (waitFor captureOpts));
        ("hideSelectors"%string,
           optional (fun l => Arr (List.map Str l)) (hideSelectors captureOpts));
        ("noAnimations"%string, optional Bool (noAnimations captureOpts));
        ("darkMode"%string, optional Bool (darkMode captureOpts));
        ("timeout"%string, optional Num (timeout captureOpts));
        ("scrollReveal"%string, optional Bool (scrollReveal captureOpts)) ].

Definition hex_of_byte (b : Byte.byte) : string :=
  let n := Byte.to_N b in
  String (hex_digit (n / 16)) (String (hex_digit (n mod 16)) EmptyString).

(** [digest('hex')]. *)
Definition digest_hex (bytes : list Byte.byte) : string :=
  String.concat EmptyString (List.map hex_of_byte bytes).

(** [{ url, viewport, captureOpts }]. *)
Definition key_material (url : string) (viewport : ViewportConfig)
    (captureOpts : option CaptureOptions) : value :=
  Obj [ ("url"%string, Str url);
        ("viewport"%string, viewport_value viewport);
        ("captureOpts"%string, optional captureOpts_value captureOpts) ].

(** The string that is hashed:
    [JSON.stringify({ url, viewport, captureOpts },
                    Object.keys({ url, viewport, captureOpts }).sort())]. *)
Definition key_data (url : string) (viewport : ViewportConfig)
    (captureOpts : option CaptureOptions) : option string :=
  JSON_stringify (key_material url viewport captureOpts)
    (Some (Array_sort (Object_keys (key_material url viewport captureOpts)))).

Section GenerateKey.
(** [createHash('sha256').update(data).digest()]. *)
Variable sha256 : string -> list Byte.byte.

(** [update(undefined)] would throw; [key_data_defined] below shows
    that the data is always a string. *)
Definition generateKey (url : string) (viewport : ViewportConfig)
    (captureOpts : option CaptureOptions) : option string :=
  match key_data url viewport captureOpts with
  | Some data => Some (substring 0 16 (digest_hex (sha256 data)))
  | None => None
  end.

End GenerateKey.

Definition mobile : ViewportConfig :=
  {| name := "mobile"; width := 375; height := 812 |}.
Definition desktop : ViewportConfig :=
  {| name := "desktop"; width := 1440; height := 900 |}.

Definition no_options : CaptureOptions :=
  {| delay := None; waitFor := None; hideSelectors := None;
     noAnimations := None; darkMode := None; timeout := None;
     scrollReveal := None |}.

(** The replacer array filters the nested objects too: none of
    ["captureOpts"], ["url"], ["viewport"] names a property of a
    viewport or of the capture options, so both are written as [{}]. *)
Lemma key_data_with_options url viewport captureOpts :
  key_data url viewport (Some captureOpts)
  = Some ("{" ++ join_comma
                   [ QuoteJSONString "captureOpts" ++ ":" ++ "{}";
                     QuoteJSONString "url" ++ ":" ++ QuoteJSONString url;
                     QuoteJSONString "viewport" ++ ":" ++ "{}" ] ++ "}")%string.
Proof. reflexivity. Qed.

Lemma key_data_without_options url viewport :
  key_data url viewport None
  = Some ("{" ++ join_comma
                   [ QuoteJSONString "url" ++ ":" ++ QuoteJSONString url;
                     QuoteJSONString "viewport" ++ ":" ++ "{}" ] ++ "}")%string.
Proof. reflexivity. Qed.

(** Different URLs give different texts to hash (and then different
    keys, unless the 64 bits kept of the hash collide). *)
Lemma key_data_url_injective url url' viewport viewport' captureOpts captureOpts' :
  key_data url viewport captureOpts = key_data url' viewport' captureOpts' ->
  url = url'.
Proof.
  destruct captureOpts, captureOpts';
    rewrite ?key_data_with_options, ?key_data_without_options;
    unfold join_comma, QuoteJSONString; cbn [String.concat];
    intros H; injection H as H.
  - rewrite !Text.append_assoc in H.
    exact (proj1 (quote_body_inj _ _ _ _ H)).
  - discriminate H.
  - discriminate H.
  - rewrite !Text.append_assoc in H.
    exact (proj1 (quote_body_inj _ _ _ _ H)).
Qed.

Lemma key_data_defined url viewport captureOpts :
  exists data, key_data url viewport captureOpts = Some data.
Proof. destruct captureOpts; eexists; reflexivity. Qed.

(** C1 fails on the code: whatever the hash, two requests for the same
    URL that differ in the viewport size, or in any capture option, get
    the same key. *)
Theorem generateKey_ignores_viewport_and_options
    (sha256 : string -> list Byte.byte) (url : string)
    (viewport viewport' : ViewportConfig)
    (captureOpts captureOpts' : CaptureOptions) :
  generateKey sha256 url viewport (Some captureOpts)
  = generateKey sha256 url viewport' (Some captureOpts') /\
  generateKey sha256 url viewport None
  = generateKey sha256 url viewport' None /\
  generateKey sha256 "https://example.com/" mobile (Some no_options)
  = generateKey sha256 "https://example.com/" desktop
      (Some {| delay := Some 500; waitFor := Some "#app"%string;
               hideSelectors := Some [".banner"%string];
               noAnimations := Some true; darkMode := Some true;
               timeout := Some 1000; scrollReveal := Some false |}).
Proof. repeat split; reflexivity. Qed.

(** ** Further properties of the key *)

Definition is_hex (c : ascii) : bool :=
  let n := N_of_ascii c in
  ((48 <=? n) && (n <=? 57) || (97 <=? n) && (n <=? 102))%N.

Fixpoint all_hex (s : string) : bool :=
  match s with
  | EmptyString => true
  | String c rest => is_hex c && all_hex rest
  end.

Lemma substring_nothing s : substring 0 0 s = EmptyString.
Proof. destruct s; reflexivity. Qed.

Lemma hex_of_byte_digits b :
  exists c1 c2,
    hex_of_byte b = String c1 (String c2 EmptyString) /\
    is_hex c1 = true /\ is_hex c2 = true.
Proof. destruct b; do 2 eexists; repeat split. Qed.

(** X6 (shape of a key).  With a digest of at least eight bytes (SHA-256
    has thirty-two), [generateKey] returns exactly sixteen characters,
    each a digit or a letter from [a] to [f]: a key never holds a path
    separator or a dot. *)
Theorem generateKey_is_sixteen_hex_digits
    (sha256 : string -> list Byte.byte) url viewport captureOpts :
  (forall data, (8 <= List.length (sha256 data))%nat) ->
  exists key,
    generateKey sha256 url viewport captureOpts = Some key /\
    String.length key = 16%nat /\ all_hex key = true.
Proof.
  intros Hlen. unfold generateKey.
  destruct (key_data_defined url viewport captureOpts) as (data & ->).
  eexists. split; [reflexivity|].
  specialize (Hlen data).
  destruct (sha256 data) as [|b1 [|b2 [|b3 [|b4 [|b5 [|b6 [|b7 [|b8 rest]]]]]]]];
    cbn [List.length] in Hlen; try lia.
  unfold digest_hex. cbn [List.map].
  destruct (hex_of_byte_digits b1) as (c1 & d1 & -> & Hc1 & Hd1).
  destruct (hex_of_byte_digits b2) as (c2 & d2 & -> & Hc2 & Hd2).
  destruct (hex_of_byte_digits b3) as (c3 & d3 & -> & Hc3 & Hd3).
  destruct (hex_of_byte_digits b4) as (c4 & d4 & -> & Hc4 & Hd4).
  destruct (hex_of_byte_digits b5) as (c5 & d5 & -> & Hc5 & Hd5).
  destruct (hex_of_byte_digits b6) as (c6 & d6 & -> & Hc6 & Hd6).
  destruct (hex_of_byte_digits b7) as (c7 & d7 & -> & Hc7 & Hd7).
  destruct (hex_of_byte_digits b8) as (c8 & d8 & -> & Hc8 & Hd8).
  assert (Hkey : substring 0 16
            (String.concat EmptyString
               (String c1 (String d1 EmptyString)
                :: String c2 (String d2 EmptyString)
                :: String c3 (String d3 EmptyString)
                :: String c4 (String d4 EmptyString)
                :: String c5 (String d5 EmptyString)
                :: String c6 (String d6 EmptyString)
                :: String c7 (String d7 EmptyString)
                :: String c8 (String d8 EmptyString)
                :: List.map hex_of_byte rest))
          = String c1 (String d1 (String c2 (String d2 (String c3 (String d3
              (String c4 (String d4 (String c5 (String d5 (String c6 (String d6
              (String c7 (String d7 (String c8 (String d8 EmptyString)))))))))))))))).
  { destruct (List.map hex_of_byte rest) as [|h hs]; [reflexivity|].
    cbn [String.concat]. cbv [String.append]. cbn [substring].
    rewrite substring_nothing. reflexivity. }
  rewrite Hkey. split; [reflexivity|].
  cbn [all_hex].
  rewrite Hc1, Hd1, Hc2, Hd2, Hc3, Hd3, Hc4, Hd4, Hc5, Hd5, Hc6, Hd6, Hc7, Hd7,
    Hc8, Hd8.
  reflexivity.
Qed.

(** X7 (what a key tells apart).  The text that is hashed is the same
    for two requests exactly when they have the same URL and both, or
    neither, carry capture options: the URL and the presence of options
    are all that reaches the hash. *)
Theorem key_data_depends_on_url_and_presence
    url url' viewport viewport' captureOpts captureOpts' :
  key_data url viewport captureOpts = key_data url' viewport' captureOpts' <->
  url = url' /\ (captureOpts = None <-> captureOpts' = None).
Proof.
  split.
  - intros H. split; [exact (key_data_url_injective _ _ _ _ _ _ H)|].
    destruct captureOpts, captureOpts';
      rewrite ?key_data_with_options, ?key_data_without_options in H;
      try (split; intros; (reflexivity || discriminate));
      unfold join_comma, QuoteJSONString in H; cbn [String.concat] in H;
      injection H as H; discriminate H.
  - intros [-> Hsame].
    destruct captureOpts, captureOpts';
      rewrite ?key_data_with_options, ?key_data_without_options;
      try reflexivity.
    + destruct Hsame as [_ Hs]. discriminate (Hs eq_refl).
    + destruct Hsame as [Hs _]. discriminate (Hs eq_refl).
Qed.

(** A stand-in for the hash: thirty-two bytes that depend on the length
    of the text only. *)
Definition toy_digest (data : string) : list Byte.byte :=
  List.repeat (if Nat.even (String.length data) then Byte.x1f else Byte.xe0) 32.

Lemma generateKey_is_sixteen_hex_digits_witness :
  exists key,
    generateKey toy_digest "https://example.com/" mobile None = Some key /\
    String.length key = 16%nat /\ all_hex key = true.
Proof.
  apply (generateKey_is_sixteen_hex_digits toy_digest "https://example.com/"
           mobile None).
  intros data. unfold toy_digest. rewrite List.repeat_length. lia.
Defined.

End CacheKey.

(* ===================================================================== *)
(** * node:path (POSIX) *)
(* ===================================================================== *)

Module Path.

Definition slash : ascii := ascii_of_nat 47.

(** The segments of a path between its separators. *)
Fixpoint split (path : string) : list string :=
  match path with
  | EmptyString => [EmptyString]
  | String c rest =>
      if Ascii.eqb c slash then EmptyString :: split rest
      else match split rest with
           | seg :: segs => String c seg :: segs
           | [] => [String c EmptyString]
           end
  end.

(** One segment of [normalizeString]; [res] holds the segments kept so
    far, the last one first. *)
Definition normalize_step (allowAboveRoot : bool) (res : list string)
    (seg : string) : list string :=
  if String.eqb seg EmptyString || String.eqb seg "." then res
  else if String.eqb seg ".." then
    match res with
    | top :: below =>
        if String.eqb top ".." then
          (if allowAboveRoot then seg :: res else res)
        else below
    | [] => if allowAboveRoot then [seg] else []
    end
  else seg :: res.

Definition normalize_segments (allowAboveRoot : bool) (path : string)
    : list string :=
  List.rev (List.fold_left (normalize_step allowAboveRoot) (split path) []).

Definition normalizeString (path : string) (allowAboveRoot : bool) : string :=
  String.concat "/" (normalize_segments allowAboveRoot path).

Definition isAbsolute (path : string) : bool :=
  match path with
  | String c _ => Ascii.eqb c slash
  | EmptyString => false
  end.

Fixpoint ends_with_slash (path : string) : bool :=
  match path with
  | EmptyString => false
  | String c EmptyString => Ascii.eqb c slash
  | String _ rest => ends_with_slash rest
  end.

Definition normalize (path : string) : string :=
  if String.eqb path EmptyString then "."%string
  else
    let absolute := isAbsolute path in
    let trailingSeparator := ends_with_slash path in
    let path' := normalizeString path (negb absolute) in
    if String.eqb path' EmptyString then
      (if absolute then "/"
       else if trailingSeparator then "./" else ".")%string
    else
      let path'' := if trailingSeparator then (path' ++ "/")%string else path' in
      if absolute then ("/" ++ path'')%string else path''.

(** [path.join(...args)]. *)
Definition join (args : list string) : string :=
  match List.filter (fun arg => negb (String.eqb arg EmptyString)) args with
  | [] => "."%string
  | parts => normalize (String.concat "/" parts)
  end.

(** The loop of [path.resolve], from the last argument towards the
    first and then the working directory. *)
Fixpoint resolve_loop (paths : list string) (resolvedPath : string)
    : string * bool :=
  match paths with
  | [] => (resolvedPath, false)
  | path :: before =>
      if String.eqb path EmptyString then resolve_loop before resolvedPath
      else
        let resolvedPath' := (path ++ "/" ++ resolvedPath)%string in
        if isAbsolute path then (resolvedPath', true)
        else resolve_loop before resolvedPath'
  end.

(** [path.resolve(...args)] in the working directory [cwd]. *)
Definition resolve (cwd : string) (args : list string) : string :=
  let '(resolvedPath, resolvedAbsolute) :=
    resolve_loop (List.rev args ++ [cwd]) EmptyString in
  let resolvedPath' := normalizeString resolvedPath (negb resolvedAbsolute) in
  if resolvedAbsolute then ("/" ++ resolvedPath')%string
  else if String.eqb resolvedPath' EmptyString then "."%string
  else resolvedPath'.

Fixpoint no_slash (s : string) : bool :=
  match s with
  | EmptyString => true
  | String c rest => negb (Ascii.eqb c slash) && no_slash rest
  end.

Fixpoint last_char (s : string) : option ascii :=
  match s with
  | EmptyString => None
  | String c EmptyString => Some c
  | String _ rest => last_char rest
  end.

Local Arguments String.append !_ _ / : simpl nomatch.

Lemma split_nonempty path : split path <> [].
Proof.
  destruct path as [|c rest]; cbn; [discriminate|].
  destruct (Ascii.eqb c slash); [discriminate|].
  destruct (split rest); discriminate.
Qed.

Lemma split_app_slash a b :
  split (a ++ "/" ++ b) = (split a ++ split b)%list.
Proof.
  induction a as [|c a IH]; cbn.
  - reflexivity.
  - destruct (Ascii.eqb c slash).
    + cbn in IH. rewrite IH. reflexivity.
    + cbn in IH. rewrite IH.
      destruct (split a) as [|seg segs] eqn:Hs; [destruct (split_nonempty a Hs)|].
      reflexivity.
Qed.

Lemma split_no_slash t : no_slash t = true -> split t = [t].
Proof.
  induction t as [|c t IH]; cbn; [reflexivity|].
  intros H. apply andb_prop in H as [Hc Ht].
  destruct (Ascii.eqb c slash); [discriminate|].
  rewrite (IH Ht). reflexivity.
Qed.

(** Appending a separator-free suffix to a path extends its last
    segment. *)
Lemma split_app_suffix a t :
  no_slash t = true ->
  exists init l,
    split a = (init ++ [l])%list /\
    split (a ++ t) = (init ++ [(l ++ t)%string])%list.
Proof.
  intros Ht. induction a as [|c a (init & l & Ha & Hat)]; cbn.
  - exists [], EmptyString. split; [reflexivity|]. cbn. apply split_no_slash, Ht.
  - destruct (Ascii.eqb c slash).
    + exists (EmptyString :: init), l. rewrite Ha, Hat. split; reflexivity.
    + rewrite Ha, Hat. destruct init as [|seg init]; cbn.
      * exists [], (String c l). split; reflexivity.
      * exists (String c seg :: init), l. split; reflexivity.
Qed.

Lemma last_char_app a t c :
  last_char t = Some c -> last_char (a ++ t) = Some c.
Proof.
  intros Ht. induction a as [|x a IH]; cbn; [exact Ht|].
  destruct (a ++ t)%string eqn:Hat; [|exact IH].
  cbn in IH. discriminate.
Qed.

Lemma last_char_ends_with_slash s :
  ends_with_slash s
  = match last_char s with Some c => Ascii.eqb c slash | None => false end.
Proof.
  induction s as [|x s IH]; cbn; [reflexivity|].
  destruct s; [reflexivity | exact IH].
Qed.

Lemma no_slash_last_char t c :
  no_slash t = true -> last_char t = Some c -> Ascii.eqb c slash = false.
Proof.
  induction t as [|x t IH]; cbn; [discriminate|].
  intros H Hl. apply andb_prop in H as [Hx Ht].
  destruct t; [|exact (IH Ht Hl)].
  injection Hl as <-. apply negb_true_iff in Hx. exact Hx.
Qed.

Lemma normalize_step_plain allowAboveRoot res seg c :
  last_char seg = Some c -> c <> "."%char ->
  normalize_step allowAboveRoot res seg = seg :: res.
Proof.
  intros Hl Hc. unfold normalize_step.
  destruct (String.eqb_spec seg EmptyString) as [->|_]; [discriminate|].
  destruct (String.eqb_spec seg ".") as [->|_].
  { injection Hl as <-. destruct Hc. reflexivity. }
  destruct (String.eqb_spec seg "..") as [->|_].
  { injection Hl as <-. destruct Hc. reflexivity. }
  reflexivity.
Qed.

Lemma concat_last (xs : list string) (L : string) :
  exists pre, String.concat "/" (xs ++ [L]) = (pre ++ L)%string.
Proof.
  induction xs as [|x xs (pre & IH)]; cbn.
  - exists EmptyString. reflexivity.
  - destruct (xs ++ [L])%list eqn:Hx; [destruct xs; discriminate|].
    rewrite IH. exists (x ++ "/" ++ pre)%string.
    rewrite !Text.append_assoc. reflexivity.
Qed.

(** A path that ends in a plain suffix normalizes to a path that ends in
    the same suffix. *)
Lemma normalizeString_suffix a t c allowAboveRoot :
  no_slash t = true -> last_char t = Some c -> c <> "."%char ->
  exists pre, normalizeString (a ++ t) allowAboveRoot = (pre ++ t)%string.
Proof.
  intros Hns Hl Hc.
  destruct (split_app_suffix a t Hns) as (init & l & _ & Hat).
  unfold normalizeString, normalize_segments. rewrite Hat.
  rewrite List.fold_left_app. cbn [List.fold_left].
  rewrite (normalize_step_plain _ _ _ c); [|apply last_char_app; exact Hl|exact Hc].
  cbn [List.rev].
  destruct (concat_last
              (List.rev (List.fold_left (normalize_step allowAboveRoot) init []))
              (l ++ t)) as (pre & Hpre).
  rewrite Hpre. exists (pre ++ l)%string. rewrite Text.append_assoc. reflexivity.
Qed.

Lemma isAbsolute_app dir x :
  isAbsolute dir = true -> isAbsolute (dir ++ x) = true.
Proof. destruct dir; cbn; [discriminate | auto]. Qed.

Lemma join_under_absolute dir x :
  isAbsolute dir = true -> x <> EmptyString ->
  join [dir; x] = normalize (dir ++ "/" ++ x).
Proof.
  intros Hd Hx. unfold join. cbn [List.filter].
  destruct (String.eqb_spec dir EmptyString) as [->|_]; [discriminate|].
  destruct (String.eqb_spec x EmptyString) as [->|_]; [destruct Hx; reflexivity|].
  reflexivity.
Qed.

(** The last character of a file joined under an absolute directory. *)
Lemma join_last_char dir f t c :
  isAbsolute dir = true ->
  no_slash t = true -> last_char t = Some c -> c <> "."%char ->
  last_char (join [dir; (f ++ t)%string]) = Some c.
Proof.
  intros Hd Hns Hl Hc.
  assert (Hne : (f ++ t)%string <> EmptyString).
  { intros He. pose proof (last_char_app f t c Hl) as H. rewrite He in H.
    discriminate. }
  rewrite (join_under_absolute _ _ Hd Hne). unfold normalize.
  replace (dir ++ "/" ++ f ++ t)%string with ((dir ++ "/" ++ f) ++ t)%string
    by (rewrite !Text.append_assoc; reflexivity).
  pose proof (last_char_app (dir ++ "/" ++ f) t c Hl) as Hlast.
  destruct (String.eqb_spec ((dir ++ "/" ++ f) ++ t) EmptyString) as [He|_].
  { rewrite He in Hlast. discriminate. }
  rewrite (isAbsolute_app (dir ++ "/" ++ f) t) by (apply isAbsolute_app, Hd).
  rewrite last_char_ends_with_slash, Hlast, (no_slash_last_char t c Hns Hl).
  cbn [negb].
  destruct (normalizeString_suffix (dir ++ "/" ++ f) t c false Hns Hl Hc)
    as (pre & Hpre).
  rewrite Hpre.
  destruct (String.eqb_spec (pre ++ t) EmptyString) as [He|_].
  { pose proof (last_char_app pre t c Hl) as H. rewrite He in H. discriminate. }
  apply (last_char_app ("/" ++ pre) t c Hl).
Qed.

Lemma normalize_segments_trailing_slash a allowAboveRoot :
  normalize_segments allowAboveRoot (a ++ "/")
  = normalize_segments allowAboveRoot a.
Proof.
  unfold normalize_segments.
  change (a ++ "/")%string with (a ++ "/" ++ EmptyString)%string.
  rewrite split_app_slash, List.fold_left_app. reflexivity.
Qed.

(** For a relative file name, [resolve] and [join] under an absolute
    directory name the same path. *)
Lemma resolve_join cwd dir x :
  isAbsolute dir = true -> isAbsolute x = false ->
  x <> EmptyString -> ends_with_slash x = false ->
  resolve cwd [dir; x] = join [dir; x].
Proof.
  intros Hd Hx Hne Hts.
  rewrite (join_under_absolute _ _ Hd Hne).
  unfold resolve. cbn [List.rev List.app resolve_loop].
  destruct (String.eqb_spec x EmptyString) as [->|_]; [destruct Hne; reflexivity|].
  rewrite Hx.
  destruct (String.eqb_spec dir EmptyString) as [->|_]; [discriminate|].
  rewrite Hd. cbn [negb].
  unfold normalize.
  destruct (String.eqb_spec (dir ++ "/" ++ x) EmptyString) as [He|_].
  { destruct dir; discriminate. }
  rewrite (isAbsolute_app dir _ Hd). cbn [negb].
  assert (Hends : ends_with_slash (dir ++ "/" ++ x) = false).
  { rewrite last_char_ends_with_slash in *.
    destruct (last_char x) as [c|] eqn:Hl.
    - replace (dir ++ "/" ++ x)%string with ((dir ++ "/") ++ x)%string
        by apply Text.append_assoc.
      rewrite (last_char_app _ _ _ Hl). exact Hts.
    - destruct x; [destruct Hne; reflexivity|].
      cbn in Hl. destruct x; [discriminate|]. clear -Hl.
      exfalso. revert a0 Hl. induction x as [|y x IH]; intros a0 Hl;
        [discriminate|]. apply (IH y). exact Hl. }
  rewrite Hends.
  replace (normalizeString (dir ++ "/" ++ x ++ "/" ++ EmptyString) false)
    with (normalizeString (dir ++ "/" ++ x) false).
  2:{ unfold normalizeString. f_equal.
      replace (dir ++ "/" ++ x ++ "/" ++ EmptyString)%string
        with ((dir ++ "/" ++ x) ++ "/")%string
        by (rewrite !Text.append_assoc; reflexivity).
      symmetry. apply normalize_segments_trailing_slash. }
  destruct (String.eqb_spec (normalizeString (dir ++ "/" ++ x) false) EmptyString)
    as [->|_]; reflexivity.
Qed.

Lemma isAbsolute_resolve cwd args : isAbsolute cwd = true ->
  isAbsolute (resolve cwd args) = true.
Proof.
  intros Hc. unfold resolve.
  assert (H : forall paths acc, snd (resolve_loop (paths ++ [cwd]) acc) = true).
  { induction paths as [|p paths IH]; intros acc; cbn.
    - destruct (String.eqb_spec cwd EmptyString) as [->|_]; [discriminate|].
      rewrite Hc. reflexivity.
    - destruct (String.eqb p EmptyString); [apply IH|].
      destruct (isAbsolute p); [reflexivity | apply IH]. }
  specialize (H (List.rev args) EmptyString).
  destruct (resolve_loop (List.rev args ++ [cwd]) EmptyString) as [rp ra].
  cbn in H. subst ra. reflexivity.
Qed.

Lemma no_slash_app a b :
  no_slash a = true -> no_slash b = true -> no_slash (a ++ b) = true.
Proof.
  intros Ha Hb. induction a as [|c a IH]; cbn in *; [exact Hb|].
  apply andb_prop in Ha as [Hc Ha]. rewrite Hc, (IH Ha). reflexivity.
Qed.

(** A plain file name joined under an absolute directory: the segments
    of the directory, then the name. *)
Lemma join_plain dir x c :
  isAbsolute dir = true ->
  no_slash x = true -> last_char x = Some c -> c <> "."%char ->
  join [dir; x]
  = ("/" ++ String.concat "/" (normalize_segments false dir ++ [x]))%string.
Proof.
  intros Hd Hns Hl Hc.
  assert (Hne : x <> EmptyString) by (intros ->; discriminate).
  rewrite (join_under_absolute _ _ Hd Hne). unfold normalize.
  destruct (String.eqb_spec (dir ++ "/" ++ x) EmptyString) as [He|_].
  { destruct dir; discriminate. }
  rewrite (isAbsolute_app dir _ Hd). cbn [negb].
  assert (Hends : ends_with_slash (dir ++ "/" ++ x) = false).
  { rewrite last_char_ends_with_slash.
    replace (dir ++ "/" ++ x)%string with ((dir ++ "/") ++ x)%string
      by apply Text.append_assoc.
    rewrite (last_char_app _ _ _ Hl). exact (no_slash_last_char x c Hns Hl). }
  rewrite Hends.
  assert (Hseg : normalize_segments false (dir ++ "/" ++ x)
                 = (normalize_segments false dir ++ [x])%list).
  { unfold normalize_segments.
    rewrite split_app_slash, (split_no_slash x Hns), List.fold_left_app.
    cbn [List.fold_left].
    rewrite (normalize_step_plain _ _ _ c Hl Hc). reflexivity. }
  unfold normalizeString. rewrite Hseg.
  destruct (concat_last (normalize_segments false dir) x) as (pre & Hpre).
  destruct (String.eqb_spec
              (String.concat "/" (normalize_segments false dir ++ [x]))
              EmptyString) as [He|_]; [|reflexivity].
  rewrite Hpre in He. destruct pre; [|discriminate]. cbn in He.
  contradiction.
Qed.

Lemma concat_last_inj (L : list string) (x y : string) :
  String.concat "/" (L ++ [x]) = String.concat "/" (L ++ [y]) -> x = y.
Proof.
  induction L as [|l L IH]; cbn [List.app String.concat]; [auto|].
  destruct (L ++ [x])%list eqn:Hx; [destruct L; discriminate|].
  destruct (L ++ [y])%list eqn:Hy; [destruct L; discriminate|].
  intros H. apply String.app_inj in H. apply String.app_inj in H.
  apply IH. exact H.
Qed.

(** Two plain file names under the same absolute directory are the same
    path only when they are the same name. *)
Lemma join_plain_inj dir x y c d :
  isAbsolute dir = true ->
  no_slash x = true -> last_char x = Some c -> c <> "."%char ->
  no_slash y = true -> last_char y = Some d -> d <> "."%char ->
  join [dir; x] = join [dir; y] -> x = y.
Proof.
  intros Hd Hx Hlx Hc Hy Hly Hdd H.
  rewrite (join_plain dir x c Hd Hx Hlx Hc), (join_plain dir y d Hd Hy Hly Hdd) in H.
  apply String.app_inj in H. exact (concat_last_inj _ _ _ H).
Qed.

End Path.

(* ===================================================================== *)
(** * node:fs, as far as the cache uses it *)
(* ===================================================================== *)

Module Fs.

Definition Buffer := list Byte.byte.

(** A disk: the directories and the regular files, both named by their
    absolute normalized path.  Permissions, links and full disks are
    left out. *)
Record FileSystem := {
  directories : gset string;
  files : gmap string Buffer
}.

Inductive Error :=
| ENOENT (path : string)
| EISDIR (path : string)
| ENOTDIR (path : string).

Definition is_directory (disk : FileSystem) (path : string) : bool :=
  bool_decide (path ∈ directories disk).

Definition is_file (disk : FileSystem) (path : string) : bool :=
  match files disk !! path with
  | Some _ => true
  | None => false
  end.

Definition existsSync (disk : FileSystem) (path : string) : bool :=
  is_directory disk path || is_file disk path.

(** The directory an entry lives in. *)
Definition parent (path : string) : string :=
  match String.concat "/" (List.removelast (Path.split path)) with
  | EmptyString => "/"%string
  | dir => dir
  end.

Definition readFile (disk : FileSystem) (path : string) : Error + Buffer :=
  match files disk !! path with
  | Some content => inr content
  | None => if is_directory disk path then inl (EISDIR path) else inl (ENOENT path)
  end.

Definition writeFile (disk : FileSystem) (path : string) (data : Buffer)
    : Error + FileSystem :=
  if is_directory disk path then inl (EISDIR path)
  else if is_directory disk (parent path) then
    inr {| directories := directories disk;
           files := <[path := data]> (files disk) |}
  else inl (ENOENT path).

(** The directories from the root down to [path], [path] included. *)
Fixpoint prefixes (above : string) (segments : list string) : list string :=
  match segments with
  | [] => []
  | seg :: rest =>
      let here := (if String.eqb above "/" then above ++ seg
                   else above ++ "/" ++ seg)%string in
      here :: prefixes here rest
  end.

Definition ancestry (path : string) : list string :=
  "/"%string :: prefixes "/" (Path.normalize_segments false path).

(** [mkdir(path, { recursive: true })]. *)
Definition mkdir_recursive (disk : FileSystem) (path : string)
    : Error + FileSystem :=
  match List.find (is_file disk) (ancestry path) with
  | Some blocked => inl (ENOTDIR blocked)
  | None =>
      inr {| directories := directories disk ∪ list_to_set (ancestry path);
             files := files disk |}
  end.

End Fs.

(* ===================================================================== *)
(** * cache.ts: the screenshot cache *)
(* ===================================================================== *)

Module Cache.
Import Types.

Definition DEFAULT_CACHE_DIR : string := "./looker-cache".
Definition MANIFEST_FILE : string := "manifest.json".

Record CacheManifestEntry := {
  url : string;
  viewport : ViewportConfig;
  timestamp : Z;
  filePath : string
}.

(** [entries] is read as a finite map from keys to entries. *)
Record CacheManifest := { entries : gmap string CacheManifestEntry }.

Record ScreenshotCache := {
  cacheDir : string;
  manifest : CacheManifest;
  disabled : bool
}.

(** What the methods act on: the cache object itself, the disk, the
    clock behind [Date.now()] and the working directory of the
    process. *)
Record World := {
  this : ScreenshotCache;
  disk : Fs.FileSystem;
  clock : Z;
  cwd : string
}.

(** An [async] method: it runs on the world and either returns a value
    or throws; the effects made before a throw stay. *)
Definition Async (A : Type) : Type := World -> (Fs.Error + A) * World.

Definition ret {A} (a : A) : Async A := fun w => (inr a, w).

Definition throw {A} (e : Fs.Error) : Async A := fun w => (inl e, w).

Definition bind {A B} (m : Async A) (k : A -> Async B) : Async B :=
  fun w => match m w with
           | (inr a, w1) => k a w1
           | (inl e, w1) => (inl e, w1)
           end.

Definition try_catch {A} (body : Async A) (handler : Fs.Error -> Async A)
    : Async A :=
  fun w => match body w with
           | (inr a, w1) => (inr a, w1)
           | (inl e, w1) => handler e w1
           end.

Notation "'await' x := m 'in' k" := (bind m (fun x => k))
  (at level 10, x name, m at level 100, k at level 200).
Notation "'run' m 'then' k" := (bind m (fun _ => k))
  (at level 10, m at level 100, k at level 200).

Definition get_this : Async ScreenshotCache := fun w => (inr (this w), w).

Definition set_manifest (m : CacheManifest) : Async unit :=
  fun w => (inr tt,
            {| this := {| cacheDir := cacheDir (this w); manifest := m;
                          disabled := disabled (this w) |};
               disk := disk w; clock := clock w; cwd := cwd w |}).

Definition Date_now : Async Z := fun w => (inr (clock w), w).

Definition path_resolve (args : list string) : Async string :=
  fun w => (inr (Path.resolve (cwd w) args), w).

Definition existsSync (path : string) : Async bool :=
  fun w => (inr (Fs.existsSync (disk w) path), w).

Definition readFile (path : string) : Async Fs.Buffer :=
  fun w => match Fs.readFile (disk w) path with
           | inr content => (inr content, w)
           | inl e => (inl e, w)
           end.

Definition on_disk (step : Fs.FileSystem -> Fs.Error + Fs.FileSystem)
    : Async unit :=
  fun w => match step (disk w) with
           | inr disk' => (inr tt, {| this := this w; disk := disk';
                                      clock := clock w; cwd := cwd w |})
           | inl e => (inl e, w)
           end.

Definition writeFile (path : string) (data : Fs.Buffer) : Async unit :=
  on_disk (fun d => Fs.writeFile d path data).

Definition mkdir_recursive (path : string) : Async unit :=
  on_disk (fun d => Fs.mkdir_recursive d path).

(** [new ScreenshotCache(cacheDir, disabled)] in a process whose working
    directory is [cwd]. *)
Definition new_ScreenshotCache (cwd : string) (cacheDir : option string)
    (disabled : option bool) : ScreenshotCache :=
  {| cacheDir := Path.resolve cwd
                   [match cacheDir with Some d => d | None => DEFAULT_CACHE_DIR end];
     manifest := {| entries := ∅ |};
     disabled := match disabled with Some b => b | None => false end |}.

(** A disk on which the cache directory of a process started in
    [/work] exists and is empty, and one on which it is missing. *)
Definition used_disk : Fs.FileSystem :=
  {| Fs.directories := list_to_set ["/"; "/work"; "/work/looker-cache"]%string;
     Fs.files := ∅ |}.

Definition fresh_disk : Fs.FileSystem :=
  {| Fs.directories := list_to_set ["/"; "/work"]%string;
     Fs.files := ∅ |}.

(** The world right after [new ScreenshotCache(undefined, noCache)]. *)
Definition world_on (d : Fs.FileSystem) (noCache : bool) : World :=
  {| this := new_ScreenshotCache "/work" None (Some noCache);
     disk := d;
     clock := 1700000000000;
     cwd := "/work" |}.

Definition sample_key : string := "0123456789abcdef".
Definition sample_url : string := "https://example.com/".
Definition sample_png : Fs.Buffer := [Byte.x89; Byte.x50; Byte.x4e; Byte.x47].
Definition sample_viewport : ViewportConfig :=
  {| name := "mobile"; width := 375; height := 812 |}.

Definition sample_entry : CacheManifestEntry :=
  {| url := sample_url; viewport := sample_viewport;
     timestamp := 1700000000000;
     filePath := "0123456789abcdef.png" |}.

(** An enabled cache whose manifest names a file that is not on disk. *)
Definition stale_world : World :=
  {| this := {| cacheDir := "/work/looker-cache";
                manifest := {| entries := {[ sample_key := sample_entry ]} |};
                disabled := false |};
     disk := used_disk;
     clock := 1700000000000;
     cwd := "/work" |}.

Section Methods.
(** The manifest document, [JSON.stringify(this.manifest, null, 2)] as
    bytes, and its reading back with [JSON.parse] ([None] when the
    [try] block of [init] throws on it). *)
Variable manifest_document : CacheManifest -> Fs.Buffer.
Variable parse_manifest : Fs.Buffer -> option CacheManifest.

Definition saveManifest : Async unit :=
  await c := get_this in
  let manifestPath := Path.join [cacheDir c; MANIFEST_FILE] in
  writeFile manifestPath (manifest_document (manifest c)).

Definition init : Async unit :=
  await c := get_this in
  if disabled c then ret tt
  else
    await present := existsSync (cacheDir c) in
    run (if present then ret tt else mkdir_recursive (cacheDir c)) then
    let manifestPath := Path.join [cacheDir c; MANIFEST_FILE] in
    await found := existsSync manifestPath in
    if found then
      await loaded :=
        try_catch
          (await content := readFile manifestPath in
           ret (parse_manifest content))
          (fun _ => ret None) in
      match loaded with
      | Some m => set_manifest m
      | None => set_manifest {| entries := ∅ |}
      end
    else ret tt.

Definition getCached (key : string) : Async (option Fs.Buffer) :=
  await c := get_this in
  if disabled c then ret None
  else
    match entries (manifest c) !! key with
    | None => ret None
    | Some entry =>
        await filePath := path_resolve [cacheDir c; filePath entry] in
        await present := existsSync filePath in
        if negb present then
          run set_manifest {| entries := delete key (entries (manifest c)) |} then
          ret None
        else
          try_catch
            (await buffer := readFile filePath in ret (Some buffer))
            (fun _ => ret None)
    end.

Definition setCached (key : string) (screenshot : Fs.Buffer) (url : string)
    (viewport : ViewportConfig) : Async string :=
  await c := get_this in
  let fileName := (key ++ ".png")%string in
  let filePath := Path.join [cacheDir c; fileName] in
  run writeFile filePath screenshot then
  await now := Date_now in
  run set_manifest
    {| entries :=
         <[key := {| url := url; viewport := viewport; timestamp := now;
                     filePath := fileName |}]> (entries (manifest c)) |} then
  run saveManifest then
  ret filePath.


Lemma writeFile_files disk path data disk' :
  Fs.writeFile disk path data = inr disk' ->
  Fs.files disk' = <[path := data]> (Fs.files disk) /\
  Fs.directories disk' = Fs.directories disk /\
  Fs.is_directory disk path = false.
Proof.
  unfold Fs.writeFile. destruct (Fs.is_directory disk path); [discriminate|].
  destruct (Fs.is_directory disk (Fs.parent path)); [|discriminate].
  intros [= <-]. auto.
Qed.

(** The file a key is stored in and the manifest are different paths. *)
Lemma cache_file_is_not_manifest dir key :
  Path.isAbsolute dir = true ->
  Path.join [dir; (key ++ ".png")%string] <> Path.join [dir; MANIFEST_FILE].
Proof.
  intros Hd He.
  pose proof (Path.join_last_char dir key ".png" "g"%char Hd
                eq_refl eq_refl ltac:(discriminate)) as Hp.
  pose proof (Path.join_last_char dir EmptyString MANIFEST_FILE "n"%char Hd
                eq_refl eq_refl ltac:(discriminate)) as Hm.
  change (EmptyString ++ MANIFEST_FILE)%string with MANIFEST_FILE in Hm.
  rewrite He, Hm in Hp. discriminate.
Qed.

(** For a key that is not an absolute path, [getCached] looks where
    [setCached] writes. *)
Lemma cache_file_resolve_join cwd dir key :
  Path.isAbsolute dir = true -> Path.isAbsolute key = false ->
  Path.resolve cwd [dir; (key ++ ".png")%string]
  = Path.join [dir; (key ++ ".png")%string].
Proof.
  intros Hd Hk.
  pose proof (Path.last_char_app key ".png" "g"%char eq_refl) as Hl.
  apply Path.resolve_join; [exact Hd| | |].
  - destruct key; [reflexivity | exact Hk].
  - intros He. rewrite He in Hl. discriminate.
  - rewrite Path.last_char_ends_with_slash, Hl. reflexivity.
Qed.

Lemma new_ScreenshotCache_absolute cwd dir noCache :
  Path.isAbsolute cwd = true ->
  Path.isAbsolute (cacheDir (new_ScreenshotCache cwd dir noCache)) = true.
Proof. intros H. apply Path.isAbsolute_resolve. exact H. Qed.

(** The keys [generateKey] makes are hexadecimal, hence not absolute
    paths. *)
Lemma generateKey_not_absolute sha256 url viewport captureOpts key :
  CacheKey.generateKey sha256 url viewport captureOpts = Some key ->
  Path.isAbsolute key = false.
Proof.
  unfold CacheKey.generateKey.
  destruct (CacheKey.key_data url viewport captureOpts); [|discriminate].
  intros [= <-]. unfold CacheKey.digest_hex.
  destruct (sha256 s) as [|b rest]; [reflexivity|].
  cbn [List.map String.concat].
  destruct rest; destruct b; reflexivity.
Qed.

(** The part of C2 the code meets: a disabled cache reports a miss on
    every lookup and leaves the world as it is. *)
Lemma getCached_disabled key w :
  disabled (this w) = true -> getCached key w = (inr None, w).
Proof. intros H. unfold getCached, bind, get_this, ret. rewrite H. reflexivity. Qed.

Lemma init_disabled w :
  disabled (this w) = true -> init w = (inr tt, w).
Proof. intros H. unfold init, bind, get_this, ret. rewrite H. reflexivity. Qed.

(** C5 (round trip).  On an enabled cache whose directory is an absolute
    path, for a key that is not itself an absolute path: when
    [setCached] returns, [getCached] of the same key returns the very
    bytes that were stored, and changes nothing. *)
Theorem cache_round_trip w key screenshot url viewport path w' :
  disabled (this w) = false ->
  Path.isAbsolute (cacheDir (this w)) = true ->
  Path.isAbsolute key = false ->
  setCached key screenshot url viewport w = (inr path, w') ->
  getCached key w' = (inr (Some screenshot), w').
Proof.
  intros Hen Habs Hkey Hset.
  destruct w as [[dir m dis] d clk wd]. cbn in Hen, Habs. subst dis.
  unfold setCached, saveManifest, writeFile, on_disk, bind, get_this,
    Date_now, set_manifest, ret in Hset.
  cbn [this disk clock cwd cacheDir manifest disabled] in Hset.
  destruct (Fs.writeFile d (Path.join [dir; (key ++ ".png")%string]) screenshot)
    as [e|d1] eqn:Hw1; [discriminate|].
  cbn [this disk clock cwd cacheDir manifest disabled] in Hset.
  match type of Hset with
  | context [Fs.writeFile d1 ?p ?doc] =>
      destruct (Fs.writeFile d1 p doc) as [e|d2] eqn:Hw2; [discriminate|]
  end.
  injection Hset as <- <-.
  destruct (writeFile_files _ _ _ _ Hw1) as (Hf1 & _ & _).
  destruct (writeFile_files _ _ _ _ Hw2) as (Hf2 & _ & _).
  unfold getCached, bind, get_this, path_resolve, existsSync, try_catch,
    readFile, ret.
  cbn [this disk clock cwd cacheDir manifest disabled entries].
  rewrite lookup_insert_eq.
  cbn [this disk clock cwd cacheDir manifest disabled entries filePath].
  rewrite (cache_file_resolve_join wd dir key Habs Hkey).
  assert (Hfile : Fs.files d2 !! Path.join [dir; (key ++ ".png")%string]
                  = Some screenshot).
  { rewrite Hf2, lookup_insert_ne, Hf1, lookup_insert_eq; [reflexivity|].
    intros He. symmetry in He. exact (cache_file_is_not_manifest dir key Habs He). }
  unfold Fs.existsSync, Fs.is_file. rewrite Hfile, orb_true_r.
  cbn [negb]. cbv beta. cbn [disk]. unfold Fs.readFile. rewrite Hfile.
  reflexivity.
Qed.

(** C6 (stale entry).  On an enabled cache, when the manifest maps the
    key to an entry whose file is not on disk, [getCached] returns a
    miss without throwing, the entry is gone from the manifest in
    memory, and the disk, the manifest document included, is untouched. *)
Theorem stale_entry_is_a_miss w key entry :
  disabled (this w) = false ->
  entries (manifest (this w)) !! key = Some entry ->
  Fs.existsSync (disk w)
    (Path.resolve (cwd w) [cacheDir (this w); filePath entry]) = false ->
  exists w',
    getCached key w = (inr None, w') /\
    entries (manifest (this w')) = delete key (entries (manifest (this w))) /\
    entries (manifest (this w')) !! key = None /\
    disk w' = disk w /\
    cacheDir (this w') = cacheDir (this w) /\
    disabled (this w') = disabled (this w).
Proof.
  intros Hen Hentry Hgone.
  unfold getCached, bind, get_this, path_resolve, existsSync, set_manifest, ret.
  rewrite Hen, Hentry, Hgone. cbn [negb].
  eexists. split; [reflexivity|].
  cbn [this disk manifest entries cacheDir disabled].
  split; [reflexivity|]. split; [apply lookup_delete_eq|].
  repeat split; assumption || reflexivity.
Qed.

(** C2 fails on the code for [setCached]: it has no [disabled] guard.
    On a disabled cache whose directory exists, a store writes the image
    file, adds the entry to the manifest in memory and writes the
    manifest document. *)
Theorem disabled_cache_still_stores :
  let w := world_on used_disk true in
  let stored := "/work/looker-cache/0123456789abcdef.png"%string in
  let document := "/work/looker-cache/manifest.json"%string in
  let manifest' := {| entries := {[ sample_key := sample_entry ]} |} in
  let w' :=
    {| this := {| cacheDir := "/work/looker-cache"; manifest := manifest';
                  disabled := true |};
       disk := {| Fs.directories := Fs.directories used_disk;
                  Fs.files := {[ stored := sample_png;
                                 document := manifest_document manifest' ]} |};
       clock := clock w;
       cwd := cwd w |} in
  disabled (this w) = true /\
  setCached sample_key sample_png sample_url sample_viewport w
  = (inr stored, w') /\
  Fs.files (disk w) !! stored = None /\
  Fs.files (disk w') !! stored = Some sample_png /\
  entries (manifest (this w)) !! sample_key = None /\
  entries (manifest (this w')) !! sample_key = Some sample_entry /\
  Fs.files (disk w) !! document = None /\
  Fs.files (disk w') !! document = Some (manifest_document manifest').
Proof.
  cbv zeta. repeat split; vm_compute; reflexivity.
Qed.

(** The same store on a disk where the cache directory was never made
    ([init] skips [mkdir] when the cache is disabled) throws. *)
Lemma disabled_cache_store_throws_without_directory :
  setCached sample_key sample_png sample_url sample_viewport
    (world_on fresh_disk true)
  = (inl (Fs.ENOENT "/work/looker-cache/0123456789abcdef.png"),
     world_on fresh_disk true).
Proof. vm_compute. reflexivity. Qed.

(** ** Further properties of the cache *)

(** What a store that returns has done. *)
Lemma setCached_returned w key screenshot url viewport path w' :
  setCached key screenshot url viewport w = (inr path, w') ->
  let dir := cacheDir (this w) in
  let file := Path.join [dir; (key ++ ".png")%string] in
  let m' :=
    {| entries :=
         <[key := {| url := url; viewport := viewport; timestamp := clock w;
                     filePath := (key ++ ".png")%string |}]>
           (entries (manifest (this w))) |} in
  exists d1 d2,
    Fs.writeFile (disk w) file screenshot = inr d1 /\
    Fs.writeFile d1 (Path.join [dir; MANIFEST_FILE]) (manifest_document m')
    = inr d2 /\
    path = file /\
    w' = {| this := {| cacheDir := dir; manifest := m';
                       disabled := disabled (this w) |};
            disk := d2; clock := clock w; cwd := cwd w |}.
Proof.
  intros Hset. cbv zeta.
  destruct w as [[dir m dis] d clk wd].
  unfold setCached, saveManifest, writeFile, on_disk, bind, get_this,
    Date_now, set_manifest, ret in Hset.
  cbn [this disk clock cwd cacheDir manifest disabled] in *.
  destruct (Fs.writeFile d (Path.join [dir; (key ++ ".png")%string]) screenshot)
    as [e|d1] eqn:Hw1; [discriminate|].
  cbn [this disk clock cwd cacheDir manifest disabled] in Hset.
  match type of Hset with
  | context [Fs.writeFile d1 ?p ?doc] =>
      destruct (Fs.writeFile d1 p doc) as [e|d2] eqn:Hw2; [discriminate|]
  end.
  injection Hset as <- <-.
  exists d1, d2. repeat split. exact Hw2.
Qed.

(** A lookup whose entry names a file that is on disk is a hit and
    changes nothing. *)
Lemma getCached_hit w key entry buffer :
  disabled (this w) = false ->
  entries (manifest (this w)) !! key = Some entry ->
  Fs.files (disk w) !! Path.resolve (cwd w) [cacheDir (this w); filePath entry]
  = Some buffer ->
  getCached key w = (inr (Some buffer), w).
Proof.
  intros Hen Hentry Hfile.
  unfold getCached, bind, get_this, path_resolve, existsSync, try_catch,
    readFile, ret.
  rewrite Hen, Hentry.
  unfold Fs.existsSync, Fs.is_file. rewrite Hfile, orb_true_r.
  cbn [negb]. unfold Fs.readFile. rewrite Hfile. reflexivity.
Qed.


Definition with_manifest (m : CacheManifest) (w : World) : World :=
  {| this := {| cacheDir := cacheDir (this w); manifest := m;
                disabled := disabled (this w) |};
     disk := disk w; clock := clock w; cwd := cwd w |}.

(** [init] on an enabled cache whose directory is there. *)
Lemma init_on_existing_directory w :
  disabled (this w) = false ->
  Fs.existsSync (disk w) (cacheDir (this w)) = true ->
  init w
  = (inr tt,
     if Fs.existsSync (disk w) (Path.join [cacheDir (this w); MANIFEST_FILE])
     then match Fs.readFile (disk w)
                  (Path.join [cacheDir (this w); MANIFEST_FILE]) with
          | inr content =>
              match parse_manifest content with
              | Some m => with_manifest m w
              | None => with_manifest {| entries := ∅ |} w
              end
          | inl _ => with_manifest {| entries := ∅ |} w
          end
     else w).
Proof.
  intros Hen Hdir. destruct w as [[dir m dis] d clk wd].
  cbn [this disk cacheDir disabled] in *. subst dis.
  unfold init, bind, get_this, existsSync, try_catch, readFile, set_manifest,
    ret, with_manifest.
  cbn [this disk clock cwd cacheDir manifest disabled]. rewrite Hdir.
  cbv beta iota. cbn [this disk clock cwd cacheDir manifest disabled].
  destruct (Fs.existsSync d (Path.join [dir; MANIFEST_FILE])); [|reflexivity].
  cbv beta iota. cbn [this disk clock cwd cacheDir manifest disabled].
  destruct (Fs.readFile d (Path.join [dir; MANIFEST_FILE]))
    as [e|content]; [reflexivity|].
  destruct (parse_manifest content); reflexivity.
Qed.

(** X8 (the cache survives a restart).  After a store on an enabled
    cache whose directory exists, a new cache object for the same
    directory, started on the disk the store left and with any clock and
    working directory, initialises without throwing, leaves the disk as
    it is, and returns the stored bytes for the key, provided
    [JSON.parse] reads the manifest document back as the manifest that
    was written. *)
Theorem cache_survives_restart
    w key screenshot url viewport path w' (clock' : Z) (cwd' : string) :
  disabled (this w) = false ->
  Path.isAbsolute (cacheDir (this w)) = true ->
  Path.isAbsolute key = false ->
  Fs.is_directory (disk w) (cacheDir (this w)) = true ->
  setCached key screenshot url viewport w = (inr path, w') ->
  parse_manifest (manifest_document (manifest (this w')))
  = Some (manifest (this w')) ->
  let restarted :=
    {| this := {| cacheDir := cacheDir (this w);
                  manifest := {| entries := ∅ |};
                  disabled := false |};
       disk := disk w'; clock := clock'; cwd := cwd' |} in
  exists w'',
    init restarted = (inr tt, w'') /\
    disk w'' = disk w' /\
    getCached key w'' = (inr (Some screenshot), w'').
Proof.
  intros Hen Habs Hkey Hdir Hset Hparse. cbv zeta.
  destruct (setCached_returned _ _ _ _ _ _ _ Hset) as (d1 & d2 & Hw1 & Hw2 & _ & ->).
  cbn [this disk manifest] in *.
  destruct (writeFile_files _ _ _ _ Hw1) as (Hf1 & Hd1 & _).
  destruct (writeFile_files _ _ _ _ Hw2) as (Hf2 & Hd2 & _).
  set (dir := cacheDir (this w)) in *.
  set (m' := {| entries := <[key := _]> _ |}) in *.
  assert (Hdir2 : Fs.is_directory d2 dir = true).
  { unfold Fs.is_directory in *. rewrite Hd2, Hd1. exact Hdir. }
  assert (Hdoc : Fs.files d2 !! Path.join [dir; MANIFEST_FILE]
                 = Some (manifest_document m')).
  { rewrite Hf2. apply lookup_insert_eq. }
  assert (Hfile : Fs.files d2 !! Path.join [dir; (key ++ ".png")%string]
                  = Some screenshot).
  { rewrite Hf2, lookup_insert_ne, Hf1, lookup_insert_eq; [reflexivity|].
    intros He. symmetry in He. exact (cache_file_is_not_manifest dir key Habs He). }
  eexists. split; [|split].
  - rewrite init_on_existing_directory;
      [|reflexivity
       |cbn [this disk cacheDir]; unfold Fs.existsSync; rewrite Hdir2; reflexivity].
    cbn [this disk cacheDir].
    unfold Fs.existsSync, Fs.is_file, Fs.readFile.
    rewrite Hdoc, orb_true_r, Hparse. reflexivity.
  - reflexivity.
  - apply (getCached_hit _ key
             {| url := url; viewport := viewport; timestamp := clock w;
                filePath := (key ++ ".png")%string |}).
    + reflexivity.
    + cbn [with_manifest this manifest entries]. apply lookup_insert_eq.
    + cbn [with_manifest this disk cwd cacheDir filePath].
      rewrite (cache_file_resolve_join cwd' dir key Habs Hkey). exact Hfile.
Qed.



(** A hit tells that the cache is enabled and that the file the entry
    names is on disk with the bytes returned. *)
Lemma getCached_hit_inv w key buffer w0 :
  getCached key w = (inr (Some buffer), w0) ->
  disabled (this w) = false /\
  exists entry,
    entries (manifest (this w)) !! key = Some entry /\
    Fs.files (disk w) !! Path.resolve (cwd w) [cacheDir (this w); filePath entry]
    = Some buffer.
Proof.
  unfold getCached, bind, get_this, path_resolve, existsSync, try_catch,
    readFile, set_manifest, ret.
  destruct (disabled (this w)); [discriminate|].
  destruct (entries (manifest (this w)) !! key) as [entry|]; [|discriminate].
  intros H. split; [reflexivity|]. exists entry. split; [reflexivity|].
  destruct (Fs.existsSync (disk w) _); cbn [negb] in H; [|discriminate].
  unfold Fs.readFile in H.
  destruct (Fs.files (disk w) !! _) as [content|]; [congruence|].
  destruct (Fs.is_directory (disk w) _); discriminate.
Qed.

Lemma no_slash_not_absolute key :
  Path.no_slash key = true -> Path.isAbsolute key = false.
Proof.
  destruct key as [|c rest]; [reflexivity|]. cbn.
  intros H. apply andb_prop in H as [H _]. apply negb_true_iff in H. exact H.
Qed.

(** Different keys without a slash are stored in different files. *)
Lemma cache_files_differ dir key other :
  Path.isAbsolute dir = true ->
  Path.no_slash key = true -> Path.no_slash other = true ->
  Path.join [dir; (other ++ ".png")%string] = Path.join [dir; (key ++ ".png")%string] ->
  other = key.
Proof.
  intros Hd Hk Ho He.
  apply (Text.append_inj_tail other key ".png").
  apply (Path.join_plain_inj dir _ _ "g"%char "g"%char Hd); try exact He.
  - apply Path.no_slash_app; [exact Ho | reflexivity].
  - apply Path.last_char_app. reflexivity.
  - discriminate.
  - apply Path.no_slash_app; [exact Hk | reflexivity].
  - apply Path.last_char_app. reflexivity.
  - discriminate.
Qed.

(** X26 (keys do not interfere).  On a cache whose directory is an
    absolute path, for keys without a slash (those of [generateKey] are
    hexadecimal): when a lookup of one key is a hit on an entry that
    [setCached] made (its file is the key followed by [.png]), a store
    under a different key that returns leaves that lookup a hit with
    the same bytes. *)
Theorem setCached_leaves_other_keys_alone
    w key screenshot url viewport path w' other entry buffer w0 :
  Path.isAbsolute (cacheDir (this w)) = true ->
  Path.no_slash key = true ->
  Path.no_slash other = true ->
  other <> key ->
  entries (manifest (this w)) !! other = Some entry ->
  filePath entry = (other ++ ".png")%string ->
  getCached other w = (inr (Some buffer), w0) ->
  setCached key screenshot url viewport w = (inr path, w') ->
  getCached other w' = (inr (Some buffer), w').
Proof.
  intros Habs Hkey Hother Hne Hentry Hname Hget Hset.
  destruct (getCached_hit_inv _ _ _ _ Hget) as (Hen & entry' & Hentry' & Hfile).
  rewrite Hentry in Hentry'. injection Hentry' as <-.
  rewrite Hname in Hfile.
  rewrite (cache_file_resolve_join _ _ other Habs
             (no_slash_not_absolute _ Hother)) in Hfile.
  destruct (setCached_returned _ _ _ _ _ _ _ Hset) as (d1 & d2 & Hw1 & Hw2 & _ & ->).
  destruct (writeFile_files _ _ _ _ Hw1) as (Hf1 & _ & _).
  destruct (writeFile_files _ _ _ _ Hw2) as (Hf2 & _ & _).
  apply (getCached_hit _ other entry).
  - exact Hen.
  - cbn [this manifest entries]. rewrite lookup_insert_ne; [exact Hentry|].
    congruence.
  - cbn [this disk cwd cacheDir]. rewrite Hname.
    rewrite (cache_file_resolve_join _ _ other Habs
               (no_slash_not_absolute _ Hother)).
    rewrite Hf2, lookup_insert_ne, Hf1, lookup_insert_ne; [exact Hfile| |].
    + intros He. apply Hne. symmetry in He.
      exact (cache_files_differ _ _ _ Habs Hkey Hother He).
    + intros He. symmetry in He.
      exact (cache_file_is_not_manifest _ other Habs He).
Qed.

End Methods.

(** A stand-in for the manifest document: the keys, one per line. *)
Definition keys_document (m : CacheManifest) : Fs.Buffer :=
  list_byte_of_string
    (String.concat (String (ascii_of_nat 10) EmptyString)
       (List.map fst (map_to_list (entries m)))).

Lemma cache_round_trip_witness :
  let stored := snd (setCached keys_document sample_key sample_png sample_url
                       sample_viewport (world_on used_disk false)) in
  getCached sample_key stored = (inr (Some sample_png), stored).
Proof.
  cbv zeta.
  apply (cache_round_trip keys_document (world_on used_disk false) sample_key
           sample_png sample_url sample_viewport
           "/work/looker-cache/0123456789abcdef.png").
  - reflexivity.
  - reflexivity.
  - reflexivity.
  - vm_compute. reflexivity.
Defined.

Lemma stale_entry_witness :
  exists w',
    getCached sample_key stale_world = (inr None, w') /\
    entries (manifest (this w'))
    = delete sample_key (entries (manifest (this stale_world))) /\
    entries (manifest (this w')) !! sample_key = None /\
    disk w' = disk stale_world /\
    cacheDir (this w') = cacheDir (this stale_world) /\
    disabled (this w') = disabled (this stale_world).
Proof.
  apply (stale_entry_is_a_miss stale_world sample_key sample_entry).
  - reflexivity.
  - vm_compute. reflexivity.
  - vm_compute. reflexivity.
Defined.

(** A stand-in for the manifest document that tells the empty manifest
    from the one holding the sample entry, and its reader. *)
Definition slot_document (m : CacheManifest) : Fs.Buffer :=
  if (size (entries m) =? 0)%nat then [Byte.x00] else [Byte.x01].

Definition slot_parse (content : Fs.Buffer) : option CacheManifest :=
  match content with
  | [Byte.x00] => Some {| entries := ∅ |}
  | [Byte.x01] => Some {| entries := {[ sample_key := sample_entry ]} |}
  | _ => None
  end.


Lemma cache_survives_restart_witness :
  let stored := snd (setCached slot_document sample_key sample_png sample_url
                       sample_viewport (world_on used_disk false)) in
  exists w'',
    init slot_parse
      {| this := {| cacheDir := "/work/looker-cache";
                    manifest := {| entries := ∅ |};
                    disabled := false |};
         disk := disk stored; clock := 1700000003000; cwd := "/elsewhere" |}
    = (inr tt, w'') /\
    disk w'' = disk stored /\
    getCached sample_key w'' = (inr (Some sample_png), w'').
Proof.
  cbv zeta.
  apply (cache_survives_restart slot_document slot_parse
           (world_on used_disk false) sample_key sample_png sample_url
           sample_viewport "/work/looker-cache/0123456789abcdef.png"
           (snd (setCached slot_document sample_key sample_png sample_url
                   sample_viewport (world_on used_disk false)))
           1700000003000 "/elsewhere").
  - reflexivity.
  - reflexivity.
  - reflexivity.
  - vm_compute. reflexivity.
  - vm_compute. reflexivity.
  - vm_compute. reflexivity.
Defined.



Definition second_key : string := "fedcba9876543210".
Definition second_png : Fs.Buffer := [Byte.x89; Byte.x50; Byte.x4e; Byte.x47; Byte.x0d].

Lemma setCached_leaves_other_keys_alone_witness :
  let first := snd (setCached slot_document sample_key sample_png sample_url
                      sample_viewport (world_on used_disk false)) in
  let second := snd (setCached slot_document second_key second_png sample_url
                       sample_viewport first) in
  getCached sample_key second = (inr (Some sample_png), second).
Proof.
  cbv zeta.
  apply (setCached_leaves_other_keys_alone slot_document
           (snd (setCached slot_document sample_key sample_png sample_url
                   sample_viewport (world_on used_disk false)))
           second_key second_png sample_url sample_viewport
           "/work/looker-cache/fedcba9876543210.png" _
           sample_key sample_entry sample_png
           (snd (setCached slot_document sample_key sample_png sample_url
                   sample_viewport (world_on used_disk false)))).
  - reflexivity.
  - reflexivity.
  - reflexivity.
  - discriminate.
  - vm_compute. reflexivity.
  - reflexivity.
  - vm_compute. reflexivity.
  - vm_compute. reflexivity.
Defined.

End Cache.

(* ===================================================================== *)
(** * The run driver: analysis phases A and B *)
(* ===================================================================== *)

Module Orchestrator.

Definition ANALYSIS_CONCURRENCY : nat := 5.

(** A thrown value: an [Error] object with its message, or anything
    else with what [String(err)] makes of it. *)
Inductive Thrown :=
| ErrorObject (message : string)
| OtherValue (text : string).

(** [err instanceof Error ? err.message : String(err)]. *)
Definition error_message (err : Thrown) : string :=
  match err with
  | ErrorObject message => message
  | OtherValue text => text
  end.

Record PageError := { viewport : string; error : string }.

(** A screenshot map: the entries of a JavaScript [Map] in insertion
    order. *)
Abbreviation ScreenshotMap := (list (string * Types.ScreenshotEntry)).

Section Run.
Context {PageAnalysis CrossViewportAnalysis : Type}.

Record PageResult := {
  url : string;
  screenshots : ScreenshotMap;
  analyses : gmap string PageAnalysis;
  crossViewportAnalysis : option CrossViewportAnalysis;
  errors : list PageError
}.

(** The collaborators.  [existsSync] is the disk as the submission loop
    sees it; [analyzeScreenshot] and [compareViewports] give, for the
    arguments of each call of this run, how that call settles (goals
    and configuration are the same for the whole run). *)
Variable existsSync : string -> bool.
Variable analyzeScreenshot :
  string -> string -> Types.ViewportConfig -> Thrown + PageAnalysis.
Variable compareViewports :
  string -> ScreenshotMap -> Thrown + option CrossViewportAnalysis.

(** A task handed to [analysisLimit].  Its closure holds a reference to
    the page result it writes to: the position of that page in [pages]. *)
Inductive Task :=
| AnalysisTask (page : nat) (vpName : string) (entry : Types.ScreenshotEntry)
| ComparisonTask (page : nat).

Inductive Event :=
| Started (t : Task)
| Settled (t : Task).

Inductive Phase :=
| PhaseA
| PhaseB
| Finished
| Rejected (err : Thrown).

Record State := {
  phase : Phase;
  pages : list PageResult;
  queue : list Task;    (* waiting in the limiter, first in first out *)
  active : list Task;   (* started and not yet settled *)
  trace : list Event
}.

(** The body of an [async] arrow function acting on one page result:
    the page after it, and whether its promise fulfils or rejects. *)
Definition Body : Type := PageResult -> PageResult * (Thrown + unit).

(** [try { body } catch (err) { handler } finally { finalizer }]. *)
Definition try_catch_finally (body : Body) (handler : Thrown -> Body)
    (finalizer : Body) : Body :=
  fun pr =>
    let '(pr1, r1) := body pr in
    let '(pr2, r2) :=
      match r1 with
      | inr _ => (pr1, r1)
      | inl err => handler err pr1
      end in
    let '(pr3, r3) := finalizer pr2 in
    match r3 with
    | inl err => (pr3, inl err)
    | inr _ => (pr3, r2)
    end.

Definition set_analysis (vpName : string) (analysis : PageAnalysis)
    (pr : PageResult) : PageResult :=
  {| url := url pr; screenshots := screenshots pr;
     analyses := <[vpName := analysis]> (analyses pr);
     crossViewportAnalysis := crossViewportAnalysis pr;
     errors := errors pr |}.

Definition set_crossViewportAnalysis (result : option CrossViewportAnalysis)
    (pr : PageResult) : PageResult :=
  {| url := url pr; screenshots := screenshots pr;
     analyses := analyses pr;
     crossViewportAnalysis := result;
     errors := errors pr |}.

Definition push_error (e : PageError) (pr : PageResult) : PageResult :=
  {| url := url pr; screenshots := screenshots pr;
     analyses := analyses pr;
     crossViewportAnalysis := crossViewportAnalysis pr;
     errors := errors pr ++ [e] |}.

(** The task of Phase A for one viewport of one page; the progress
    counter and the spinner of the [finally] block are not state the
    claims speak about. *)
Definition analysis_body (vpName : string) (entry : Types.ScreenshotEntry)
    : Body :=
  try_catch_finally
    (fun pr =>
       match analyzeScreenshot (Types.filePath entry) (url pr)
               (Types.viewport entry) with
       | inr analysis => (set_analysis vpName analysis pr, inr tt)
       | inl err => (pr, inl err)
       end)
    (fun err pr =>
       let message := error_message err in
       (push_error {| viewport := vpName; error := message |} pr, inr tt))
    (fun pr => (pr, inr tt)).

(** The task of Phase B for one page. *)
Definition comparison_body : Body :=
  try_catch_finally
    (fun pr =>
       match compareViewports (url pr) (screenshots pr) with
       | inr result => (set_crossViewportAnalysis result pr, inr tt)
       | inl err => (pr, inl err)
       end)
    (fun err pr =>
       let message := error_message err in
       (push_error {| viewport := "cross-viewport"; error := message |} pr,
        inr tt))
    (fun pr => (pr, inr tt)).

Definition task_page (t : Task) : nat :=
  match t with
  | AnalysisTask page _ _ => page
  | ComparisonTask page => page
  end.

Definition task_body (t : Task) : Body :=
  match t with
  | AnalysisTask _ vpName entry => analysis_body vpName entry
  | ComparisonTask _ => comparison_body
  end.

(** A task settles: its body runs on the page it refers to. *)
Definition settle (t : Task) (ps : list PageResult)
    : list PageResult * (Thrown + unit) :=
  match ps !! task_page t with
  | Some pr =>
      let '(pr', r) := task_body t pr in
      (<[task_page t := pr']> ps, r)
  | None => (ps, inr tt)
  end.

(** The loop over the viewports of one page: a missing file is recorded
    at once, any other entry is handed to the limiter. *)
Fixpoint preflight (page : nat) (viewportEntries : ScreenshotMap)
    (pr : PageResult) (tasks : list Task) : PageResult * list Task :=
  match viewportEntries with
  | [] => (pr, tasks)
  | (vpName, entry) :: rest =>
      if negb (existsSync (Types.filePath entry)) then
        preflight page rest
          (push_error
             {| viewport := vpName;
                error := "Screenshot file not found: " ++ Types.filePath entry |}
             pr)
          tasks
      else
        preflight page rest pr (tasks ++ [AnalysisTask page vpName entry])
  end.

Definition new_page (pageUrl : string) (viewportEntries : ScreenshotMap)
    : PageResult :=
  {| url := pageUrl; screenshots := viewportEntries; analyses := ∅;
     crossViewportAnalysis := None; errors := [] |}.

(** The two loops over [captureResult.entries], as one: the page each
    task refers to ([pageMap.get(url)]) is the page built from the same
    entry, the keys of a [Map] being unique. *)
Fixpoint submit (page : nat) (entries : list (string * ScreenshotMap))
    : list PageResult * list Task :=
  match entries with
  | [] => ([], [])
  | (pageUrl, viewportEntries) :: rest =>
      let '(pr, tasks) :=
        preflight page viewportEntries (new_page pageUrl viewportEntries) [] in
      let '(prs, tasks') := submit (S page) rest in
      (pr :: prs, tasks ++ tasks')
  end.

(** The state when [run] reaches [await Promise.all(analysisTasks)]. *)
Definition initial (entries : list (string * ScreenshotMap)) : State :=
  let '(ps, tasks) := submit 0 entries in
  {| phase := PhaseA; pages := ps; queue := tasks; active := [];
     trace := [] |}.

(** [pages.filter((p) => p.screenshots.size > 1)], as the tasks made
    from it. *)
Fixpoint comparisons (page : nat) (ps : list PageResult) : list Task :=
  match ps with
  | [] => []
  | pr :: rest =>
      if (1 <? length (screenshots pr))%nat
      then ComparisonTask page :: comparisons (S page) rest
      else comparisons (S page) rest
  end.

Definition in_flight (s : State) : bool :=
  match phase s with
  | PhaseA | PhaseB => true
  | _ => false
  end.

(** One move of the event loop. *)
Inductive step : State -> State -> Prop :=
| step_start s t rest :
    in_flight s = true ->
    queue s = t :: rest ->
    (length (active s) < ANALYSIS_CONCURRENCY)%nat ->
    step s {| phase := phase s; pages := pages s; queue := rest;
              active := active s ++ [t];
              trace := trace s ++ [Started t] |}
| step_settle s before t after ps' :
    in_flight s = true ->
    active s = before ++ t :: after ->
    settle t (pages s) = (ps', inr tt) ->
    step s {| phase := phase s; pages := ps'; queue := queue s;
              active := before ++ after;
              trace := trace s ++ [Settled t] |}
| step_reject s before t after ps' err :
    in_flight s = true ->
    active s = before ++ t :: after ->
    settle t (pages s) = (ps', inl err) ->
    step s {| phase := Rejected err; pages := ps'; queue := queue s;
              active := before ++ after;
              trace := trace s ++ [Settled t] |}
| step_all_analysed s :
    phase s = PhaseA -> queue s = [] -> active s = [] ->
    step s {| phase := match comparisons 0 (pages s) with
                       | [] => Finished
                       | _ => PhaseB
                       end;
              pages := pages s;
              queue := comparisons 0 (pages s);
              active := [];
              trace := trace s |}
| step_all_compared s :
    phase s = PhaseB -> queue s = [] -> active s = [] ->
    step s {| phase := Finished; pages := pages s; queue := [];
              active := []; trace := trace s |}.

(** ** Task bodies *)

(** Both task bodies catch whatever the collaborator throws: their
    promises always fulfil. *)
Lemma task_body_fulfils t pr : snd (task_body t pr) = inr tt.
Proof.
  destruct t as [page vpName entry|page]; cbn [task_body];
    unfold analysis_body, comparison_body, try_catch_finally.
  - destruct (analyzeScreenshot _ _ _); reflexivity.
  - destruct (compareViewports _ _); reflexivity.
Qed.

Lemma settle_fulfils t ps : snd (settle t ps) = inr tt.
Proof.
  unfold settle. destruct (ps !! task_page t) as [pr|]; [|reflexivity].
  pose proof (task_body_fulfils t pr) as H.
  destruct (task_body t pr) as [pr' r]. exact H.
Qed.

(** A task body leaves the identity of its page alone and only adds to
    its error list. *)
Lemma task_body_frame t pr :
  url (fst (task_body t pr)) = url pr /\
  screenshots (fst (task_body t pr)) = screenshots pr /\
  exists more, errors (fst (task_body t pr)) = errors pr ++ more.
Proof.
  destruct t as [page vpName entry|page]; cbn [task_body];
    unfold analysis_body, comparison_body, try_catch_finally.
  - destruct (analyzeScreenshot _ _ _); cbn.
    + repeat split. eexists. reflexivity.
    + repeat split. exists []. symmetry. apply app_nil_r.
  - destruct (compareViewports _ _); cbn.
    + repeat split. eexists. reflexivity.
    + repeat split. exists []. symmetry. apply app_nil_r.
Qed.

(** What an analysis task leaves on its page. *)
Definition recorded (vpName : string) (entry : Types.ScreenshotEntry)
    (pr : PageResult) : Prop :=
  match analyzeScreenshot (Types.filePath entry) (url pr)
          (Types.viewport entry) with
  | inr analysis => analyses pr !! vpName = Some analysis
  | inl err =>
      In {| viewport := vpName; error := error_message err |} (errors pr)
  end.

Lemma analysis_body_records vpName entry pr :
  recorded vpName entry (fst (analysis_body vpName entry pr)).
Proof.
  unfold recorded.
  destruct (task_body_frame (AnalysisTask 0 vpName entry) pr) as (Hu & _ & _).
  cbn [task_body] in Hu. rewrite Hu. clear Hu.
  unfold analysis_body, try_catch_finally.
  destruct (analyzeScreenshot _ _ _) as [err|analysis]; cbn.
  - apply in_or_app. right. left. reflexivity.
  - apply lookup_insert_eq.
Qed.

(** Another task on the same page keeps what was recorded, as long as it
    is not a different entry under the same viewport name. *)
Lemma task_body_keeps_recorded t vpName entry pr :
  (forall page entry', t = AnalysisTask page vpName entry' -> entry' = entry) ->
  recorded vpName entry pr ->
  recorded vpName entry (fst (task_body t pr)).
Proof.
  intros Hsame Hrec.
  destruct t as [page vpName' entry'|page].
  - destruct (String.eqb_spec vpName' vpName) as [->|Hne].
    + rewrite (Hsame page entry' eq_refl). apply analysis_body_records.
    + unfold recorded in *.
      destruct (task_body_frame (AnalysisTask page vpName' entry') pr)
        as (Hu & _ & _).
      rewrite Hu. clear Hu. cbn [task_body].
      destruct (analyzeScreenshot (Types.filePath entry) _ _) as [err|analysis];
        unfold analysis_body, try_catch_finally;
        destruct (analyzeScreenshot (Types.filePath entry') _ _); cbn.
      * apply in_or_app. left. exact Hrec.
      * exact Hrec.
      * exact Hrec.
      * rewrite lookup_insert_ne by exact Hne. exact Hrec.
  - unfold recorded in *.
    destruct (task_body_frame (ComparisonTask page) pr) as (Hu & _ & _).
    rewrite Hu. clear Hu. cbn [task_body].
    destruct (analyzeScreenshot (Types.filePath entry) _ _) as [err|analysis];
      unfold comparison_body, try_catch_finally;
      destruct (compareViewports _ _); cbn.
    + apply in_or_app. left. exact Hrec.
    + exact Hrec.
    + exact Hrec.
    + exact Hrec.
Qed.

(** ** Submission *)

Definition add_errors (es : list PageError) (pr : PageResult) : PageResult :=
  {| url := url pr; screenshots := screenshots pr; analyses := analyses pr;
     crossViewportAnalysis := crossViewportAnalysis pr;
     errors := errors pr ++ es |}.

Definition missing_file (vpName : string) (entry : Types.ScreenshotEntry)
    : PageError :=
  {| viewport := vpName;
     error := "Screenshot file not found: " ++ Types.filePath entry |}.

Definition preflight_errors (viewportEntries : ScreenshotMap) : list PageError :=
  List.flat_map
    (fun '(vpName, entry) =>
       if existsSync (Types.filePath entry) then []
       else [missing_file vpName entry])
    viewportEntries.

Definition preflight_tasks (page : nat) (viewportEntries : ScreenshotMap)
    : list Task :=
  List.flat_map
    (fun '(vpName, entry) =>
       if existsSync (Types.filePath entry)
       then [AnalysisTask page vpName entry] else [])
    viewportEntries.

Lemma preflight_eq page viewportEntries pr tasks :
  preflight page viewportEntries pr tasks
  = (add_errors (preflight_errors viewportEntries) pr,
     tasks ++ preflight_tasks page viewportEntries).
Proof.
  revert pr tasks.
  induction viewportEntries as [|[vpName entry] rest IH]; intros pr tasks; cbn.
  - unfold add_errors. rewrite !app_nil_r. destruct pr; reflexivity.
  - destruct (existsSync (Types.filePath entry)); cbn; rewrite IH.
    + rewrite <- app_assoc. reflexivity.
    + unfold add_errors, push_error. cbn. rewrite <- app_assoc. reflexivity.
Qed.

Definition submitted_page (e : string * ScreenshotMap) : PageResult :=
  add_errors (preflight_errors e.2) (new_page e.1 e.2).

Lemma submit_pages page entries :
  fst (submit page entries) = List.map submitted_page entries.
Proof.
  revert page. induction entries as [|[pageUrl vps] rest IH]; intros page; cbn.
  - reflexivity.
  - rewrite preflight_eq. specialize (IH (S page)).
    destruct (submit (S page) rest) as [prs tasks']. cbn in *.
    rewrite IH. reflexivity.
Qed.

Lemma submit_tasks_in page entries t :
  In t (snd (submit page entries)) <->
  exists i pageUrl vps vpName entry,
    t = AnalysisTask (page + i) vpName entry /\
    entries !! i = Some (pageUrl, vps) /\
    In (vpName, entry) vps /\
    existsSync (Types.filePath entry) = true.
Proof.
  revert page. induction entries as [|[pageUrl vps] rest IH]; intros page; cbn.
  - split; [intros []|]. intros (i & ? & ? & ? & ? & _ & H & _).
    destruct i; discriminate.
  - rewrite preflight_eq. specialize (IH (S page)).
    destruct (submit (S page) rest) as [prs tasks']. cbn in *.
    rewrite in_app_iff, IH. unfold preflight_tasks. rewrite in_flat_map.
    split.
    + intros [([vpName entry] & Hin & Ht)|(i & u & v & vpName & entry & -> & Hl & Hin & Hex)].
      * destruct (existsSync (Types.filePath entry)) eqn:Hex; [|destruct Ht].
        destruct Ht as [<-|[]].
        exists 0%nat, pageUrl, vps, vpName, entry.
        rewrite Nat.add_0_r. repeat split; assumption.
      * exists (S i), u, v, vpName, entry.
        rewrite Nat.add_succ_r. repeat split; assumption.
    + intros (i & u & v & vpName & entry & -> & Hl & Hin & Hex).
      destruct i as [|i]; cbn in Hl.
      * injection Hl as <- <-. left. exists (vpName, entry).
        split; [exact Hin|]. rewrite Hex, Nat.add_0_r. left. reflexivity.
      * right. exists i, u, v, vpName, entry.
        rewrite Nat.add_succ_r. repeat split; assumption.
Qed.

(** ** Runs *)

Definition is_analysis (t : Task) : bool :=
  match t with
  | AnalysisTask _ _ _ => true
  | ComparisonTask _ => false
  end.

Definition event_task (ev : Event) : Task :=
  match ev with
  | Started t => t
  | Settled t => t
  end.

(** The analysis tasks that have settled in a trace. *)
Definition settled_analyses (tr : list Event) : list Task :=
  List.flat_map
    (fun ev => match ev with
               | Settled (AnalysisTask page vpName entry) =>
                   [AnalysisTask page vpName entry]
               | _ => []
               end) tr.

Definition identity (pr : PageResult) : string * ScreenshotMap :=
  (url pr, screenshots pr).

Lemma settled_analyses_app tr1 tr2 :
  settled_analyses (tr1 ++ tr2) = settled_analyses tr1 ++ settled_analyses tr2.
Proof. apply flat_map_app. Qed.

Lemma settled_analyses_comparisons tr :
  Forall (fun ev => is_analysis (event_task ev) = false) tr ->
  settled_analyses tr = [].
Proof.
  induction 1 as [|ev tr Hev _ IH]; [reflexivity|].
  change (ev :: tr) with ([ev] ++ tr).
  rewrite settled_analyses_app, IH, app_nil_r.
  destruct ev as [t|[page vpName entry|page]]; cbn in *;
    [reflexivity | discriminate | reflexivity].
Qed.

Lemma comparisons_in page ps t :
  In t (comparisons page ps) <->
  exists i pr, t = ComparisonTask (page + i) /\ ps !! i = Some pr /\
               (1 < length (screenshots pr))%nat.
Proof.
  revert page. induction ps as [|pr ps IH]; intros page; cbn [comparisons].
  - split; [intros []|]. intros (i & ? & _ & H & _). destruct i; discriminate.
  - destruct (Nat.ltb_spec 1 (length (screenshots pr))) as [Hlt|Hge]; cbn [In];
      rewrite IH; split.
    + intros [<-|(i & pr' & -> & Hl & Hn)].
      * exists 0%nat, pr. rewrite Nat.add_0_r. auto.
      * exists (S i), pr'. rewrite Nat.add_succ_r. auto.
    + intros (i & pr' & -> & Hl & Hn). destruct i as [|i]; cbn in Hl.
      * left. rewrite Nat.add_0_r. reflexivity.
      * right. exists i, pr'. rewrite Nat.add_succ_r. auto.
    + intros (i & pr' & -> & Hl & Hn).
      exists (S i), pr'. rewrite Nat.add_succ_r. auto.
    + intros (i & pr' & -> & Hl & Hn). destruct i as [|i]; cbn in Hl.
      * injection Hl as <-. lia.
      * exists i, pr'. rewrite Nat.add_succ_r. auto.
Qed.

Lemma comparisons_are_comparisons page ps :
  Forall (fun t => is_analysis t = false) (comparisons page ps).
Proof.
  apply List.Forall_forall. intros t Ht.
  apply comparisons_in in Ht as (i & pr & -> & _). reflexivity.
Qed.

(** What settling a task does to the list of pages. *)
Lemma settle_lookup t ps i pr :
  ps !! i = Some pr ->
  fst (settle t ps) !! i
  = Some (if Nat.eqb i (task_page t) then fst (task_body t pr) else pr).
Proof.
  intros Hi. unfold settle.
  destruct (Nat.eqb_spec i (task_page t)) as [->|Hne].
  - rewrite Hi. destruct (task_body t pr) as [pr' r]. cbn.
    apply list_lookup_insert_eq. apply lookup_lt_Some in Hi. exact Hi.
  - destruct (ps !! task_page t) as [pr0|]; [|exact Hi].
    destruct (task_body t pr0) as [pr' r]. cbn.
    rewrite list_lookup_insert_ne by congruence. exact Hi.
Qed.

Lemma settle_identity t ps :
  identity <$> fst (settle t ps) = identity <$> ps.
Proof.
  unfold settle. destruct (ps !! task_page t) as [pr|] eqn:Hi; [|reflexivity].
  destruct (task_body_frame t pr) as (Hu & Hs & _).
  destruct (task_body t pr) as [pr' r]. cbn in *.
  rewrite list_fmap_insert. apply list_insert_id.
  rewrite list_lookup_fmap, Hi. unfold identity. cbn. rewrite Hu, Hs.
  reflexivity.
Qed.

Section Runs.
Variable entries : list (string * ScreenshotMap).

(** [analysisTasks], the promises [Promise.all] waits for. *)
Definition analysisTasks : list Task := snd (submit 0 entries).

Lemma analysisTasks_in t :
  In t analysisTasks <->
  exists page pageUrl vps vpName entry,
    t = AnalysisTask page vpName entry /\
    entries !! page = Some (pageUrl, vps) /\
    In (vpName, entry) vps /\
    existsSync (Types.filePath entry) = true.
Proof. unfold analysisTasks. rewrite submit_tasks_in. reflexivity. Qed.

Lemma analysisTasks_are_analyses t :
  In t analysisTasks -> is_analysis t = true.
Proof.
  intros Ht. apply analysisTasks_in in Ht as (? & ? & ? & ? & ? & -> & _).
  reflexivity.
Qed.

(** What holds in every state of every run. *)
Record Inv (s : State) : Prop := {
  inv_shape : identity <$> pages s = entries;
  inv_errors :
    forall i pr, pages s !! i = Some pr ->
      exists e more, entries !! i = Some e /\
                     errors pr = preflight_errors e.2 ++ more;
  inv_barrier :
    match phase s with
    | PhaseA =>
        settled_analyses (trace s) ++ active s ++ queue s ≡ₚ analysisTasks /\
        Forall (fun ev => is_analysis (event_task ev) = true) (trace s)
    | PhaseB | Finished =>
        exists traceA rest,
          trace s = traceA ++ rest /\
          settled_analyses traceA ≡ₚ analysisTasks /\
          Forall (fun ev => is_analysis (event_task ev) = true) traceA /\
          Forall (fun ev => is_analysis (event_task ev) = false) rest /\
          Forall (fun t => is_analysis t = false) (active s ++ queue s)
    | Rejected _ => False
    end;
  inv_compared :
    forall p,
      In (ComparisonTask p) (queue s ++ active s) \/
      In (Started (ComparisonTask p)) (trace s) ->
      exists e, entries !! p = Some e /\ (2 <= length e.2)%nat
}.

Lemma Inv_initial : Inv (initial entries).
Proof.
  unfold initial. pose proof (submit_pages 0 entries) as Hp.
  destruct (submit 0 entries) as [ps tasks] eqn:Hs. cbn in Hp. subst ps.
  constructor; cbn.
  - rewrite <- list_fmap_compose. clear Hs.
    induction entries as [|[u vps] rest IH]; [reflexivity|].
    cbn. f_equal. exact IH.
  - intros i pr Hi. rewrite list_lookup_fmap in Hi.
    destruct (entries !! i) as [e|] eqn:He; [|discriminate].
    injection Hi as <-. exists e, []. split; [reflexivity|].
    cbn. rewrite app_nil_r. reflexivity.
  - split; [unfold analysisTasks; rewrite Hs; reflexivity | constructor].
  - intros p [Hq|[]]. exfalso.
    assert (Hin : In (ComparisonTask p) (snd (submit 0 entries))).
    { rewrite Hs. cbn. rewrite app_nil_r in Hq. exact Hq. }
    apply analysisTasks_are_analyses in Hin. discriminate.
Qed.

Lemma lookup_before_settle t ps i pr' :
  fst (settle t ps) !! i = Some pr' ->
  exists pr, ps !! i = Some pr /\
             pr' = if Nat.eqb i (task_page t) then fst (task_body t pr) else pr.
Proof.
  intros Hi.
  assert (Hid : (identity <$> ps) !! i = Some (identity pr')).
  { rewrite <- (settle_identity t ps), list_lookup_fmap, Hi. reflexivity. }
  rewrite list_lookup_fmap in Hid.
  destruct (ps !! i) as [pr|] eqn:Hps; [|discriminate].
  exists pr. split; [reflexivity|].
  rewrite (settle_lookup t ps i pr Hps) in Hi. injection Hi as <-. reflexivity.
Qed.

Lemma Inv_step s s' : Inv s -> step s s' -> Inv s'.
Proof.
  intros [Hshape Herr Hbar Hcmp] Hstep.
  destruct Hstep as [s t rest Hfl Hq Hcap
                    |s before t after ps' Hfl Hact Hset
                    |s before t after ps' err Hfl Hact Hset
                    |s Hph Hq Hact
                    |s Hph Hq Hact].
  - (* a task starts *)
    constructor; cbn; [exact Hshape | exact Herr | |].
    + unfold in_flight in Hfl.
      destruct (phase s) eqn:Hph; [| |discriminate|destruct Hbar].
      * destruct Hbar as [Hperm Hall]. rewrite Hq in Hperm.
        assert (Ht : is_analysis t = true).
        { apply analysisTasks_are_analyses. rewrite <- Hperm.
          rewrite !in_app_iff. right. right. left. reflexivity. }
        split.
        -- rewrite settled_analyses_app. cbn. rewrite app_nil_r.
           rewrite <- Hperm, <- (app_assoc (active s) [t] rest). reflexivity.
        -- apply Forall_app. split; [exact Hall|]. constructor; [exact Ht|constructor].
      * destruct Hbar as (traceA & rest' & Htr & Hperm & HA & HB & Hpend).
        rewrite Hq in Hpend.
        assert (Ht : is_analysis t = false).
        { rewrite Forall_app in Hpend. destruct Hpend as [_ Hqueue].
          inversion Hqueue. assumption. }
        exists traceA, (rest' ++ [Started t]).
        split; [rewrite Htr, app_assoc; reflexivity|].
        split; [exact Hperm|]. split; [exact HA|]. split.
        -- apply Forall_app. split; [exact HB|]. constructor; [exact Ht|constructor].
        -- rewrite <- (app_assoc (active s) [t] rest). exact Hpend.
    + intros p Hp. apply Hcmp. rewrite Hq.
      rewrite !in_app_iff in *. cbn in *.
      destruct Hp as [[Hp|[Hp|[Hp|[]]]]|[Hp|[Hp|[]]]];
        try (injection Hp as Hp); subst; auto 10.
  - (* a task settles *)
    assert (Hps : ps' = fst (settle t (pages s))) by (rewrite Hset; reflexivity).
    subst ps'. constructor; cbn.
    + rewrite settle_identity. exact Hshape.
    + intros i pr' Hi.
      apply lookup_before_settle in Hi as (pr & Hi & ->).
      destruct (Herr i pr Hi) as (e & more & He & Hmore).
      destruct (Nat.eqb i (task_page t)); [|exists e, more; auto].
      destruct (task_body_frame t pr) as (_ & _ & more' & Hgrow).
      exists e, (more ++ more'). split; [exact He|].
      rewrite Hgrow, Hmore, app_assoc. reflexivity.
    + unfold in_flight in Hfl.
      destruct (phase s) eqn:Hph; [| |discriminate|destruct Hbar].
      * destruct Hbar as [Hperm Hall]. rewrite Hact in Hperm.
        assert (Ht : is_analysis t = true).
        { apply analysisTasks_are_analyses. rewrite <- Hperm.
          rewrite !in_app_iff. right. left. right. left. reflexivity. }
        split.
        -- rewrite settled_analyses_app.
           destruct t as [page vpName entry|page]; [|discriminate]. cbn.
           rewrite <- Hperm, <- !app_assoc. apply Permutation_app_head.
           cbn. rewrite (Permutation_middle before). reflexivity.
        -- apply Forall_app. split; [exact Hall|]. constructor; [exact Ht|constructor].
      * destruct Hbar as (traceA & rest' & Htr & Hperm & HA & HB & Hpend).
        rewrite Hact in Hpend.
        assert (Ht : is_analysis t = false).
        { rewrite !Forall_app in Hpend. destruct Hpend as [[_ Hafter] _].
          inversion Hafter. assumption. }
        exists traceA, (rest' ++ [Settled t]).
        split; [rewrite Htr, app_assoc; reflexivity|].
        split; [exact Hperm|]. split; [exact HA|]. split.
        -- apply Forall_app. split; [exact HB|]. constructor; [exact Ht|constructor].
        -- rewrite !Forall_app in *. destruct Hpend as [[Hb Ha] Hqueue].
           inversion Ha. auto.
    + intros p Hp. apply Hcmp. rewrite Hact.
      rewrite !in_app_iff in *. cbn in *.
      destruct Hp as [[Hp|[Hp|Hp]]|[Hp|[Hp|[]]]]; try discriminate; auto 10.
  - (* a task rejects: it never does *)
    pose proof (settle_fulfils t (pages s)) as Hf. rewrite Hset in Hf.
    discriminate.
  - (* the barrier after Phase A *)
    rewrite Hph in Hbar. destruct Hbar as [Hperm Hall].
    rewrite Hq, Hact, !app_nil_r in Hperm.
    constructor; cbn; [exact Hshape | exact Herr | |].
    + assert (Hnext : exists traceA rest,
                trace s = traceA ++ rest /\
                settled_analyses traceA ≡ₚ analysisTasks /\
                Forall (fun ev => is_analysis (event_task ev) = true) traceA /\
                Forall (fun ev => is_analysis (event_task ev) = false) rest /\
                Forall (fun t => is_analysis t = false)
                  ([] ++ comparisons 0 (pages s))).
      { exists (trace s), []. rewrite app_nil_r.
        repeat split; try assumption; [constructor|].
        apply comparisons_are_comparisons. }
      destruct (comparisons 0 (pages s)); exact Hnext.
    + intros p [Hp|Hp]; [|apply Hcmp; right; exact Hp].
      rewrite app_nil_r in Hp.
      apply comparisons_in in Hp as (i & pr & [= ->] & Hi & Hlen).
      cbn. exists (identity pr). split; [|cbn; lia].
      rewrite <- Hshape, list_lookup_fmap, Hi. reflexivity.
  - (* the end of Phase B *)
    rewrite Hph in Hbar.
    destruct Hbar as (traceA & rest' & Htr & Hperm & HA & HB & Hpend).
    constructor; cbn; [exact Hshape | exact Herr | |].
    + exists traceA, rest'. repeat split; try assumption. constructor.
    + intros p [[]|Hp]. apply Hcmp. right. exact Hp.
Qed.

Lemma Inv_reachable s : rtc step (initial entries) s -> Inv s.
Proof.
  intros Hrun.
  eapply (rtc_ind_r (fun s => Inv s)); [apply Inv_initial | | exact Hrun].
  intros y z _ Hstep IH. eapply Inv_step; eassumption.
Qed.

Lemma split_at_event {A} (x : A) pre post before rest :
  pre ++ x :: post = before ++ rest -> ~ In x before ->
  exists mid, pre = before ++ mid /\ rest = mid ++ x :: post.
Proof.
  revert pre. induction before as [|b before IH]; intros pre Heq Hnot.
  - exists pre. split; [reflexivity | symmetry; exact Heq].
  - destruct pre as [|a pre]; cbn in Heq; injection Heq as Ha Heq.
    + destruct Hnot. left. symmetry. exact Ha.
    + subst a. destruct (IH pre Heq) as (mid & -> & ->).
      { intros Hin. apply Hnot. right. exact Hin. }
      exists mid. split; reflexivity.
Qed.

Lemma settled_in_trace tr t :
  In t (settled_analyses tr) -> In (Settled t) tr.
Proof.
  unfold settled_analyses. rewrite in_flat_map.
  intros ([t'|[page vpName entry|page]] & Hin & Ht); cbn in Ht;
    try destruct Ht as [<-|[]]; try destruct Ht. exact Hin.
Qed.

Lemma in_trace_settled tr page vpName entry :
  In (Settled (AnalysisTask page vpName entry)) tr ->
  In (AnalysisTask page vpName entry) (settled_analyses tr).
Proof.
  intros Hin. unfold settled_analyses. apply in_flat_map.
  exists (Settled (AnalysisTask page vpName entry)).
  split; [exact Hin | left; reflexivity].
Qed.

(** An analysis task that has settled is one of the submitted ones. *)
Lemma Inv_settled_submitted s page vpName entry :
  Inv s ->
  In (Settled (AnalysisTask page vpName entry)) (trace s) ->
  In (AnalysisTask page vpName entry) analysisTasks.
Proof.
  intros [_ _ Hbar _] Hin.
  destruct (phase s); [| | |destruct Hbar].
  - destruct Hbar as [Hperm _]. rewrite <- Hperm.
    apply in_or_app. left. apply in_trace_settled. exact Hin.
  - destruct Hbar as (traceA & rest & Htr & Hperm & _ & HB & _).
    rewrite <- Hperm. apply in_trace_settled.
    rewrite Htr in Hin. apply in_app_or in Hin as [Hin|Hin]; [exact Hin|].
    rewrite List.Forall_forall in HB. specialize (HB _ Hin). discriminate.
  - destruct Hbar as (traceA & rest & Htr & Hperm & _ & HB & _).
    rewrite <- Hperm. apply in_trace_settled.
    rewrite Htr in Hin. apply in_app_or in Hin as [Hin|Hin]; [exact Hin|].
    rewrite List.Forall_forall in HB. specialize (HB _ Hin). discriminate.
Qed.

(** An analysis task in flight is one of the submitted ones. *)
Lemma Inv_active_submitted s t :
  Inv s -> In t (active s) -> is_analysis t = true -> In t analysisTasks.
Proof.
  intros [_ _ Hbar _] Hin Ht.
  destruct (phase s); [| | |destruct Hbar].
  - destruct Hbar as [Hperm _]. rewrite <- Hperm.
    rewrite !in_app_iff. right. left. exact Hin.
  - destruct Hbar as (_ & _ & _ & _ & _ & _ & Hpend).
    rewrite Forall_app, !List.Forall_forall in Hpend.
    destruct Hpend as [Ha _]. rewrite (Ha _ Hin) in Ht. discriminate.
  - destruct Hbar as (_ & _ & _ & _ & _ & _ & Hpend).
    rewrite Forall_app, !List.Forall_forall in Hpend.
    destruct Hpend as [Ha _]. rewrite (Ha _ Hin) in Ht. discriminate.
Qed.

(** C8 (Phase B barrier).  In every state of every run: when a
    comparison task starts, the analysis tasks that have settled before
    it are the submitted analysis tasks, all of them, each once; and a
    comparison task exists only for a page whose screenshot map has at
    least two entries. *)
Theorem comparisons_start_after_all_analyses s :
  rtc step (initial entries) s ->
  (forall pre p post,
     trace s = pre ++ Started (ComparisonTask p) :: post ->
     settled_analyses pre ≡ₚ analysisTasks) /\
  (forall p,
     In (ComparisonTask p) (queue s ++ active s) \/
     In (Started (ComparisonTask p)) (trace s) ->
     exists pageUrl viewportEntries,
       entries !! p = Some (pageUrl, viewportEntries) /\
       (2 <= length viewportEntries)%nat).
Proof.
  intros Hrun. destruct (Inv_reachable s Hrun) as [_ _ Hbar Hcmp]. split.
  - intros pre p post Htr.
    assert (Hlate : forall traceA rest,
              trace s = traceA ++ rest ->
              settled_analyses traceA ≡ₚ analysisTasks ->
              Forall (fun ev => is_analysis (event_task ev) = true) traceA ->
              Forall (fun ev => is_analysis (event_task ev) = false) rest ->
              settled_analyses pre ≡ₚ analysisTasks).
    { intros traceA rest Hsplit Hperm HA HB. rewrite Htr in Hsplit.
      destruct (split_at_event _ _ _ _ _ Hsplit) as (mid & -> & ->).
      { intros Hin. rewrite List.Forall_forall in HA. specialize (HA _ Hin).
        discriminate. }
      rewrite settled_analyses_app, (settled_analyses_comparisons mid), app_nil_r;
        [exact Hperm|].
      rewrite Forall_app in HB. destruct HB as [Hmid _]. exact Hmid. }
    destruct (phase s); [| | |destruct Hbar].
    + destruct Hbar as [_ Hall]. rewrite Htr in Hall.
      rewrite Forall_app in Hall. destruct Hall as [_ Hall].
      inversion Hall. discriminate.
    + destruct Hbar as (traceA & rest & Hsplit & Hperm & HA & HB & _). eauto.
    + destruct Hbar as (traceA & rest & Hsplit & Hperm & HA & HB & _). eauto.
  - intros p Hp. destruct (Hcmp p Hp) as ([u vps] & He & Hlen).
    exists u, vps. split; assumption.
Qed.

(** ** Results *)

(** The keys of a [Map] are unique. *)
Definition unique_viewports : Prop :=
  forall page pageUrl vps,
    entries !! page = Some (pageUrl, vps) -> List.NoDup (List.map fst vps).

Lemma NoDup_keys_agree {K V} (l : list (K * V)) k v1 v2 :
  List.NoDup (List.map fst l) -> In (k, v1) l -> In (k, v2) l -> v1 = v2.
Proof.
  induction l as [|[k' v'] l IH]; cbn; [intros _ []|].
  intros Hnd H1 H2. inversion Hnd as [|? ? Hnot Hnd']; subst.
  destruct H1 as [H1|H1], H2 as [H2|H2].
  - congruence.
  - injection H1 as -> ->. destruct Hnot. apply (in_map fst) in H2. exact H2.
  - injection H2 as -> ->. destruct Hnot. apply (in_map fst) in H1. exact H1.
  - exact (IH Hnd' H1 H2).
Qed.

(** Every analysis task that has settled has left its outcome on its
    page. *)
Definition Rec (s : State) : Prop :=
  forall page vpName entry,
    In (Settled (AnalysisTask page vpName entry)) (trace s) ->
    exists pr, pages s !! page = Some pr /\ recorded vpName entry pr.

Lemma Rec_step s s' :
  unique_viewports -> Inv s -> Rec s -> step s s' -> Rec s'.
Proof.
  intros Huniq Hinv Hrec Hstep.
  destruct Hstep as [s t rest Hfl Hq Hcap
                    |s before t after ps' Hfl Hact Hset
                    |s before t after ps' err Hfl Hact Hset
                    |s Hph Hq Hact
                    |s Hph Hq Hact];
    intros page vpName entry Hin; cbn in *.
  - apply in_app_or in Hin as [Hin|[Hin|[]]]; [|discriminate].
    exact (Hrec _ _ _ Hin).
  - assert (Hps : ps' = fst (settle t (pages s))) by (rewrite Hset; reflexivity).
    subst ps'.
    assert (Hact_in : In t (active s)).
    { rewrite Hact. apply in_or_app. right. left. reflexivity. }
    apply in_app_or in Hin as [Hin|[Hin|[]]].
    + destruct (Hrec _ _ _ Hin) as (pr & Hpr & Hr).
      eexists. split; [apply settle_lookup; exact Hpr|].
      destruct (Nat.eqb_spec page (task_page t)) as [Hsame|_]; [|exact Hr].
      apply task_body_keeps_recorded; [|exact Hr].
      intros page' entry' ->. cbn in Hsame. subst page'.
      pose proof (Inv_settled_submitted _ _ _ _ Hinv Hin) as H1.
      pose proof (Inv_active_submitted _ _ Hinv Hact_in eq_refl) as H2.
      apply analysisTasks_in in H1 as (? & u1 & vps1 & ? & ? & [= <- <- <-] & He1 & Hin1 & _).
      apply analysisTasks_in in H2 as (? & u2 & vps2 & ? & ? & [= <- <- <-] & He2 & Hin2 & _).
      rewrite He1 in He2. injection He2 as <- <-.
      exact (NoDup_keys_agree _ _ _ _ (Huniq _ _ _ He1) Hin2 Hin1).
    + injection Hin as ->.
      pose proof (Inv_active_submitted _ _ Hinv Hact_in eq_refl) as H2.
      apply analysisTasks_in in H2 as (? & u2 & vps2 & ? & ? & [= <- <- <-] & He2 & _).
      destruct Hinv as [Hshape _ _ _].
      assert (Hpage : exists pr, pages s !! page = Some pr).
      { rewrite <- Hshape, list_lookup_fmap in He2.
        destruct (pages s !! page) as [pr|]; [eauto | discriminate]. }
      destruct Hpage as (pr & Hpr).
      eexists. split; [apply settle_lookup; exact Hpr|].
      cbn [task_page]. rewrite Nat.eqb_refl. apply analysis_body_records.
  - pose proof (settle_fulfils t (pages s)) as Hf. rewrite Hset in Hf.
    discriminate.
  - exact (Hrec _ _ _ Hin).
  - exact (Hrec _ _ _ Hin).
Qed.

Lemma Rec_reachable s :
  unique_viewports -> rtc step (initial entries) s -> Inv s /\ Rec s.
Proof.
  intros Huniq Hrun.
  eapply (rtc_ind_r (fun s => Inv s /\ Rec s)); [| | exact Hrun].
  - split; [apply Inv_initial|]. intros page vpName entry Hin.
    unfold initial in Hin. destruct (submit 0 entries). destruct Hin.
  - intros y z _ Hstep [Hinv Hrec]. split.
    + eapply Inv_step; eassumption.
    + eapply Rec_step; eassumption.
Qed.

(** ** Termination *)

(** One move of a scheduler that starts a task whenever the limiter has
    room and otherwise lets the oldest task in flight settle. *)
Definition settle_oldest (s : State) : option State :=
  match active s with
  | t :: after =>
      let '(ps', r) := settle t (pages s) in
      Some {| phase := match r with
                       | inr _ => phase s
                       | inl err => Rejected err
                       end;
              pages := ps'; queue := queue s; active := after;
              trace := trace s ++ [Settled t] |}
  | [] => None
  end.

Definition pass_barrier (s : State) : option State :=
  match phase s with
  | PhaseA =>
      Some {| phase := match comparisons 0 (pages s) with
                       | [] => Finished
                       | _ => PhaseB
                       end;
              pages := pages s; queue := comparisons 0 (pages s);
              active := []; trace := trace s |}
  | PhaseB =>
      Some {| phase := Finished; pages := pages s; queue := [];
              active := []; trace := trace s |}
  | _ => None
  end.

Definition fifo_step (s : State) : option State :=
  if in_flight s then
    match queue s with
    | t :: rest =>
        if (length (active s) <? ANALYSIS_CONCURRENCY)%nat then
          Some {| phase := phase s; pages := pages s; queue := rest;
                  active := active s ++ [t];
                  trace := trace s ++ [Started t] |}
        else settle_oldest s
    | [] =>
        match active s with
        | _ :: _ => settle_oldest s
        | [] => pass_barrier s
        end
    end
  else None.

Fixpoint fifo_run (fuel : nat) (s : State) : State :=
  match fuel with
  | O => s
  | S fuel' =>
      match fifo_step s with
      | Some s' => fifo_run fuel' s'
      | None => s
      end
  end.

Lemma settle_oldest_sound s s' :
  in_flight s = true -> settle_oldest s = Some s' -> step s s'.
Proof.
  unfold settle_oldest. intros Hfl.
  destruct (active s) as [|t after] eqn:Hact; [discriminate|].
  destruct (settle t (pages s)) as [ps' [err|[]]] eqn:Hset; intros [= <-].
  - exact (step_reject s [] t after ps' err Hfl Hact Hset).
  - exact (step_settle s [] t after ps' Hfl Hact Hset).
Qed.

Lemma fifo_step_sound s s' : fifo_step s = Some s' -> step s s'.
Proof.
  unfold fifo_step. destruct (in_flight s) eqn:Hfl; [|discriminate].
  destruct (queue s) as [|t rest] eqn:Hq.
  - destruct (active s) as [|t after] eqn:Hact.
    + unfold pass_barrier. unfold in_flight in Hfl.
      destruct (phase s) eqn:Hph; try discriminate; intros [= <-].
      * exact (step_all_analysed s Hph Hq Hact).
      * exact (step_all_compared s Hph Hq Hact).
    + apply settle_oldest_sound. exact Hfl.
  - destruct (Nat.ltb_spec (length (active s)) ANALYSIS_CONCURRENCY) as [Hcap|_].
    + intros [= <-]. exact (step_start s t rest Hfl Hq Hcap).
    + apply settle_oldest_sound. exact Hfl.
Qed.

Lemma fifo_run_sound fuel s : rtc step s (fifo_run fuel s).
Proof.
  revert s. induction fuel as [|fuel IH]; intros s; cbn; [apply rtc_refl|].
  destruct (fifo_step s) as [s'|] eqn:Hs; [|apply rtc_refl].
  eapply rtc_l; [apply fifo_step_sound; exact Hs | apply IH].
Qed.

(** What is left to do in a state. *)
Definition weight (s : State) : nat :=
  match phase s with
  | PhaseA => 2 * length (queue s) + length (active s)
              + 2 * length (pages s) + 2
  | PhaseB => 2 * length (queue s) + length (active s) + 1
  | _ => 0
  end.

Lemma comparisons_length page ps :
  (length (comparisons page ps) <= length ps)%nat.
Proof.
  revert page. induction ps as [|pr ps IH]; intros page; cbn [comparisons];
    [reflexivity|].
  specialize (IH (S page)).
  destruct (1 <? length (screenshots pr))%nat; cbn [length]; lia.
Qed.

Lemma settle_length t ps : length (fst (settle t ps)) = length ps.
Proof.
  rewrite <- (length_fmap identity), settle_identity, length_fmap.
  reflexivity.
Qed.

(** Every move makes progress: no run goes on for ever. *)
Lemma step_weight s s' : step s s' -> (weight s' < weight s)%nat.
Proof.
  intros Hstep.
  destruct Hstep as [s t rest Hfl Hq Hcap
                    |s before t after ps' Hfl Hact Hset
                    |s before t after ps' err Hfl Hact Hset
                    |s Hph Hq Hact
                    |s Hph Hq Hact];
    unfold weight, in_flight in *; cbn.
  - rewrite Hq. rewrite length_app. cbn.
    destruct (phase s); try discriminate; lia.
  - assert (Hps : ps' = fst (settle t (pages s))) by (rewrite Hset; reflexivity).
    subst ps'. rewrite Hact, settle_length, !length_app. cbn.
    destruct (phase s); try discriminate; lia.
  - rewrite Hact, !length_app. cbn.
    destruct (phase s); try discriminate; lia.
  - rewrite Hph, Hq, Hact. cbn.
    pose proof (comparisons_length 0 (pages s)).
    destruct (comparisons 0 (pages s)); cbn [length] in *; lia.
  - rewrite Hph. lia.
Qed.

Lemma fifo_step_progress s :
  in_flight s = true -> exists s', fifo_step s = Some s'.
Proof.
  intros Hfl. unfold fifo_step. rewrite Hfl.
  destruct (queue s) as [|t rest].
  - destruct (active s) as [|t after] eqn:Hact.
    + unfold pass_barrier. unfold in_flight in Hfl.
      destruct (phase s); try discriminate; eauto.
    + unfold settle_oldest. rewrite Hact.
      destruct (settle t (pages s)). eauto.
  - destruct (Nat.ltb_spec (length (active s)) ANALYSIS_CONCURRENCY) as [|Hfull];
      [eauto|].
    unfold settle_oldest. destruct (active s) as [|t' after].
    + cbn in Hfull. unfold ANALYSIS_CONCURRENCY in Hfull. lia.
    + destruct (settle t' (pages s)). eauto.
Qed.

(** From every state of a run the run can be completed. *)
Lemma run_completes s :
  Inv s -> exists s', rtc step s s' /\ phase s' = Finished.
Proof.
  remember (weight s) as n eqn:Hn. revert s Hn.
  induction n as [n IH] using lt_wf_ind. intros s Hn Hinv.
  destruct (in_flight s) eqn:Hfl.
  - destruct (fifo_step_progress s Hfl) as (s1 & Hs1).
    apply fifo_step_sound in Hs1.
    destruct (IH (weight s1) ltac:(subst n; apply step_weight; exact Hs1)
                 s1 eq_refl (Inv_step _ _ Hinv Hs1)) as (s' & Hrun & Hdone).
    exists s'. split; [eapply rtc_l; eassumption | exact Hdone].
  - unfold in_flight in Hfl. destruct Hinv as [_ _ Hbar _].
    destruct (phase s) eqn:Hph; try discriminate.
    + exists s. split; [apply rtc_refl | exact Hph].
    + destruct Hbar.
Qed.

(** C7 (phase isolation).  In every run, whatever the order in which
    the tasks settle: the run never rejects because of a task; it can
    always be completed; and once Phase A is over, every viewport of
    every page has its outcome on that page: the analysis when the
    provider answered, the failure message in the error list of the page
    when it threw, the missing-file error when the screenshot was not on
    disk. *)
Theorem analysis_failures_are_isolated s :
  unique_viewports ->
  rtc step (initial entries) s ->
  (forall err, phase s <> Rejected err) /\
  (exists s', rtc step s s' /\ phase s' = Finished) /\
  (phase s <> PhaseA ->
   forall page pageUrl vps vpName entry,
     entries !! page = Some (pageUrl, vps) ->
     In (vpName, entry) vps ->
     exists pr,
       pages s !! page = Some pr /\ url pr = pageUrl /\
       if existsSync (Types.filePath entry) then
         match analyzeScreenshot (Types.filePath entry) pageUrl
                 (Types.viewport entry) with
         | inr analysis => analyses pr !! vpName = Some analysis
         | inl err =>
             In {| viewport := vpName; error := error_message err |} (errors pr)
         end
       else In (missing_file vpName entry) (errors pr)).
Proof.
  intros Huniq Hrun.
  destruct (Rec_reachable s Huniq Hrun) as [Hinv Hrec].
  split; [|split].
  - intros err Hph. destruct Hinv as [_ _ Hbar _]. rewrite Hph in Hbar.
    exact Hbar.
  - apply run_completes. exact Hinv.
  - intros Hph page pageUrl vps vpName entry He Hin.
    pose proof Hinv as [Hshape Herr Hbar _].
    assert (Hpage : exists pr, pages s !! page = Some pr /\
                               url pr = pageUrl /\ screenshots pr = vps).
    { rewrite <- Hshape, list_lookup_fmap in He.
      destruct (pages s !! page) as [pr|]; [|discriminate].
      injection He as <- <-. eauto. }
    destruct Hpage as (pr & Hpr & Hu & Hs).
    exists pr. split; [exact Hpr|]. split; [exact Hu|].
    destruct (existsSync (Types.filePath entry)) eqn:Hex.
    + assert (Ht : In (AnalysisTask page vpName entry) analysisTasks).
      { apply analysisTasks_in. exists page, pageUrl, vps, vpName, entry.
        repeat split; assumption. }
      assert (Hsettled : In (Settled (AnalysisTask page vpName entry)) (trace s)).
      { destruct (phase s); [destruct Hph; reflexivity| | |destruct Hbar];
          destruct Hbar as (traceA & rest & -> & Hperm & _);
          apply in_or_app; left; apply settled_in_trace;
          rewrite Hperm; exact Ht. }
      destruct (Hrec _ _ _ Hsettled) as (pr' & Hpr' & Hr).
      rewrite Hpr in Hpr'. injection Hpr' as <-.
      unfold recorded in Hr. rewrite Hu in Hr. exact Hr.
    + destruct (Herr page pr Hpr) as (e & more & He' & Herrs).
      rewrite He in He'. injection He' as <-. cbn in Herrs.
      rewrite Herrs. apply in_or_app. left.
      unfold preflight_errors. apply in_flat_map.
      exists (vpName, entry). split; [exact Hin|]. rewrite Hex. left. reflexivity.
Qed.

(** ** Further properties of a run *)

(** Every analysis task that was started is one of the submitted ones. *)
Definition Started_submitted (s : State) : Prop :=
  forall t, In (Started t) (trace s) -> is_analysis t = true ->
            In t analysisTasks.

Lemma Started_submitted_step s s' :
  Inv s -> Started_submitted s -> step s s' -> Started_submitted s'.
Proof.
  intros Hinv Hst Hstep.
  destruct Hstep as [s t rest Hfl Hq Hcap
                    |s before t after ps' Hfl Hact Hset
                    |s before t after ps' err Hfl Hact Hset
                    |s Hph Hq Hact
                    |s Hph Hq Hact];
    intros t0 Hin Ht0; cbn [trace] in Hin.
  - apply in_app_or in Hin as [Hin|[Hin|[]]]; [exact (Hst t0 Hin Ht0)|].
    injection Hin as ->.
    destruct Hinv as [_ _ Hbar _]. rewrite Hq in Hbar.
    destruct (phase s); [| | |destruct Hbar].
    + destruct Hbar as [Hperm _]. rewrite <- Hperm.
      rewrite !in_app_iff. right. right. left. reflexivity.
    + destruct Hbar as (_ & _ & _ & _ & _ & _ & Hpend).
      rewrite Forall_app, !List.Forall_forall in Hpend.
      destruct Hpend as [_ Hqueue].
      rewrite (Hqueue t0 ltac:(left; reflexivity)) in Ht0. discriminate.
    + destruct Hbar as (_ & _ & _ & _ & _ & _ & Hpend).
      rewrite Forall_app, !List.Forall_forall in Hpend.
      destruct Hpend as [_ Hqueue].
      rewrite (Hqueue t0 ltac:(left; reflexivity)) in Ht0. discriminate.
  - apply in_app_or in Hin as [Hin|[Hin|[]]]; [exact (Hst t0 Hin Ht0)|].
    discriminate.
  - apply in_app_or in Hin as [Hin|[Hin|[]]]; [exact (Hst t0 Hin Ht0)|].
    discriminate.
  - exact (Hst t0 Hin Ht0).
  - exact (Hst t0 Hin Ht0).
Qed.

Lemma initial_idle :
  active (initial entries) = [] /\ trace (initial entries) = [].
Proof. unfold initial. destruct (submit 0 entries). split; reflexivity. Qed.


(** X12 (the pre-flight check).  In every state of every run, an
    analysis that has been started is for a viewport entry of the
    capture result whose screenshot file was on disk when the tasks
    were queued: a missing screenshot is never handed to
    [analyzeScreenshot]. *)
Theorem only_existing_screenshots_are_analysed s page vpName entry :
  rtc step (initial entries) s ->
  In (Started (AnalysisTask page vpName entry)) (trace s) ->
  existsSync (Types.filePath entry) = true /\
  exists pageUrl vps,
    entries !! page = Some (pageUrl, vps) /\ In (vpName, entry) vps.
Proof.
  intros Hrun Hin.
  assert (Hboth : Inv s /\ Started_submitted s).
  { eapply (rtc_ind_r (fun s => Inv s /\ Started_submitted s)); [| | exact Hrun].
    - split; [apply Inv_initial|]. intros t Ht.
      rewrite (proj2 initial_idle) in Ht. destruct Ht.
    - intros y z _ Hstep [Hinv Hst]. split.
      + eapply Inv_step; eassumption.
      + eapply Started_submitted_step; eassumption. }
  destruct Hboth as [_ Hst].
  specialize (Hst _ Hin eq_refl).
  apply analysisTasks_in in Hst
    as (page' & pageUrl & vps & vpName' & entry' & [= <- <- <-] & He & Hvp & Hex).
  split; [exact Hex|]. exists pageUrl, vps. split; assumption.
Qed.

End Runs.

End Run.

(** A run over three pages in which the provider fails on every call
    for the second page. *)
Definition shot (pageUrl vpName : string) (w h : Z) (file : string)
    : string * Types.ScreenshotEntry :=
  (vpName,
   {| Types.url := pageUrl;
      Types.viewport := {| Types.name := vpName; Types.width := w;
                           Types.height := h |};
      Types.filePath := file;
      Types.timestamp := 1700000000000;
      Types.cached := false |}).

Definition demo_entries : list (string * ScreenshotMap) :=
  [ ("https://example.com/"%string,
     [ shot "https://example.com/" "mobile" 375 812 "/s/index/mobile.png";
       shot "https://example.com/" "desktop" 1440 900 "/s/index/desktop.png" ]);
    ("https://example.com/pricing"%string,
     [ shot "https://example.com/pricing" "mobile" 375 812 "/s/pricing/mobile.png";
       shot "https://example.com/pricing" "desktop" 1440 900 "/s/pricing/desktop.png" ]);
    ("https://example.com/about"%string,
     [ shot "https://example.com/about" "mobile" 375 812 "/s/about/mobile.png" ]) ].

Definition demo_exists (file : string) : bool := true.

Definition demo_analyze (file pageUrl : string) (vp : Types.ViewportConfig)
    : Thrown + string :=
  if String.eqb pageUrl "https://example.com/pricing"
  then inl (ErrorObject "529 overloaded")
  else inr ("looks fine: " ++ file)%string.

Definition demo_compare (pageUrl : string) (shots : ScreenshotMap)
    : Thrown + option string :=
  inr (Some "consistent"%string).

Definition demo_final : State (PageAnalysis := string)
                              (CrossViewportAnalysis := string) :=
  fifo_run demo_analyze demo_compare 40
    (initial demo_exists demo_entries).

Lemma demo_unique_viewports : unique_viewports demo_entries.
Proof.
  intros page pageUrl vps H.
  destruct page as [|[|[|page]]]; cbn in H; try discriminate;
    injection H as <- <-; cbn;
    repeat constructor; cbn; intuition discriminate.
Qed.

Lemma analysis_failures_are_isolated_witness :
  (forall err, phase demo_final <> Rejected err) /\
  (exists s', rtc (step demo_analyze demo_compare) demo_final s' /\
              phase s' = Finished) /\
  (phase demo_final <> PhaseA ->
   forall page pageUrl vps vpName entry,
     demo_entries !! page = Some (pageUrl, vps) ->
     In (vpName, entry) vps ->
     exists pr,
       pages demo_final !! page = Some pr /\ url pr = pageUrl /\
       if demo_exists (Types.filePath entry) then
         match demo_analyze (Types.filePath entry) pageUrl
                 (Types.viewport entry) with
         | inr analysis => analyses pr !! vpName = Some analysis
         | inl err =>
             In {| viewport := vpName; error := error_message err |} (errors pr)
         end
       else In (missing_file vpName entry) (errors pr)).
Proof.
  apply (analysis_failures_are_isolated demo_exists demo_analyze demo_compare
           demo_entries demo_final).
  - exact demo_unique_viewports.
  - apply fifo_run_sound.
Defined.

Lemma comparisons_start_after_all_analyses_witness :
  (forall pre p post,
     trace demo_final = pre ++ Started (ComparisonTask p) :: post ->
     settled_analyses pre
     ≡ₚ analysisTasks (PageAnalysis := string) (CrossViewportAnalysis := string)
          demo_exists demo_entries) /\
  (forall p,
     In (ComparisonTask p) (queue demo_final ++ active demo_final) \/
     In (Started (ComparisonTask p)) (trace demo_final) ->
     exists pageUrl viewportEntries,
       demo_entries !! p = Some (pageUrl, viewportEntries) /\
       (2 <= length viewportEntries)%nat).
Proof.
  apply (comparisons_start_after_all_analyses demo_exists demo_analyze
           demo_compare demo_entries demo_final).
  apply fifo_run_sound.
Defined.

(** The demo run, concretely: it finishes, pages 1 and 3 have their
    analyses and no error, page 2 has the two failures in its error list
    and no analysis, and the two comparisons ran after the five
    analyses. *)
Example demo_run_outcome :
  phase demo_final = Finished /\
  List.map (fun pr => (url pr, map_to_list (analyses pr), errors pr,
                       crossViewportAnalysis pr)) (pages demo_final)
  = [ ("https://example.com/"%string,
       [("mobile", "looks fine: /s/index/mobile.png");
        ("desktop", "looks fine: /s/index/desktop.png")]%string,
       [], Some "consistent"%string);
      ("https://example.com/pricing"%string, [],
       [ {| viewport := "mobile"; error := "529 overloaded" |};
         {| viewport := "desktop"; error := "529 overloaded" |} ],
       Some "consistent"%string);
      ("https://example.com/about"%string,
       [("mobile", "looks fine: /s/about/mobile.png")]%string,
       [], None) ] /\
  List.map (fun ev => match ev with
                      | Started t => (true, is_analysis t, task_page t)
                      | Settled t => (false, is_analysis t, task_page t)
                      end) (trace demo_final)
  = [ (true, true, 0); (true, true, 0); (true, true, 1); (true, true, 1);
      (true, true, 2);
      (false, true, 0); (false, true, 0); (false, true, 1); (false, true, 1);
      (false, true, 2);
      (true, false, 0); (true, false, 1);
      (false, false, 0); (false, false, 1) ]%nat.
Proof. vm_compute. repeat split. Qed.



Lemma only_existing_screenshots_are_analysed_witness :
  demo_exists "/s/index/mobile.png" = true /\
  exists pageUrl vps,
    demo_entries !! 0%nat = Some (pageUrl, vps) /\
    In (shot "https://example.com/" "mobile" 375 812 "/s/index/mobile.png") vps.
Proof.
  apply (only_existing_screenshots_are_analysed demo_exists demo_analyze
           demo_compare demo_entries demo_final 0%nat "mobile"
           (snd (shot "https://example.com/" "mobile" 375 812
                   "/s/index/mobile.png"))).
  - apply fifo_run_sound.
  - vm_compute. left. reflexivity.
Defined.

End Orchestrator.

(* ===================================================================== *)
(** * analyze.ts: parsing the provider's answer *)
(* ===================================================================== *)

Module Analyze.

Local Set Warnings "-register-all".

(** What [JSON.parse] can return, and [undefined] for a property that is
    not there.  An object is the list of its properties. *)
Inductive JsValue :=
| JUndefined
| JNull
| JBool (b : bool)
| JNumber (q : Q)
| JString (s : string)
| JArray (items : list JsValue)
| JObject (props : list (string * JsValue)).

(** The zod schemas of [types.ts], as far as they are used. *)
Inductive Schema :=
| ZString
| ZNumberBetween (lo hi : Q)
| ZEnum (options : list string)
| ZNullable (inner : Schema)
| ZOptional (inner : Schema)
| ZArray (element : Schema)
| ZObject (shape : list (string * Schema)).

Definition IssueSeveritySchema : Schema :=
  ZEnum ["critical"; "warning"; "info"]%string.

Definition IssueCategorySchema : Schema :=
  ZEnum ["layout"; "typography"; "color"; "responsiveness"; "polish";
         "accessibility"; "goal-alignment"; "other"]%string.

Definition IssueSchema : Schema :=
  ZObject [ ("severity"%string, IssueSeveritySchema);
            ("category"%string, IssueCategorySchema);
            ("description"%string, ZString);
            ("element"%string, ZNullable ZString) ].

Definition GoalAssessmentSchema : Schema :=
  ZObject [ ("goal"%string, ZString);
            ("alignment"%string, ZEnum ["strong"; "partial"; "weak"]%string);
            ("observation"%string, ZString);
            ("gap"%string, ZNullable ZString);
            ("suggestion"%string, ZNullable ZString) ].

Definition DesignFeedbackSchema : Schema :=
  ZObject [ ("layoutAndHierarchy"%string, ZString);
            ("typography"%string, ZString);
            ("colorAndContrast"%string, ZString);
            ("responsiveness"%string, ZString);
            ("visualPolish"%string, ZString) ].

Definition PageAnalysisSchema : Schema :=
  ZObject [ ("feedback"%string, DesignFeedbackSchema);
            ("issues"%string, ZArray IssueSchema);
            ("goalAssessments"%string, ZArray GoalAssessmentSchema);
            ("overallGoalAlignment"%string,
               ZNullable (ZNumberBetween 0 (100 # 1)));
            ("topRecommendations"%string, ZArray ZString);
            ("rawResponse"%string, ZOptional ZString) ].

(** The own property [key] of an object, [undefined] when there is
    none. *)
Fixpoint own (key : string) (props : list (string * JsValue)) : JsValue :=
  match props with
  | [] => JUndefined
  | (k, v) :: rest => if String.eqb k key then v else own key rest
  end.

Definition is_undefined (v : JsValue) : bool :=
  match v with
  | JUndefined => true
  | _ => false
  end.

(** [schema.safeParse(v)]: the cleaned data on success, [None] on
    failure.  An object schema drops the keys it does not know. *)
Fixpoint safeParse (schema : Schema) (v : JsValue) : option JsValue :=
  match schema with
  | ZString =>
      match v with
      | JString _ => Some v
      | _ => None
      end
  | ZNumberBetween lo hi =>
      match v with
      | JNumber q => if Qle_bool lo q && Qle_bool q hi then Some v else None
      | _ => None
      end
  | ZEnum options =>
      match v with
      | JString s => if List.existsb (String.eqb s) options then Some v else None
      | _ => None
      end
  | ZNullable inner =>
      match v with
      | JNull => Some JNull
      | _ => safeParse inner v
      end
  | ZOptional inner =>
      match v with
      | JUndefined => Some JUndefined
      | _ => safeParse inner v
      end
  | ZArray element =>
      match v with
      | JArray items =>
          option_map JArray
            ((fix each (l : list JsValue) : option (list JsValue) :=
                match l with
                | [] => Some []
                | x :: rest =>
                    match safeParse element x, each rest with
                    | Some x', Some rest' => Some (x' :: rest')
                    | _, _ => None
                    end
                end) items)
      | _ => None
      end
  | ZObject shape =>
      match v with
      | JObject props =>
          option_map JObject
            ((fix each (sh : list (string * Schema))
                : option (list (string * JsValue)) :=
                match sh with
                | [] => Some []
                | (key, inner) :: rest =>
                    match safeParse inner (own key props), each rest with
                    | Some x', Some rest' =>
                        Some (if is_undefined x' then rest'
                              else (key, x') :: rest')
                    | _, _ => None
                    end
                end) shape)
      | _ => None
      end
  end.

(** [\s], and what [trim] removes, among the code units below 256. *)
Definition is_space (c : ascii) : bool :=
  let n := N_of_ascii c in
  ((9 <=? n) && (n <=? 13) || (n =? 32) || (n =? 160))%N.

Fixpoint trimStart (s : string) : string :=
  match s with
  | String c rest => if is_space c then trimStart rest else s
  | EmptyString => EmptyString
  end.

Fixpoint trimEnd (s : string) : string :=
  match s with
  | EmptyString => EmptyString
  | String c rest =>
      match trimEnd rest with
      | EmptyString => if is_space c then EmptyString else String c EmptyString
      | rest' => String c rest'
      end
  end.

(** [String.prototype.trim]. *)
Definition trim (s : string) : string := trimEnd (trimStart s).

Definition fence : string := "```".

Fixpoint drop (n : nat) (s : string) : string :=
  match n, s with
  | S n', String _ rest => drop n' rest
  | _, _ => s
  end.

(** The text before and after the first fence. *)
Fixpoint split_fence (s : string) : option (string * string) :=
  if String.prefix fence s then Some (EmptyString, drop 3 s)
  else match s with
       | EmptyString => None
       | String c rest =>
           match split_fence rest with
           | Some (before, after) => Some (String c before, after)
           | None => None
           end
       end.

(** The capture group of [/```(?:json)?\s*([\s\S]*?)```/]: after the
    first fence, an optional [json] and any white space are skipped, and
    the capture runs to the next fence.  When there is no such fence no
    later start can match either. *)
Definition fenceMatch (s : string) : option string :=
  match split_fence s with
  | None => None
  | Some (_, after) =>
      let after' := if String.prefix "json" after then drop 4 after else after in
      match split_fence (trimStart after') with
      | Some (captured, _) => Some captured
      | None => None
      end
  end.

(** The text handed to [JSON.parse]. *)
Definition extract_json (raw : string) : string :=
  let jsonStr := trim raw in
  match fenceMatch jsonStr with
  | Some captured => trim captured
  | None => jsonStr
  end.

(** [parsed.key]: a [TypeError] ([None]) on [null] and [undefined]. *)
Definition member (parsed : JsValue) (key : string) : option JsValue :=
  match parsed with
  | JNull | JUndefined => None
  | JObject props => Some (own key props)
  | _ => Some JUndefined
  end.

(** [v ?? d]. *)
Definition nullish (v d : JsValue) : JsValue :=
  match v with
  | JNull | JUndefined => d
  | _ => v
  end.

(** [Array.isArray(v) ? v : []]. *)
Definition array_or_empty (v : JsValue) : JsValue :=
  match v with
  | JArray _ => v
  | _ => JArray []
  end.

(** [{ ...obj, key: v }] on the properties of [obj]. *)
Fixpoint with_prop (key : string) (v : JsValue)
    (props : list (string * JsValue)) : list (string * JsValue) :=
  match props with
  | [] => [(key, v)]
  | (k, x) :: rest =>
      if String.eqb k key then (k, v) :: rest
      else (k, x) :: with_prop key v rest
  end.

(** [{ ...data, key: v }]; a value that is not an object has no
    properties to spread. *)
Definition spread_with (data : JsValue) (key : string) (v : JsValue)
    : JsValue :=
  match data with
  | JObject props => JObject (with_prop key v props)
  | _ => JObject [(key, v)]
  end.

Definition empty_feedback (layoutAndHierarchy : string) : JsValue :=
  JObject [ ("layoutAndHierarchy"%string, JString layoutAndHierarchy);
            ("typography"%string, JString EmptyString);
            ("colorAndContrast"%string, JString EmptyString);
            ("responsiveness"%string, JString EmptyString);
            ("visualPolish"%string, JString EmptyString) ].

(** The object of the [catch] block. *)
Definition fallback (raw : string) : JsValue :=
  JObject [ ("feedback"%string, empty_feedback raw);
            ("issues"%string, JArray []);
            ("goalAssessments"%string, JArray []);
            ("overallGoalAlignment"%string, JNull);
            ("topRecommendations"%string, JArray []);
            ("rawResponse"%string, JString raw) ].

Section ParseAnalysisResponse.
(** [JSON.parse]; [None] when it throws. *)
Variable JSON_parse : string -> option JsValue.

(** The [try] block; [None] when it throws. *)
Definition try_parse (raw jsonStr : string) : option JsValue :=
  match JSON_parse jsonStr with
  | None => None
  | Some parsed =>
      match safeParse PageAnalysisSchema parsed with
      | Some data => Some (spread_with data "rawResponse" (JString raw))
      | None =>
          match member parsed "feedback", member parsed "issues",
                member parsed "goalAssessments",
                member parsed "overallGoalAlignment",
                member parsed "topRecommendations" with
          | Some feedback, Some issues, Some goalAssessments,
            Some overallGoalAlignment, Some topRecommendations =>
              Some (JObject
                [ ("feedback"%string,
                     nullish feedback (empty_feedback EmptyString));
                  ("issues"%string, array_or_empty issues);
                  ("goalAssessments"%string, array_or_empty goalAssessments);
                  ("overallGoalAlignment"%string,
                     nullish overallGoalAlignment JNull);
                  ("topRecommendations"%string,
                     array_or_empty topRecommendations);
                  ("rawResponse"%string, JString raw) ])
          | _, _, _, _, _ => None
          end
      end
  end.

Definition parseAnalysisResponse (raw : string) : JsValue :=
  match try_parse raw (extract_json raw) with
  | Some analysis => analysis
  | None => fallback raw
  end.

Lemma own_with_prop key v props : own key (with_prop key v props) = v.
Proof.
  induction props as [|[k x] rest IH]; cbn.
  - rewrite String.eqb_refl. reflexivity.
  - destruct (String.eqb k key) eqn:Hk; cbn; rewrite Hk; [reflexivity | exact IH].
Qed.

(** C10.  [parseAnalysisResponse] returns on every input: the result is
    an object whose [rawResponse] is the input; and when the text left
    after trimming and removing a code fence is not valid JSON, the
    result is the fallback, with the input as [layoutAndHierarchy], the
    other feedback fields empty, no issues, goal assessments or
    recommendations, and a [null] goal alignment. *)
Theorem parseAnalysisResponse_total raw :
  (exists props,
     parseAnalysisResponse raw = JObject props /\
     own "rawResponse" props = JString raw) /\
  (JSON_parse (extract_json raw) = None ->
   parseAnalysisResponse raw
   = JObject
       [ ("feedback"%string,
            JObject [ ("layoutAndHierarchy"%string, JString raw);
                      ("typography"%string, JString EmptyString);
                      ("colorAndContrast"%string, JString EmptyString);
                      ("responsiveness"%string, JString EmptyString);
                      ("visualPolish"%string, JString EmptyString) ]);
         ("issues"%string, JArray []);
         ("goalAssessments"%string, JArray []);
         ("overallGoalAlignment"%string, JNull);
         ("topRecommendations"%string, JArray []);
         ("rawResponse"%string, JString raw) ]).
Proof.
  unfold parseAnalysisResponse, try_parse. split.
  - destruct (JSON_parse (extract_json raw)) as [parsed|];
      [|eexists; split; reflexivity].
    destruct (safeParse PageAnalysisSchema parsed) as [data|].
    + destruct data; cbn [spread_with];
        eexists; (split; [reflexivity|]);
        try reflexivity. apply own_with_prop.
    + destruct (member parsed "feedback"), (member parsed "issues"),
        (member parsed "goalAssessments"),
        (member parsed "overallGoalAlignment"),
        (member parsed "topRecommendations");
        eexists; split; reflexivity.
  - intros ->. reflexivity.
Qed.

(** ** Further properties of the parser *)

Definition is_array (v : JsValue) : bool :=
  match v with
  | JArray _ => true
  | _ => false
  end.

Lemma safeParse_array element v data :
  safeParse (ZArray element) v = Some data -> exists items, data = JArray items.
Proof.
  destruct v; cbn [safeParse]; try discriminate.
  match goal with
  | |- option_map _ ?each = _ -> _ => destruct each as [items'|]
  end; [|discriminate].
  intros [= <-]. eauto.
Qed.

Lemma safeParse_object shape v data :
  safeParse (ZObject shape) v = Some data -> exists props, data = JObject props.
Proof.
  destruct v; cbn [safeParse]; try discriminate.
  match goal with
  | |- option_map _ ?each = _ -> _ => destruct each as [props'|]
  end; [|discriminate].
  intros [= <-]. eauto.
Qed.

Lemma array_or_empty_is_array v : is_array (array_or_empty v) = true.
Proof. destruct v; reflexivity. Qed.

(** The properties an object schema keeps, one key at a time. *)
Fixpoint fields (shape : list (string * Schema))
    (props : list (string * JsValue)) : option (list (string * JsValue)) :=
  match shape with
  | [] => Some []
  | (key, inner) :: rest =>
      match safeParse inner (own key props), fields rest props with
      | Some x', Some rest' =>
          Some (if is_undefined x' then rest' else (key, x') :: rest')
      | _, _ => None
      end
  end.

Lemma safeParse_object_fields shape props :
  safeParse (ZObject shape) (JObject props)
  = option_map JObject (fields shape props).
Proof.
  cbn [safeParse]. f_equal.
  induction shape as [|[key inner] rest IH]; [reflexivity|].
  cbn [fields]. rewrite <- IH. reflexivity.
Qed.

(** The data of an answer that validates: an object with the three
    lists as arrays. *)
Lemma validated_lists parsed data :
  safeParse PageAnalysisSchema parsed = Some data ->
  exists props,
    data = JObject props /\
    is_array (own "issues" props) = true /\
    is_array (own "goalAssessments" props) = true /\
    is_array (own "topRecommendations" props) = true.
Proof.
  destruct parsed as [| | | | | |props]; try discriminate.
  unfold PageAnalysisSchema.
  rewrite safeParse_object_fields. cbn [fields].
  destruct (safeParse DesignFeedbackSchema (own "feedback" props))
    as [feedback|] eqn:Hf; [|discriminate].
  destruct (safeParse (ZArray IssueSchema) (own "issues" props))
    as [issues|] eqn:Hi; [|discriminate].
  destruct (safeParse (ZArray GoalAssessmentSchema) (own "goalAssessments" props))
    as [assessments|] eqn:Hg; [|discriminate].
  destruct (safeParse (ZNullable (ZNumberBetween 0 (100 # 1)))
              (own "overallGoalAlignment" props))
    as [alignment|] eqn:Ha; [|discriminate].
  destruct (safeParse (ZArray ZString) (own "topRecommendations" props))
    as [recommendations|] eqn:Hr; [|discriminate].
  destruct (safeParse (ZOptional ZString) (own "rawResponse" props))
    as [rawResponse|] eqn:Hraw; [|discriminate].
  destruct (safeParse_object _ _ _ Hf) as (fprops & ->).
  destruct (safeParse_array _ _ _ Hi) as (found & ->).
  destruct (safeParse_array _ _ _ Hg) as (gs & ->).
  destruct (safeParse_array _ _ _ Hr) as (rs & ->).
  cbn [is_undefined option_map]. intros [= <-].
  eexists. split; [reflexivity|].
  destruct (is_undefined alignment), (is_undefined rawResponse);
    repeat split.
Qed.

Lemma own_with_other_prop key key' v props :
  key <> key' -> own key (with_prop key' v props) = own key props.
Proof.
  intros Hne. induction props as [|[k x] rest IH]; cbn [with_prop own].
  - destruct (String.eqb_spec key' key); [congruence | reflexivity].
  - destruct (String.eqb_spec k key') as [->|Hk]; cbn [own].
    + destruct (String.eqb_spec key' key); [congruence | reflexivity].
    + rewrite IH. reflexivity.
Qed.

(** X21 (the lists of an analysis).  Whatever the provider answered,
    the result of [parseAnalysisResponse] is an object whose [issues],
    [goalAssessments] and [topRecommendations] are arrays, so that the
    summary and the reports can always iterate over them. *)
Theorem parseAnalysisResponse_lists_are_arrays raw :
  exists props,
    parseAnalysisResponse raw = JObject props /\
    is_array (own "issues" props) = true /\
    is_array (own "goalAssessments" props) = true /\
    is_array (own "topRecommendations" props) = true.
Proof.
  unfold parseAnalysisResponse, try_parse.
  destruct (JSON_parse (extract_json raw)) as [parsed|];
    [|eexists; repeat split].
  destruct (safeParse PageAnalysisSchema parsed) as [data|] eqn:Hdata.
  - destruct (validated_lists _ _ Hdata) as (props & -> & Hi & Hg & Hr).
    cbn [spread_with]. eexists. split; [reflexivity|].
    rewrite !own_with_other_prop by discriminate. auto.
  - destruct (member parsed "feedback"), (member parsed "issues"),
      (member parsed "goalAssessments"),
      (member parsed "overallGoalAlignment"),
      (member parsed "topRecommendations");
      eexists; (split; [reflexivity|]); cbn [own String.eqb Ascii.eqb Bool.eqb];
      rewrite ?array_or_empty_is_array; repeat split.
Qed.

End ParseAnalysisResponse.

(** A stand-in for [JSON.parse] that knows three texts. *)
Definition tiny_parse (text : string) : option JsValue :=
  if String.eqb text "null" then Some JNull
  else if String.eqb text "{}" then Some (JObject [])
  else if String.eqb text "[1]" then Some (JArray [JNumber 1])
  else None.

Lemma parseAnalysisResponse_witness :
  (exists props,
     parseAnalysisResponse tiny_parse "The page looks fine." = JObject props /\
     own "rawResponse" props = JString "The page looks fine.") /\
  (tiny_parse (extract_json "The page looks fine.") = None ->
   parseAnalysisResponse tiny_parse "The page looks fine."
   = JObject
       [ ("feedback"%string,
            JObject [ ("layoutAndHierarchy"%string, JString "The page looks fine.");
                      ("typography"%string, JString EmptyString);
                      ("colorAndContrast"%string, JString EmptyString);
                      ("responsiveness"%string, JString EmptyString);
                      ("visualPolish"%string, JString EmptyString) ]);
         ("issues"%string, JArray []);
         ("goalAssessments"%string, JArray []);
         ("overallGoalAlignment"%string, JNull);
         ("topRecommendations"%string, JArray []);
         ("rawResponse"%string, JString "The page looks fine.") ]).
Proof.
  exact (parseAnalysisResponse_total tiny_parse "The page looks fine.").
Defined.

End Analyze.

(* ===================================================================== *)
(** * types.ts: the analysis results *)
(* ===================================================================== *)

Module Results.

(** [IssueSeverity]: one of the strings ['critical'], ['warning'] and
    ['info']. *)
Inductive IssueSeverity := critical | warning | info.

#[global] Instance IssueSeverity_eq_dec : EqDecision IssueSeverity.
Proof. solve_decision. Defined.

(** An [Issue]; the category is one of the eight strings of
    [IssueCategorySchema]. *)
Record Issue := {
  severity : IssueSeverity;
  category : string;
  description : string;
  element : option string
}.

Record DesignFeedback := {
  layoutAndHierarchy : string;
  typography : string;
  colorAndContrast : string;
  responsiveness : string;
  visualPolish : string
}.

Inductive Alignment := strong | partial | weak.

Record GoalAssessment := {
  goal : string;
  alignment : Alignment;
  observation : string;
  gap : option string;
  suggestion : option string
}.

Record PageAnalysis := {
  feedback : DesignFeedback;
  issues : list Issue;
  goalAssessments : list GoalAssessment;
  overallGoalAlignment : option Q;
  topRecommendations : list string;
  rawResponse : option string
}.

Module Cross.
Record CrossViewportAnalysis := {
  breakpointQuality : string;
  contentParity : string;
  navigationAdaptation : string;
  consistencyAcrossSizes : string;
  goalConsistency : option string;
  issues : list Issue;
  rawResponse : option string
}.
End Cross.

(** A [PageResult]; the two [Map]s are the lists of their entries in
    insertion order. *)
Record PageResult := {
  url : string;
  screenshots : list (string * Types.ScreenshotEntry);
  analyses : list (string * PageAnalysis);
  crossViewportAnalysis : option Cross.CrossViewportAnalysis;
  errors : list Orchestrator.PageError
}.

End Results.

(* ===================================================================== *)
(** * The run driver: summary and exit code *)
(* ===================================================================== *)

Module Summary.
Import Results.

(** [totalIssues]: an object with one counter per severity. *)
Definition Counters : Type := IssueSeverity -> Z.

(** [totalIssues[issue.severity]++]. *)
Definition increment (totalIssues : Counters) (issue : Issue) : Counters :=
  fun s => if decide (s = severity issue) then totalIssues s + 1
           else totalIssues s.

(** [for (const issue of issues) totalIssues[issue.severity]++]. *)
Definition count_issues (totalIssues : Counters) (l : list Issue) : Counters :=
  List.fold_left increment l totalIssues.

(** The three accumulators of the loop over the pages. *)
Record Totals := {
  totalIssues : Counters;
  goalAlignmentSum : Q;
  goalAlignmentCount : Z
}.

Definition visit_analysis (acc : Totals) (analysis : PageAnalysis) : Totals :=
  let counted := count_issues (totalIssues acc) (issues analysis) in
  match overallGoalAlignment analysis with
  | Some score =>
      {| totalIssues := counted;
         goalAlignmentSum := (goalAlignmentSum acc + score)%Q;
         goalAlignmentCount := goalAlignmentCount acc + 1 |}
  | None =>
      {| totalIssues := counted;
         goalAlignmentSum := goalAlignmentSum acc;
         goalAlignmentCount := goalAlignmentCount acc |}
  end.

Definition visit_page (acc : Totals) (page : PageResult) : Totals :=
  let acc' := List.fold_left visit_analysis (List.map snd (analyses page)) acc in
  match crossViewportAnalysis page with
  | Some cva =>
      {| totalIssues := count_issues (totalIssues acc') (Cross.issues cva);
         goalAlignmentSum := goalAlignmentSum acc';
         goalAlignmentCount := goalAlignmentCount acc' |}
  | None => acc'
  end.

(** Step 6 of [run]: the loop over [pages]. *)
Definition totals (pages : list PageResult) : Totals :=
  List.fold_left visit_page pages
    {| totalIssues := fun _ => 0; goalAlignmentSum := 0%Q;
       goalAlignmentCount := 0 |}.

(** [goalAlignmentCount > 0 ? Math.round(goalAlignmentSum / goalAlignmentCount) : null]. *)
Definition averageGoalAlignment (pages : list PageResult) : option Z :=
  let acc := totals pages in
  if 0 <? goalAlignmentCount acc
  then Some (Normalizer.Math_round
               (goalAlignmentSum acc / inject_Z (goalAlignmentCount acc)))
  else None.

(** Step 7 of [run]: the exit code for [config.failOn]. *)
Definition exitCode (failOn : option IssueSeverity) (pages : list PageResult)
    : Z :=
  let t := totalIssues (totals pages) in
  match failOn with
  | None => 0
  | Some threshold =>
      let exitCode0 := 0 in
      let exitCode1 :=
        if bool_decide (threshold = critical) && (0 <? t critical)
        then 1 else exitCode0 in
      let exitCode2 :=
        if bool_decide (threshold = warning)
           && ((0 <? t critical) || (0 <? t warning))
        then 1 else exitCode1 in
      if bool_decide (threshold = info)
         && ((0 <? t critical) || (0 <? t warning) || (0 <? t info))
      then 1 else exitCode2
  end.

(** ** What the summary is measured against *)

(** Every issue of a run: those of the analyses of each page, then
    those of its cross-viewport analysis. *)
Definition page_issues (page : PageResult) : list Issue :=
  List.flat_map (fun '(_, analysis) => issues analysis) (analyses page)
  ++ match crossViewportAnalysis page with
     | Some cva => Cross.issues cva
     | None => []
     end.

Definition all_issues (pages : list PageResult) : list Issue :=
  List.flat_map page_issues pages.

(** The goal alignment scores of a run. *)
Definition scores (analysis : PageAnalysis) : list Q :=
  match overallGoalAlignment analysis with
  | Some score => [score]
  | None => []
  end.

Definition page_scores (page : PageResult) : list Q :=
  List.flat_map (fun '(_, analysis) => scores analysis) (analyses page).

Definition sum (l : list Q) : Q := List.fold_right Qplus 0%Q l.

Definition all_scores (pages : list PageResult) : list Q :=
  List.flat_map page_scores pages.

Definition occurrences (s : IssueSeverity) (l : list Issue) : Z :=
  Z.of_nat (List.length
              (List.filter (fun i => bool_decide (severity i = s)) l)).

(** [critical] outranks [warning], which outranks [info]. *)
Definition rank (s : IssueSeverity) : Z :=
  match s with
  | critical => 2
  | warning => 1
  | info => 0
  end.

Lemma occurrences_nil s : occurrences s [] = 0.
Proof. reflexivity. Qed.


Lemma occurrences_app s l1 l2 :
  occurrences s (l1 ++ l2) = occurrences s l1 + occurrences s l2.
Proof.
  unfold occurrences. rewrite List.filter_app, List.length_app. lia.
Qed.

Lemma occurrences_positive s l :
  0 < occurrences s l <-> exists i, In i l /\ severity i = s.
Proof.
  unfold occurrences. induction l as [|i l IH]; cbn [List.filter].
  - split; [cbn; lia|]. intros (i & [] & _).
  - destruct (bool_decide_reflect (severity i = s)) as [Hs|Hs]; cbn [List.length].
    + split; [|lia]. intros _. exists i. split; [left; reflexivity | exact Hs].
    + rewrite IH. split.
      * intros (j & Hj & Hsj). exists j. split; [right; exact Hj | exact Hsj].
      * intros (j & [<-|Hj] & Hsj); [contradiction|]. exists j. auto.
Qed.

Lemma count_issues_spec t l s :
  count_issues t l s = t s + occurrences s l.
Proof.
  revert t. unfold count_issues, occurrences.
  induction l as [|i l IH]; intros t; cbn [List.fold_left List.filter].
  - cbn. lia.
  - rewrite IH. unfold increment.
    destruct (decide (s = severity i)) as [->|Hne].
    + rewrite bool_decide_eq_true_2 by reflexivity. cbn [List.length]. lia.
    + rewrite bool_decide_eq_false_2 by congruence. lia.
Qed.

Lemma sum_app l1 l2 : (sum (l1 ++ l2) == sum l1 + sum l2)%Q.
Proof.
  unfold sum. induction l1 as [|x l1 IH]; cbn [List.app List.fold_right];
    [ring | rewrite IH; ring].
Qed.

Lemma visit_analysis_spec acc a :
  (forall s, totalIssues (visit_analysis acc a) s
             = totalIssues acc s + occurrences s (issues a)) /\
  (goalAlignmentSum (visit_analysis acc a)
   == goalAlignmentSum acc + sum (scores a))%Q /\
  goalAlignmentCount (visit_analysis acc a)
  = goalAlignmentCount acc + Z.of_nat (List.length (scores a)).
Proof.
  unfold visit_analysis, scores, sum.
  destruct (overallGoalAlignment a);
    cbn [totalIssues goalAlignmentSum goalAlignmentCount List.fold_right List.length].
  - split; [intros s; apply count_issues_spec|]. split; [ring | lia].
  - split; [intros s; apply count_issues_spec|]. split; [ring | lia].
Qed.

(** What the loop over the analyses of a page adds. *)
Lemma visit_analyses_spec (l : list (string * PageAnalysis)) acc :
  let acc' := List.fold_left visit_analysis (List.map snd l) acc in
  (forall s, totalIssues acc' s
             = totalIssues acc s
               + occurrences s
                   (List.flat_map (fun '(_, analysis) => issues analysis) l)) /\
  (goalAlignmentSum acc'
   == goalAlignmentSum acc
      + sum (List.flat_map (fun '(_, analysis) => scores analysis) l))%Q /\
  goalAlignmentCount acc'
  = goalAlignmentCount acc
    + Z.of_nat (List.length
        (List.flat_map (fun '(_, analysis) => scores analysis) l)).
Proof.
  cbv zeta. revert acc.
  induction l as [|[vp a] l IH]; intros acc;
    cbn [List.map List.fold_left List.flat_map snd].
  - split; [intros s; rewrite occurrences_nil; lia|].
    split; [unfold sum; cbn; ring | cbn; lia].
  - destruct (IH (visit_analysis acc a)) as (Ht & Hs & Hc).
    destruct (visit_analysis_spec acc a) as (Ht1 & Hs1 & Hc1).
    split; [|split].
    + intros s. rewrite Ht, Ht1, occurrences_app. lia.
    + rewrite Hs, Hs1, sum_app. ring.
    + rewrite Hc, Hc1, List.length_app. lia.
Qed.

Lemma totals_from acc pages :
  let acc' := List.fold_left visit_page pages acc in
  (forall s, totalIssues acc' s
             = totalIssues acc s + occurrences s (all_issues pages)) /\
  (goalAlignmentSum acc'
   == goalAlignmentSum acc + sum (all_scores pages))%Q /\
  goalAlignmentCount acc'
  = goalAlignmentCount acc + Z.of_nat (List.length (all_scores pages)).
Proof.
  cbv zeta. revert acc.
  induction pages as [|page pages IH]; intros acc;
    cbn [List.fold_left all_issues all_scores List.flat_map].
  - split; [intros s; rewrite occurrences_nil; lia|].
    split; [unfold sum; cbn; ring | cbn; lia].
  - destruct (IH (visit_page acc page)) as (Ht & Hs & Hc).
    destruct (visit_analyses_spec (analyses page) acc) as (Ht1 & Hs1 & Hc1).
    fold (all_issues pages) in *. fold (all_scores pages) in *.
    assert (Hpage :
      (forall s, totalIssues (visit_page acc page) s
                 = totalIssues acc s + occurrences s (page_issues page)) /\
      (goalAlignmentSum (visit_page acc page)
       == goalAlignmentSum acc + sum (page_scores page))%Q /\
      goalAlignmentCount (visit_page acc page)
      = goalAlignmentCount acc + Z.of_nat (List.length (page_scores page))).
    { unfold visit_page, page_issues, page_scores.
      destruct (crossViewportAnalysis page);
        cbn [totalIssues goalAlignmentSum goalAlignmentCount].
      - split; [|split; assumption].
        intros s. rewrite count_issues_spec, Ht1, occurrences_app. lia.
      - split; [|split; assumption].
        intros s. rewrite Ht1, occurrences_app, occurrences_nil. lia. }
    destruct Hpage as (Ht2 & Hs2 & Hc2).
    split; [|split].
    + intros s. rewrite Ht, Ht2, occurrences_app. lia.
    + rewrite Hs, Hs2, sum_app. ring.
    + rewrite Hc, Hc2, List.length_app. lia.
Qed.

Lemma totals_spec pages :
  (forall s, totalIssues (totals pages) s = occurrences s (all_issues pages)) /\
  (goalAlignmentSum (totals pages) == sum (all_scores pages))%Q /\
  goalAlignmentCount (totals pages) = Z.of_nat (List.length (all_scores pages)).
Proof.
  unfold totals.
  destruct (totals_from
              {| totalIssues := fun _ => 0; goalAlignmentSum := 0%Q;
                 goalAlignmentCount := 0 |} pages) as (Ht & Hs & Hc).
  cbn [totalIssues goalAlignmentSum goalAlignmentCount] in *.
  split; [intros s; rewrite Ht; lia|]. split; [rewrite Hs; ring | lia].
Qed.


Lemma exitCode_cases pages :
  let t := totalIssues (totals pages) in
  exitCode None pages = 0 /\
  exitCode (Some critical) pages = (if 0 <? t critical then 1 else 0) /\
  exitCode (Some warning) pages
  = (if (0 <? t critical) || (0 <? t warning) then 1 else 0) /\
  exitCode (Some info) pages
  = (if (0 <? t critical) || (0 <? t warning) || (0 <? t info) then 1 else 0).
Proof. repeat split. Qed.

Lemma counted_issue pages s :
  0 < totalIssues (totals pages) s <->
  exists issue, In issue (all_issues pages) /\ severity issue = s.
Proof.
  rewrite (proj1 (totals_spec pages) s). apply occurrences_positive.
Qed.

(** X14 (the exit code).  [run] never chooses an exit code other than 0
    and 1; it is 1 exactly when [failOn] is set and some issue of the
    run (of an analysis or of a cross-viewport analysis) is at least as
    severe as the threshold. *)
Theorem exitCode_reports_issues_at_threshold failOn pages :
  (exitCode failOn pages = 0 \/ exitCode failOn pages = 1) /\
  (exitCode failOn pages = 1 <->
   exists threshold issue,
     failOn = Some threshold /\ In issue (all_issues pages) /\
     rank threshold <= rank (severity issue)).
Proof.
  destruct (exitCode_cases pages) as (Hnone & Hcrit & Hwarn & Hinfo).
  pose proof (counted_issue pages critical) as Hc.
  pose proof (counted_issue pages warning) as Hw.
  pose proof (counted_issue pages info) as Hi.
  assert (Hfound : forall (s threshold : IssueSeverity),
            rank threshold <= rank s ->
            0 < totalIssues (totals pages) s ->
            exists threshold' issue,
              Some threshold = Some threshold' /\ In issue (all_issues pages) /\
              rank threshold' <= rank (severity issue)).
  { intros s threshold Hr Hpos.
    destruct (proj1 (counted_issue pages s) Hpos) as (issue & Hin & Hs).
    exists threshold, issue. rewrite Hs. auto. }
  destruct failOn as [[| |]|].
  - rewrite Hcrit.
    destruct (Z.ltb_spec 0 (totalIssues (totals pages) critical)) as [Pc|Nc].
    + split; [right; reflexivity|]. split; [intros _|reflexivity].
      apply (Hfound critical critical); [reflexivity | exact Pc].
    + split; [left; reflexivity|]. split; [discriminate|].
      intros (t & issue & [= <-] & Hin & Hr). exfalso.
      assert (0 < totalIssues (totals pages) critical); [|lia].
      apply Hc. exists issue. split; [exact Hin|].
      destruct (severity issue); cbn in Hr; (reflexivity || lia).
  - rewrite Hwarn.
    destruct (Z.ltb_spec 0 (totalIssues (totals pages) critical)) as [Pc|Nc];
      [|destruct (Z.ltb_spec 0 (totalIssues (totals pages) warning)) as [Pw|Nw]];
      cbn [orb].
    + split; [right; reflexivity|]. split; [intros _|reflexivity].
      apply (Hfound critical warning); [cbn; lia | exact Pc].
    + split; [right; reflexivity|]. split; [intros _|reflexivity].
      apply (Hfound warning warning); [reflexivity | exact Pw].
    + split; [left; reflexivity|]. split; [discriminate|].
      intros (t & issue & [= <-] & Hin & Hr). exfalso.
      destruct (severity issue) eqn:Hs; cbn in Hr; try lia.
      * assert (0 < totalIssues (totals pages) critical); [|lia].
        apply Hc. eauto.
      * assert (0 < totalIssues (totals pages) warning); [|lia].
        apply Hw. eauto.
  - rewrite Hinfo.
    destruct (Z.ltb_spec 0 (totalIssues (totals pages) critical)) as [Pc|Nc];
      [|destruct (Z.ltb_spec 0 (totalIssues (totals pages) warning)) as [Pw|Nw];
        [|destruct (Z.ltb_spec 0 (totalIssues (totals pages) info)) as [Pi|Ni]]];
      cbn [orb].
    + split; [right; reflexivity|]. split; [intros _|reflexivity].
      apply (Hfound critical info); [cbn; lia | exact Pc].
    + split; [right; reflexivity|]. split; [intros _|reflexivity].
      apply (Hfound warning info); [cbn; lia | exact Pw].
    + split; [right; reflexivity|]. split; [intros _|reflexivity].
      apply (Hfound info info); [reflexivity | exact Pi].
    + split; [left; reflexivity|]. split; [discriminate|].
      intros (t & issue & [= <-] & Hin & Hr). exfalso.
      destruct (severity issue) eqn:Hs.
      * assert (0 < totalIssues (totals pages) critical); [|lia].
        apply Hc. eauto.
      * assert (0 < totalIssues (totals pages) warning); [|lia].
        apply Hw. eauto.
      * assert (0 < totalIssues (totals pages) info); [|lia].
        apply Hi. eauto.
  - rewrite Hnone. split; [left; reflexivity|]. split; [discriminate|].
    intros (? & ? & ? & _). discriminate.
Qed.



(** Two pages: one with a critical and an info issue and scores 80 and
    75, one with a warning raised by the comparison and no score. *)
Definition quiet_feedback : DesignFeedback :=
  {| layoutAndHierarchy := "clear"; typography := "consistent";
     colorAndContrast := "legible"; responsiveness := "fluid";
     visualPolish := "tidy" |}.

Definition sample_analysis (found : list Issue) (score : option Q)
    : PageAnalysis :=
  {| feedback := quiet_feedback; issues := found; goalAssessments := [];
     overallGoalAlignment := score; topRecommendations := [];
     rawResponse := None |}.

Definition sample_issue (s : IssueSeverity) (what : string) : Issue :=
  {| severity := s; category := "layout"; description := what;
     element := None |}.

Definition sample_pages : list PageResult :=
  [ {| url := "https://example.com/"; screenshots := [];
       analyses :=
         [ ("mobile"%string,
            sample_analysis [sample_issue critical "Overlapping header";
                             sample_issue info "Tight line height"]
              (Some (80 # 1)));
           ("desktop"%string, sample_analysis [] (Some (75 # 1))) ];
       crossViewportAnalysis := None; errors := [] |};
    {| url := "https://example.com/pricing"; screenshots := [];
       analyses := [ ("mobile"%string, sample_analysis [] None) ];
       crossViewportAnalysis :=
         Some {| Cross.breakpointQuality := "abrupt";
                 Cross.contentParity := "complete";
                 Cross.navigationAdaptation := "collapses";
                 Cross.consistencyAcrossSizes := "uneven";
                 Cross.goalConsistency := None;
                 Cross.issues := [sample_issue warning "Table overflows"];
                 Cross.rawResponse := None |};
       errors := [] |} ].

Example sample_summary :
  List.map (totalIssues (totals sample_pages)) [critical; warning; info]
  = [1; 1; 1] /\
  averageGoalAlignment sample_pages = Some 78 /\
  List.map (fun failOn => exitCode failOn sample_pages)
    [None; Some critical; Some warning; Some info]
  = [0; 1; 1; 1].
Proof. vm_compute. repeat split. Qed.

End Summary.

(* ===================================================================== *)
(** * crawler.ts: the URLs of a run *)
(* ===================================================================== *)

Module Crawler.
Import Orchestrator.

(** The fields of [LookerConfig] that [discoverUrls] reads. *)
Record LookerConfig := {
  url : option string;
  sitemap : option string;
  urls : option string;
  maxPages : option Z;
  include : option string;
  exclude : option string;
  pages : option (list string);
  noDiscover : option bool
}.

(** A string in a condition: [undefined] and [''] count as false. *)
Definition truthy (o : option string) : option string :=
  match o with
  | Some s => if String.eqb s EmptyString then None else Some s
  | None => None
  end.

Definition newline : ascii := ascii_of_nat 10.

(** [content.split('\n')]. *)
Fixpoint lines (content : string) : list string :=
  match content with
  | EmptyString => [EmptyString]
  | String c rest =>
      if Ascii.eqb c newline then EmptyString :: lines rest
      else match lines rest with
           | line :: more => String c line :: more
           | [] => [String c EmptyString]
           end
  end.

(** [s.replace(/\/$/, '')]: one trailing slash is dropped. *)
Fixpoint strip_trailing_slash (s : string) : string :=
  match s with
  | EmptyString => EmptyString
  | String c EmptyString =>
      if Ascii.eqb c Path.slash then EmptyString else s
  | String c rest => String c (strip_trailing_slash rest)
  end.

(** One element of [config.pages], resolved against the base URL. *)
Definition resolve_page (base page : string) : string :=
  if String.prefix "http" page then page
  else (base ++ (if String.prefix "/" page then page else "/" ++ page))%string.

(** [urls.slice(0, end)] for an integer [end]. *)
Definition slice_from_start {A} (l : list A) (finish : Z) : list A :=
  if finish <? 0
  then List.firstn (Z.to_nat (Z.max (Z.of_nat (List.length l) + finish) 0)) l
  else List.firstn (Z.to_nat finish) l.

(** [[...new Set(urls)]]: the first occurrence of each URL, in order. *)
Fixpoint unique_after (seen : list string) (l : list string) : list string :=
  match l with
  | [] => []
  | u :: rest =>
      if List.existsb (String.eqb u) seen then unique_after seen rest
      else u :: unique_after (u :: seen) rest
  end.

Definition Set_spread (l : list string) : list string := unique_after [] l.

Section DiscoverUrls.
(** [readFile(path, 'utf-8')], [fetchSitemap] and [discoverLinksFromPage]
    as they settle for a given argument, and [new RegExp(pattern)],
    which throws on a pattern that is not a regular expression and
    otherwise gives the [test] of the expression. *)
Variable readFile : string -> Thrown + string.
Variable fetchSitemap : string -> Thrown + list string.
Variable discoverLinksFromPage : string -> Thrown + list string.
Variable RegExp : string -> Thrown + (string -> bool).

Definition loadUrlFile (filePath : string) : Thrown + list string :=
  match readFile filePath with
  | inl err => inl err
  | inr content =>
      inr (List.filter
             (fun line => (0 <? String.length line)%nat
                          && negb (String.prefix "#" line))
             (List.map Analyze.trim (lines content)))
  end.

(** The first part of [discoverUrls]: where the URLs come from. *)
Definition source (config : LookerConfig) : Thrown + list string :=
  match truthy (sitemap config) with
  | Some sitemapUrl => fetchSitemap sitemapUrl
  | None =>
      match truthy (urls config) with
      | Some filePath => loadUrlFile filePath
      | None =>
          match pages config, truthy (url config) with
          | Some ps, Some u =>
              let base := strip_trailing_slash u in
              inr (List.map (resolve_page base) ps)
          | None, Some u =>
              match noDiscover config with
              | Some true => inr [u]
              | _ => discoverLinksFromPage u
              end
          | _, None => inr []
          end
      end
  end.

(** [if (pattern) { const re = new RegExp(pattern); urls = urls.filter(...) }];
    [wanted] is the outcome of [re.test] that keeps a URL. *)
Definition apply_pattern (pattern : option string) (wanted : bool)
    (l : list string) : Thrown + list string :=
  match truthy pattern with
  | None => inr l
  | Some p =>
      match RegExp p with
      | inl err => inl err
      | inr test => inr (List.filter (fun u => Bool.eqb (test u) wanted) l)
      end
  end.

Definition discoverUrls (config : LookerConfig) : Thrown + list string :=
  match source config with
  | inl err => inl err
  | inr found =>
      if (List.length found =? 0)%nat then
        inl (ErrorObject
               "No URLs to analyze. Provide --url, --sitemap, or --urls.")
      else
        match apply_pattern (include config) true found with
        | inl err => inl err
        | inr included =>
            match apply_pattern (exclude config) false included with
            | inl err => inl err
            | inr kept =>
                let maxPages' :=
                  match maxPages config with Some n => n | None => 10 end in
                let limited :=
                  if maxPages' <? Z.of_nat (List.length kept)
                  then slice_from_start kept maxPages'
                  else kept in
                inr (Set_spread limited)
            end
        end
  end.

(** ** Properties *)

Lemma unique_after_spec seen l :
  List.NoDup (unique_after seen l) /\
  (forall u, In u (unique_after seen l) <-> In u l /\ ~ In u seen) /\
  (List.length (unique_after seen l) <= List.length l)%nat.
Proof.
  revert seen. induction l as [|x l IH]; intros seen; cbn [unique_after].
  - split; [constructor|]. split; [|reflexivity].
    intros u. cbn. tauto.
  - destruct (List.existsb (String.eqb x) seen) eqn:Hseen.
    + apply List.existsb_exists in Hseen as (y & Hy & Hxy).
      apply String.eqb_eq in Hxy. subst y.
      destruct (IH seen) as (Hnd & Hin & Hlen).
      split; [exact Hnd|]. split; [|cbn; lia].
      intros u. rewrite Hin. cbn. split; [tauto|].
      intros [[<-|Hu] Hns]; [contradiction | tauto].
    + assert (Hx : ~ In x seen).
      { intros Hx. apply Bool.not_true_iff_false in Hseen. apply Hseen.
        apply List.existsb_exists. exists x. split; [exact Hx|].
        apply String.eqb_refl. }
      destruct (IH (x :: seen)) as (Hnd & Hin & Hlen).
      split; [|split; [|cbn; lia]].
      * constructor; [|exact Hnd]. rewrite Hin. cbn. tauto.
      * intros u. cbn [In]. rewrite Hin. cbn [In]. split.
        -- intros [<-|[Hu Hns]]; tauto.
        -- intros [Hul Hns].
           destruct (String.eqb_spec x u) as [->|Hne]; [left; reflexivity|].
           right. split; [destruct Hul; [contradiction | assumption]|].
           intros [Hxu|Hs]; contradiction.
Qed.

Lemma firstn_subset {A} (n : nat) (l : list A) x :
  In x (List.firstn n l) -> In x l.
Proof.
  intros Hx. rewrite <- (List.firstn_skipn n l). apply in_or_app. left. exact Hx.
Qed.

Lemma slice_from_start_spec {A} (l : list A) (finish : Z) :
  (forall x, In x (slice_from_start l finish) -> In x l) /\
  (0 <= finish -> Z.of_nat (List.length (slice_from_start l finish)) <= finish).
Proof.
  unfold slice_from_start. destruct (Z.ltb_spec finish 0) as [Hneg|Hpos].
  - split; [|lia]. intros x Hx. eapply firstn_subset; eassumption.
  - split; [intros x Hx; eapply firstn_subset; eassumption|].
    intros _. rewrite List.length_firstn. lia.
Qed.

(** The test a URL passes when a pattern keeps it. *)
Definition passes (pattern : option string) (wanted : bool) (u : string)
    : Prop :=
  forall p test, truthy pattern = Some p -> RegExp p = inr test ->
                 test u = wanted.

Lemma apply_pattern_spec pattern wanted l kept :
  apply_pattern pattern wanted l = inr kept ->
  (forall u, In u kept <-> In u l /\ passes pattern wanted u) /\
  (List.length kept <= List.length l)%nat.
Proof.
  unfold apply_pattern, passes. destruct (truthy pattern) as [p|].
  - destruct (RegExp p) as [err|test] eqn:Hre; [discriminate|].
    intros [= <-]. split; [|apply List.filter_length_le].
    intros u. rewrite List.filter_In. split.
    + intros [Hin Hu]. split; [exact Hin|].
      intros p' test' [= <-] Hre'. rewrite Hre in Hre'. injection Hre' as <-.
      apply Bool.eqb_prop. exact Hu.
    + intros [Hin Hu]. split; [exact Hin|].
      rewrite (Hu p test eq_refl Hre). apply Bool.eqb_reflx.
  - intros [= <-]. split; [|reflexivity].
    intros u. split; [|tauto]. intros Hin. split; [exact Hin|].
    intros p test Hp. discriminate.
Qed.

(** X16 (what [discoverUrls] returns).  When [discoverUrls] returns,
    the list holds no URL twice, every URL in it comes from the source
    the configuration selects (which was not empty), matches the
    [include] pattern and does not match the [exclude] pattern when
    these are set, and for a non-negative [maxPages] (10 when it is not
    set) the list is no longer than [maxPages]. *)
Theorem discoverUrls_result_is_clean config result :
  discoverUrls config = inr result ->
  List.NoDup result /\
  (exists found,
     source config = inr found /\ found <> [] /\
     forall u, In u result ->
       In u found /\ passes (include config) true u /\
       passes (exclude config) false u) /\
  (forall limit,
     limit = match maxPages config with Some n => n | None => 10 end ->
     0 <= limit -> Z.of_nat (List.length result) <= limit).
Proof.
  unfold discoverUrls.
  destruct (source config) as [err|found]; [discriminate|].
  destruct (Nat.eqb_spec (List.length found) 0) as [Hempty|Hfound]; [discriminate|].
  destruct (apply_pattern (include config) true found) as [err|included] eqn:Hinc;
    [discriminate|].
  destruct (apply_pattern (exclude config) false included) as [err|kept] eqn:Hexc;
    [discriminate|].
  intros [= <-].
  destruct (apply_pattern_spec _ _ _ _ Hinc) as [Hin1 Hlen1].
  destruct (apply_pattern_spec _ _ _ _ Hexc) as [Hin2 Hlen2].
  set (limit := match maxPages config with Some n => n | None => 10 end).
  set (limited := if limit <? Z.of_nat (List.length kept)
                  then slice_from_start kept limit else kept).
  destruct (unique_after_spec [] limited) as (Hnd & Hin3 & Hlen3).
  assert (Hsub : forall u, In u limited -> In u kept).
  { unfold limited. destruct (limit <? Z.of_nat (List.length kept)); [|auto].
    apply slice_from_start_spec. }
  split; [exact Hnd|]. split.
  - exists found. split; [reflexivity|]. split.
    { intros ->. apply Hfound. reflexivity. }
    intros u Hu. apply Hin3 in Hu as [Hu _]. apply Hsub, Hin2 in Hu as [Hu Hex].
    apply Hin1 in Hu as [Hu Hi]. auto.
  - intros limit' -> Hpos. fold limit in Hpos |- *.
    unfold Set_spread. fold limited.
    assert (Z.of_nat (List.length limited) <= limit); [|lia].
    unfold limited. destruct (Z.ltb_spec limit (Z.of_nat (List.length kept))).
    + apply slice_from_start_spec. exact Hpos.
    + lia.
Qed.

(** X17 (an empty result).  The check for an empty list comes before
    the filters: when the source is not empty, the patterns that are
    set are regular expressions, and every URL of the source fails the
    [include] pattern or matches the [exclude] pattern, [discoverUrls]
    does not throw but returns the empty list. *)
Theorem discoverUrls_can_return_nothing config found :
  source config = inr found ->
  found <> [] ->
  (forall p, truthy (include config) = Some p -> exists test, RegExp p = inr test) ->
  (forall p, truthy (exclude config) = Some p -> exists test, RegExp p = inr test) ->
  (forall u, In u found ->
     ~ (passes (include config) true u /\ passes (exclude config) false u)) ->
  discoverUrls config = inr [].
Proof.
  intros Hsrc Hne Hinc Hexc Hnone. unfold discoverUrls. rewrite Hsrc.
  destruct (Nat.eqb_spec (List.length found) 0) as [Hempty|_].
  { destruct found; [contradiction | discriminate]. }
  assert (Hdef : forall pattern wanted l,
            (forall p, truthy pattern = Some p -> exists test, RegExp p = inr test) ->
            exists kept, apply_pattern pattern wanted l = inr kept).
  { intros pattern wanted l Hre. unfold apply_pattern.
    destruct (truthy pattern) as [p|]; [|eauto].
    destruct (Hre p eq_refl) as (test & ->). eauto. }
  destruct (Hdef (include config) true found Hinc) as (included & Hi).
  rewrite Hi.
  destruct (Hdef (exclude config) false included Hexc) as (kept & He).
  rewrite He.
  destruct (apply_pattern_spec _ _ _ _ Hi) as [Hin1 _].
  destruct (apply_pattern_spec _ _ _ _ He) as [Hin2 _].
  assert (Hkept : kept = []).
  { destruct kept as [|u kept]; [reflexivity|]. exfalso.
    assert (Hu : In u (u :: kept)) by (left; reflexivity).
    apply Hin2 in Hu as [Hu Hx]. apply Hin1 in Hu as [Hu Hn].
    exact (Hnone u Hu (conj Hn Hx)). }
  subst kept. cbn [List.length].
  destruct (_ <? _); [|reflexivity].
  unfold slice_from_start. destruct (_ <? 0); rewrite List.firstn_nil; reflexivity.
Qed.

End DiscoverUrls.

(** Stand-ins: no file and no network, and patterns that are plain
    texts to look for. *)
Definition no_file (path : string) : Thrown + string :=
  inl (ErrorObject ("ENOENT: no such file or directory, open " ++ path)).

Definition offline (address : string) : Thrown + list string :=
  inl (ErrorObject "fetch failed").

Definition plain_pattern (p : string) : Thrown + (string -> bool) :=
  inr (fun u => match String.index 0 p u with Some _ => true | None => false end).

Definition listed_pages : LookerConfig :=
  {| url := Some "https://example.com/"%string; sitemap := None; urls := None;
     maxPages := Some 3; include := None; exclude := Some "pricing"%string;
     pages := Some ["/"; "/pricing"; "about"; "/"; "/docs"]%string;
     noDiscover := None |}.

Definition nothing_left : LookerConfig :=
  {| url := Some "https://example.com/"%string; sitemap := None; urls := None;
     maxPages := None; include := Some "staging"%string; exclude := None;
     pages := Some ["/"; "/pricing"]%string; noDiscover := None |}.

Lemma discoverUrls_result_is_clean_witness :
  List.NoDup ["https://example.com/"; "https://example.com/about"]%string /\
  (exists found,
     source no_file offline offline listed_pages = inr found /\ found <> [] /\
     forall u, In u ["https://example.com/"; "https://example.com/about"]%string ->
       In u found /\ passes plain_pattern (include listed_pages) true u /\
       passes plain_pattern (exclude listed_pages) false u) /\
  (forall limit,
     limit = match maxPages listed_pages with Some n => n | None => 10 end ->
     0 <= limit ->
     Z.of_nat (List.length ["https://example.com/"; "https://example.com/about"]%string)
     <= limit).
Proof.
  apply (discoverUrls_result_is_clean no_file offline offline plain_pattern
           listed_pages).
  vm_compute. reflexivity.
Defined.

Lemma discoverUrls_can_return_nothing_witness :
  discoverUrls no_file offline offline plain_pattern nothing_left = inr [].
Proof.
  apply (discoverUrls_can_return_nothing no_file offline offline plain_pattern
           nothing_left ["https://example.com/"; "https://example.com/pricing"]%string).
  - vm_compute. reflexivity.
  - discriminate.
  - intros p Hp. eexists. reflexivity.
  - intros p Hp. eexists. reflexivity.
  - intros u Hu [Hinc _].
    specialize (Hinc "staging"%string _ eq_refl eq_refl).
    destruct Hu as [<-|[<-|[]]]; vm_compute in Hinc; discriminate.
Defined.

End Crawler.

(* ===================================================================== *)
(** * goals.ts: the goals file *)
(* ===================================================================== *)

Module Goals.
Import Analyze.

(** A [VisualGoal]: a scope, ['site-wide'] or a page path, and its
    goals. *)
Record VisualGoal := { scope : string; goals : list string }.

(** ** The regular expressions, on code units below 256 *)

(** [.] matches every character but a line terminator. *)
Definition is_line_terminator (c : ascii) : bool :=
  let n := N_of_ascii c in ((n =? 10) || (n =? 13))%N.

Fixpoint all_dots (s : string) : bool :=
  match s with
  | EmptyString => true
  | String c rest => negb (is_line_terminator c) && all_dots rest
  end.

Fixpoint last_character (s : string) : option ascii :=
  match s with
  | EmptyString => None
  | String c EmptyString => Some c
  | String _ rest => last_character rest
  end.

(** [\s+(.+)$] matched at the start of [rest], and its capture.  The
    greedy [\s+] takes all the white space there is; only when nothing
    follows does it give its last character back to [(.+)]. *)
Definition spaces_then_text (rest : string) : option string :=
  let after := trimStart rest in
  let skipped := (String.length rest - String.length after)%nat in
  if (skipped =? 0)%nat then None
  else match after with
       | EmptyString =>
           match last_character rest with
           | Some c =>
               if (2 <=? skipped)%nat && negb (is_line_terminator c)
               then Some (String c EmptyString) else None
           | None => None
           end
       | _ => if all_dots after then Some after else None
       end.

(** [trimmed.match(/^##\s+(.+)$/)], the capture. *)
Definition headingMatch (trimmed : string) : option string :=
  match trimmed with
  | String "#" (String "#" rest) => spaces_then_text rest
  | _ => None
  end.

(** [trimmed.match(/^[-*]\s+(.+)$/)], the capture. *)
Definition bulletMatch (trimmed : string) : option string :=
  match trimmed with
  | String c rest =>
      if Ascii.eqb c "-" || Ascii.eqb c "*" then spaces_then_text rest
      else None
  | EmptyString => None
  end.

(** The [i] flag on ASCII letters. *)
Definition fold_case (c : ascii) : ascii :=
  let n := N_of_ascii c in
  if ((65 <=? n) && (n <=? 90))%N then ascii_of_N (n + 32) else c.

(** What follows [word] at the start of [s], when [s] starts with
    [word] up to the case of letters ([word] is in lower case). *)
Fixpoint after_word (word s : string) : option string :=
  match word, s with
  | EmptyString, _ => Some s
  | String w word', String c s' =>
      if Ascii.eqb w (fold_case c) then after_word word' s' else None
  | String _ _, EmptyString => None
  end.

(** [/site[- ]wide\s+goals?/i] matched at the start of [s]. *)
Definition site_wide_here (s : string) : bool :=
  match after_word "site" s with
  | Some (String c rest) =>
      if Ascii.eqb c "-" || Ascii.eqb c " " then
        match after_word "wide" rest with
        | Some rest' =>
            let rest'' := trimStart rest' in
            (String.length rest'' <? String.length rest')%nat
            && match after_word "goal" rest'' with
               | Some _ => true
               | None => false
               end
        | None => false
        end
      else false
  | _ => false
  end.

(** [/site[- ]wide\s+goals?/i.test(heading)]. *)
Fixpoint site_wide_test (heading : string) : bool :=
  site_wide_here heading
  || match heading with
     | String _ rest => site_wide_test rest
     | EmptyString => false
     end.

(** The capture of the page pattern at the start of [s]: a slash and
    whatever follows, up to the end of the text. *)
Definition slash_to_end (s : string) : option string :=
  match s with
  | String c rest =>
      if Ascii.eqb c Path.slash && all_dots rest then Some s else None
  | EmptyString => None
  end.

(** The capture of the page pattern on a heading: an optional [Page:]
    (in any case) and white space, then the path, from its slash to the
    end of the heading. *)
Definition pageMatch (heading : string) : option string :=
  match after_word "page:" heading with
  | Some rest =>
      match slash_to_end (trimStart rest) with
      | Some path => Some path
      | None => slash_to_end heading
      end
  | None => slash_to_end heading
  end.

(** ** [parseGoalsMarkdown] *)

Definition scope_of (heading : string) : string :=
  if site_wide_test heading then "site-wide"%string
  else match pageMatch heading with
       | Some path => trim path
       | None => "site-wide"%string
       end.

(** The three variables of the loop over the lines. *)
Record Parser := {
  sections : list VisualGoal;
  currentScope : option string;
  currentGoals : list string
}.

(** [if (currentScope !== null && currentGoals.length > 0) goals.push(...)]. *)
Definition save (p : Parser) : list VisualGoal :=
  match currentScope p with
  | Some sc =>
      if (0 <? List.length (currentGoals p))%nat
      then sections p ++ [{| scope := sc; goals := currentGoals p |}]
      else sections p
  | None => sections p
  end.

Definition read_line (p : Parser) (line : string) : Parser :=
  let trimmed := trim line in
  match headingMatch trimmed with
  | Some captured =>
      let heading := trim captured in
      {| sections := save p;
         currentScope := Some (scope_of heading);
         currentGoals := [] |}
  | None =>
      match bulletMatch trimmed, currentScope p with
      | Some captured, Some _ =>
          {| sections := sections p;
             currentScope := currentScope p;
             currentGoals := currentGoals p ++ [trim captured] |}
      | _, _ => p
      end
  end.

Definition parseGoalsMarkdown (content : string) : list VisualGoal :=
  save (List.fold_left read_line (Crawler.lines content)
          {| sections := []; currentScope := None; currentGoals := [] |}).

(** ** [getGoalsForPage] *)

(** [s.replace(/\/$/, '') || '/']. *)
Definition page_path (s : string) : string :=
  match Crawler.strip_trailing_slash s with
  | EmptyString => "/"%string
  | stripped => stripped
  end.

Section GetGoalsForPage.
(** [new URL(pageUrl).pathname]; [None] when the constructor throws. *)
Variable URL_pathname : string -> option string.

Definition applies (pagePath : string) (goalSet : VisualGoal) : bool :=
  if String.eqb (scope goalSet) "site-wide" then true
  else String.eqb pagePath (page_path (scope goalSet)).

(** [None] when [new URL] throws. *)
Definition getGoalsForPage (pageUrl : string) (allGoals : list VisualGoal)
    : option (list string) :=
  match URL_pathname pageUrl with
  | None => None
  | Some pathname =>
      let pagePath := page_path pathname in
      Some (List.fold_left
              (fun merged goalSet =>
                 if String.eqb (scope goalSet) "site-wide"
                 then merged ++ goals goalSet
                 else
                   let goalPath := page_path (scope goalSet) in
                   if String.eqb pagePath goalPath
                   then merged ++ goals goalSet
                   else merged)
              allGoals [])
  end.

End GetGoalsForPage.

(** ** Properties *)

Definition path_like (sc : string) : Prop :=
  exists rest, sc = String Path.slash rest.

Definition well_formed (goalSet : VisualGoal) : Prop :=
  goals goalSet <> [] /\
  (scope goalSet = "site-wide"%string \/ path_like (scope goalSet)).

Lemma trim_keeps_first c rest :
  is_space c = false -> exists rest', trim (String c rest) = String c rest'.
Proof.
  intros Hc. unfold trim. cbn [trimStart]. rewrite Hc. cbn [trimEnd].
  destruct (trimEnd rest); [rewrite Hc|]; eauto.
Qed.

Lemma scope_of_shape heading :
  scope_of heading = "site-wide"%string \/ path_like (scope_of heading).
Proof.
  unfold scope_of. destruct (site_wide_test heading); [left; reflexivity|].
  destruct (pageMatch heading) as [path|] eqn:Hpage; [|left; reflexivity].
  right.
  assert (Hslash : forall s, slash_to_end s = Some path ->
            exists rest, path = String Path.slash rest).
  { intros s. unfold slash_to_end. destruct s as [|c rest]; [discriminate|].
    destruct (Ascii.eqb_spec c Path.slash) as [->|]; [|discriminate].
    destruct (all_dots rest); [|discriminate]. intros [= <-]. eauto. }
  assert (Hpath : exists rest, path = String Path.slash rest).
  { unfold pageMatch in Hpage.
    destruct (after_word "page:" heading) as [rest|]; [|eauto].
    destruct (slash_to_end (trimStart rest)) eqn:Hs; [|eauto].
    injection Hpage as ->. eauto. }
  destruct Hpath as (rest & ->).
  destruct (trim_keeps_first Path.slash rest eq_refl) as (rest' & ->).
  exists rest'. reflexivity.
Qed.

(** What holds of the parser after any number of lines. *)
Definition parser_ok (p : Parser) : Prop :=
  Forall well_formed (sections p) /\
  match currentScope p with
  | Some sc => sc = "site-wide"%string \/ path_like sc
  | None => sections p = [] /\ currentGoals p = []
  end.

Lemma save_ok p : parser_ok p -> Forall well_formed (save p).
Proof.
  intros [Hs Hc]. unfold save.
  destruct (currentScope p) as [sc|]; [|exact Hs].
  destruct (currentGoals p) as [|g gs] eqn:Hg; [exact Hs|].
  cbn [List.length Nat.ltb Nat.leb].
  apply Forall_app. split; [exact Hs|].
  constructor; [|constructor]. split; [discriminate | exact Hc].
Qed.

Lemma read_line_ok p line : parser_ok p -> parser_ok (read_line p line).
Proof.
  intros Hp. unfold read_line.
  destruct (headingMatch (trim line)) as [captured|].
  - split; [apply save_ok; exact Hp | apply scope_of_shape].
  - destruct (bulletMatch (trim line)) as [captured|]; [|exact Hp].
    destruct (currentScope p) as [sc|] eqn:Hsc; [|exact Hp].
    destruct Hp as [Hs Hc]. rewrite Hsc in Hc.
    split; [exact Hs | exact Hc].
Qed.

(** X18 (sections of a goals file).  Every section that
    [parseGoalsMarkdown] returns has at least one goal, and its scope
    is either ['site-wide'] or a text that starts with [/]: a heading
    without bullets gives no section, and a heading that names no path
    is read as site-wide. *)
Theorem parseGoalsMarkdown_sections_are_well_formed content goalSet :
  In goalSet (parseGoalsMarkdown content) ->
  goals goalSet <> [] /\
  (scope goalSet = "site-wide"%string \/
   exists rest, scope goalSet = ("/" ++ rest)%string).
Proof.
  intros Hin. unfold parseGoalsMarkdown in Hin.
  assert (Hok : forall ls p, parser_ok p ->
                  parser_ok (List.fold_left read_line ls p)).
  { induction ls as [|l ls IH]; intros p Hp; cbn [List.fold_left];
      [exact Hp | apply IH, read_line_ok, Hp]. }
  pose proof (save_ok _ (Hok (Crawler.lines content)
                {| sections := []; currentScope := None; currentGoals := [] |}
                (conj (List.Forall_nil _) (conj eq_refl eq_refl)))) as Hall.
  rewrite List.Forall_forall in Hall. exact (Hall goalSet Hin).
Qed.

(** X19 (bullets need a heading).  A goals file in which no line is a
    [##] heading yields no goals at all, whatever bullets it holds. *)
Theorem parseGoalsMarkdown_needs_a_heading content :
  (forall line, In line (Crawler.lines content) ->
                headingMatch (trim line) = None) ->
  parseGoalsMarkdown content = [].
Proof.
  intros Hnone. unfold parseGoalsMarkdown.
  assert (Hidle : forall ls p,
            (forall line, In line ls -> headingMatch (trim line) = None) ->
            currentScope p = None ->
            List.fold_left read_line ls p = p).
  { induction ls as [|l ls IH]; intros p Hls Hp; cbn [List.fold_left];
      [reflexivity|].
    assert (Hstep : read_line p l = p).
    { unfold read_line. rewrite (Hls l (or_introl eq_refl)), Hp.
      destruct (bulletMatch (trim l)); reflexivity. }
    rewrite Hstep. apply IH; [|exact Hp].
    intros line Hline. apply Hls. right. exact Hline. }
  rewrite Hidle; [reflexivity | exact Hnone | reflexivity].
Qed.

(** X20 (the goals of a page).  For a page URL that [new URL] accepts,
    a goal is among the goals of the page exactly when it belongs to a
    goal set that is site-wide or whose scope names the path of the
    page, one trailing slash on either side not counting (and the empty
    path standing for [/]). *)
Theorem getGoalsForPage_selects_by_scope
    (URL_pathname : string -> option string) pageUrl pathname allGoals merged
    goal :
  URL_pathname pageUrl = Some pathname ->
  getGoalsForPage URL_pathname pageUrl allGoals = Some merged ->
  In goal merged <->
  exists goalSet,
    In goalSet allGoals /\ In goal (goals goalSet) /\
    (scope goalSet = "site-wide"%string \/
     page_path (scope goalSet) = page_path pathname).
Proof.
  intros Hurl. unfold getGoalsForPage. rewrite Hurl. intros [= <-].
  set (visit := fun (merged : list string) (goalSet : VisualGoal) => _).
  assert (Hfold : forall gss acc,
            In goal (List.fold_left visit gss acc) <->
            In goal acc \/
            exists goalSet,
              In goalSet gss /\ In goal (goals goalSet) /\
              (scope goalSet = "site-wide"%string \/
               page_path (scope goalSet) = page_path pathname)).
  { induction gss as [|gs gss IH]; intros acc; cbn [List.fold_left].
    - split; [auto|]. intros [H|(? & [] & _)]. exact H.
    - rewrite IH. unfold visit.
      destruct (String.eqb_spec (scope gs) "site-wide") as [Hsw|Hsw].
      + rewrite in_app_iff. split.
        * intros [[H|H]|(x & Hx & Hg & Hs)]; [auto| |].
          -- right. exists gs. split; [left; reflexivity|]. auto.
          -- right. exists x. split; [right; exact Hx|]. auto.
        * intros [H|(x & [<-|Hx] & Hg & Hs)]; [auto|auto|].
          right. exists x. auto.
      + destruct (String.eqb_spec (page_path pathname) (page_path (scope gs)))
          as [Hp|Hp].
        * rewrite in_app_iff. split.
          -- intros [[H|H]|(x & Hx & Hg & Hs)]; [auto| |].
             ++ right. exists gs. split; [left; reflexivity|]. auto.
             ++ right. exists x. split; [right; exact Hx|]. auto.
          -- intros [H|(x & [<-|Hx] & Hg & Hs)]; [auto|auto|].
             right. exists x. auto.
        * split.
          -- intros [H|(x & Hx & Hg & Hs)]; [auto|].
             right. exists x. split; [right; exact Hx|]. auto.
          -- intros [H|(x & [<-|Hx] & Hg & Hs)]; [auto| |].
             ++ destruct Hs as [Hs|Hs]; [contradiction|].
                symmetry in Hs. contradiction.
             ++ right. exists x. auto. }
  rewrite Hfold. cbn [In]. tauto.
Qed.

(** A goals file in the layout of [goals.example.md]. *)
Definition sample_file : string :=
  String.concat (String Crawler.newline EmptyString)
    [ "# Visual Goals"; "";
      "- Stray bullet"; "";
      "## Site-Wide Goals"; "";
      "- **Primary action** should be obvious";
      "* One accent colour only"; "";
      "## Design Decisions (Visual Language)"; "";
      "- Cards use a light border"; "";
      "## Empty Section"; "";
      "## Page: / (Home)"; "";
      "- Hero states what the company does"; "";
      "##   page:/pricing/";
      "  -   Plans are comparable at a glance  " ]%string.

(** What the parser makes of it: the stray bullet and the empty section
    are gone, the heading without a path is site-wide, and the text
    after a path stays in the scope. *)
Example sample_file_parsed :
  parseGoalsMarkdown sample_file
  = [ {| scope := "site-wide";
         goals := ["**Primary action** should be obvious";
                   "One accent colour only"] |};
      {| scope := "site-wide"; goals := ["Cards use a light border"] |};
      {| scope := "/ (Home)";
         goals := ["Hero states what the company does"] |};
      {| scope := "/pricing/";
         goals := ["Plans are comparable at a glance"] |} ]%string.
Proof. vm_compute. reflexivity. Qed.

(** A stand-in for [new URL(...).pathname] that knows one origin. *)
Definition example_pathname (pageUrl : string) : option string :=
  if String.prefix "https://example.com" pageUrl
  then match drop 19 pageUrl with
       | EmptyString => Some "/"%string
       | path => Some path
       end
  else None.

Example sample_file_goals :
  getGoalsForPage example_pathname "https://example.com/pricing"
    (parseGoalsMarkdown sample_file)
  = Some ["**Primary action** should be obvious"; "One accent colour only";
          "Cards use a light border";
          "Plans are comparable at a glance"]%string /\
  getGoalsForPage example_pathname "https://example.com/"
    (parseGoalsMarkdown sample_file)
  = Some ["**Primary action** should be obvious"; "One accent colour only";
          "Cards use a light border"]%string.
Proof. vm_compute. split; reflexivity. Qed.

Lemma parseGoalsMarkdown_sections_are_well_formed_witness :
  goals {| scope := "/pricing/";
           goals := ["Plans are comparable at a glance"%string] |} <> [] /\
  (scope {| scope := "/pricing/";
            goals := ["Plans are comparable at a glance"%string] |}
   = "site-wide"%string \/
   exists rest,
     scope {| scope := "/pricing/";
              goals := ["Plans are comparable at a glance"%string] |}
     = ("/" ++ rest)%string).
Proof.
  apply (parseGoalsMarkdown_sections_are_well_formed sample_file
           {| scope := "/pricing/";
              goals := ["Plans are comparable at a glance"%string] |}).
  vm_compute. right. right. right. left. reflexivity.
Defined.

Lemma parseGoalsMarkdown_needs_a_heading_witness :
  parseGoalsMarkdown
    (String.concat (String Crawler.newline EmptyString)
       ["# Goals"; "- Be bold"; "### Not a section"; "- Be brief"]%string)
  = [].
Proof.
  apply (parseGoalsMarkdown_needs_a_heading
           (String.concat (String Crawler.newline EmptyString)
              ["# Goals"; "- Be bold"; "### Not a section"; "- Be brief"]%string)).
  intros line Hline. vm_compute in Hline.
  destruct Hline as [<-|[<-|[<-|[<-|[]]]]]; reflexivity.
Defined.

Lemma getGoalsForPage_selects_by_scope_witness :
  In "Plans are comparable at a glance"%string
    ["**Primary action** should be obvious"; "One accent colour only";
     "Cards use a light border";
     "Plans are comparable at a glance"]%string <->
  exists goalSet,
    In goalSet (parseGoalsMarkdown sample_file) /\
    In "Plans are comparable at a glance"%string (goals goalSet) /\
    (scope goalSet = "site-wide"%string \/
     page_path (scope goalSet) = page_path "/pricing").
Proof.
  apply (getGoalsForPage_selects_by_scope example_pathname
           "https://example.com/pricing" "/pricing"
           (parseGoalsMarkdown sample_file)).
  - reflexivity.
  - vm_compute. reflexivity.
Defined.

End Goals.

(* ===================================================================== *)
(** * analyze.ts: asking the provider *)
(* ===================================================================== *)

Module Vision.
Import Orchestrator Analyze.

Inductive ModelProvider := claude | openai.

(** [AnalysisConfig] and the fields of [LookerConfig] that the analysis
    reads. *)
Record AnalysisConfig := {
  model : option string;
  provider : option ModelProvider;
  apiKey : option string;
  apiUrl : option string;
  prompt : option string
}.

Record LookerConfig := {
  analysis : option AnalysisConfig;
  focus : option string
}.

(** [process.env], as far as it is read. *)
Record Env := {
  ANTHROPIC_API_KEY : option string;
  OPENAI_API_KEY : option string
}.

Definition DEFAULT_MODEL : string := "claude-sonnet-4-20250514".

(** A block of [response.content] of the Anthropic API. *)
Inductive ContentBlock :=
| TextBlock (text : string)
| OtherBlock (type : string).

(** An element of [response.choices] of the OpenAI API. *)
Record Message := { content : option string }.
Record Choice := { message : option Message }.

(** [config.analysis?.field]. *)
Definition analysis_field {A} (field : AnalysisConfig -> option A)
    (config : LookerConfig) : option A :=
  match analysis config with
  | Some a => field a
  | None => None
  end.

(** [a ?? b]. *)
Definition or_else {A} (a : option A) (b : option A) : option A :=
  match a with
  | Some _ => a
  | None => b
  end.

(** [!apiKey]. *)
Definition missing (key : option string) : bool :=
  match key with
  | Some k => String.eqb k EmptyString
  | None => true
  end.

(** [response.content.find((b) => b.type === 'text')?.text ?? '']. *)
Fixpoint first_text (blocks : list ContentBlock) : string :=
  match blocks with
  | [] => EmptyString
  | TextBlock text :: _ => text
  | OtherBlock _ :: rest => first_text rest
  end.

(** [response.choices[0]?.message?.content ?? '']. *)
Definition first_choice (choices : list Choice) : string :=
  match choices with
  | {| message := Some {| content := Some text |} |} :: _ => text
  | _ => EmptyString
  end.

Section AnalyzeScreenshot.
(** [W] is the state of the world outside the process: the providers
    and the source of [Math.random]. *)
Context {W : Type}.
Variable Math_random : W -> Q * W.
Variable env : Env.

(** [readFile(path)], [readFile(path, 'utf-8')] and
    [buffer.toString('base64')]. *)
Variable readFile : string -> Thrown + Fs.Buffer.
Variable readText : string -> Thrown + string.
Variable toBase64 : Fs.Buffer -> string.

(** [buildPrompt(url, viewport, goals, customPromptText, focus)] for
    the goals of the page. *)
Variable buildPrompt :
  string -> Types.ViewportConfig -> list string -> option string ->
  option string -> string.

(** [client.messages.create] with the key, the model, the image and
    the prompt, and [client.chat.completions.create] with the key, the
    base URL, the model, the image and the prompt. *)
Variable messages_create :
  string -> string -> string -> string -> W -> (Thrown + list ContentBlock) * W.
Variable chat_completions_create :
  string -> option string -> string -> string -> string -> W ->
  (Thrown + list Choice) * W.

Variable JSON_parse : string -> option JsValue.

Definition analyzeWithClaude (screenshotBase64 prompt' : string)
    (config : LookerConfig) (w : W) : (Thrown + string) * W :=
  let key := or_else (analysis_field apiKey config) (ANTHROPIC_API_KEY env) in
  match key with
  | Some k =>
      if String.eqb k EmptyString then
        (inl (ErrorObject
                "ANTHROPIC_API_KEY not set. Provide via --api-key or environment variable."),
         w)
      else
        let model' :=
          match analysis_field model config with
          | Some m => m
          | None => DEFAULT_MODEL
          end in
        match messages_create k model' screenshotBase64 prompt' w with
        | (inr blocks, w') => (inr (first_text blocks), w')
        | (inl err, w') => (inl err, w')
        end
  | None =>
      (inl (ErrorObject
              "ANTHROPIC_API_KEY not set. Provide via --api-key or environment variable."),
       w)
  end.

Definition analyzeWithOpenAI (screenshotBase64 prompt' : string)
    (config : LookerConfig) (w : W) : (Thrown + string) * W :=
  let key := or_else (analysis_field apiKey config) (OPENAI_API_KEY env) in
  match key with
  | Some k =>
      if String.eqb k EmptyString then
        (inl (ErrorObject
                "OPENAI_API_KEY not set. Provide via --api-key or environment variable."),
         w)
      else
        let model' :=
          match analysis_field model config with
          | Some m => m
          | None => "gpt-4o"%string
          end in
        match chat_completions_create k (analysis_field apiUrl config) model'
                screenshotBase64 prompt' w with
        | (inr choices, w') => (inr (first_choice choices), w')
        | (inl err, w') => (inl err, w')
        end
  | None =>
      (inl (ErrorObject
              "OPENAI_API_KEY not set. Provide via --api-key or environment variable."),
       w)
  end.

(** The options of the retry: three attempts and an observer that only
    writes to the debug log. *)
Definition api_retry : Retry.RetryOptions W Thrown :=
  {| Retry.attempts := Some 3; Retry.baseDelayMs := None;
     Retry.maxDelayMs := None;
     Retry.onRetry := Some (fun _ _ w => (None, w)) |}.

(** [analyzeScreenshot]: how it settles, the world after it, and what
    the retry loop did. *)
Definition analyzeScreenshot (screenshotPath url : string)
    (viewport : Types.ViewportConfig) (goals : list string)
    (config : LookerConfig) (w : W)
    : Retry.Outcome Thrown JsValue * W * list (Retry.Event Thrown string) :=
  match readFile screenshotPath with
  | inl err => (Retry.Threw (Some err), w, [])
  | inr screenshotBuffer =>
      let screenshotBase64 := toBase64 screenshotBuffer in
      let customPromptText :=
        match analysis_field prompt config with
        | Some file =>
            if String.eqb file EmptyString then inr None
            else match readText file with
                 | inr text => inr (Some text)
                 | inl err => inl err
                 end
        | None => inr None
        end in
      match customPromptText with
      | inl err => (Retry.Threw (Some err), w, [])
      | inr customPromptText' =>
          let prompt' :=
            buildPrompt url viewport goals customPromptText' (focus config) in
          let provider' :=
            match analysis_field provider config with
            | Some p => p
            | None => claude
            end in
          let fn :=
            match provider' with
            | openai => analyzeWithOpenAI screenshotBase64 prompt' config
            | claude => analyzeWithClaude screenshotBase64 prompt' config
            end in
          match Retry.retryWithBackoff Math_random fn api_retry w with
          | (Retry.Returned raw, w', log) =>
              (Retry.Returned (parseAnalysisResponse JSON_parse raw), w', log)
          | (Retry.Threw err, w', log) => (Retry.Threw err, w', log)
          end
      end
  end.

(** ** Properties *)

(** The key a provider is called with is missing. *)
Definition key_missing (config : LookerConfig) : bool :=
  match analysis_field provider config with
  | Some openai =>
      missing (or_else (analysis_field apiKey config) (OPENAI_API_KEY env))
  | _ =>
      missing (or_else (analysis_field apiKey config) (ANTHROPIC_API_KEY env))
  end.

Definition key_error (config : LookerConfig) : Thrown :=
  match analysis_field provider config with
  | Some openai =>
      ErrorObject
        "OPENAI_API_KEY not set. Provide via --api-key or environment variable."
  | _ =>
      ErrorObject
        "ANTHROPIC_API_KEY not set. Provide via --api-key or environment variable."
  end.

(** The files [analyzeScreenshot] reads are readable. *)
Definition inputs_readable (screenshotPath : string) (config : LookerConfig)
    : Prop :=
  (exists buffer, readFile screenshotPath = inr buffer) /\
  (forall file, analysis_field prompt config = Some file ->
                file <> EmptyString -> exists text, readText file = inr text).

(** X22 (a missing API key).  When the screenshot (and the prompt file,
    if one is configured) can be read but the provider's key is missing,
    in the configuration (an empty [apiKey] there counts, and hides the
    environment) and otherwise in the environment, [analyzeScreenshot]
    throws the "not set" error of the provider only after three
    attempts and two back-off waits; the provider is not called: the
    world has only given two random numbers. *)
Theorem analyzeScreenshot_retries_a_missing_key
    screenshotPath url viewport goals config w :
  inputs_readable screenshotPath config ->
  key_missing config = true ->
  exists log,
    analyzeScreenshot screenshotPath url viewport goals config w
    = (Retry.Threw (Some (key_error config)),
       snd (Math_random (snd (Math_random w))), log) /\
    Retry.invocations log = 3 /\ Retry.sleeps log = 2.
Proof.
  intros [(buffer & Hshot) Hprompt] Hkey.
  unfold analyzeScreenshot. rewrite Hshot.
  assert (Hcustom : exists custom,
            match analysis_field prompt config with
            | Some file =>
                if String.eqb file EmptyString then inr None
                else match readText file with
                     | inr text => inr (Some text)
                     | inl err => inl err
                     end
            | None => inr None
            end = inr (B := option string) (A := Thrown) custom).
  { destruct (analysis_field prompt config) as [file|]; [|eauto].
    destruct (String.eqb_spec file EmptyString) as [->|Hne]; [eauto|].
    destruct (Hprompt file eq_refl Hne) as (text & ->). eauto. }
  destruct Hcustom as (custom & ->).
  set (prompt' := buildPrompt url viewport goals custom (focus config)).
  set (b64 := toBase64 buffer).
  assert (Hfn : forall w0,
            match match analysis_field provider config with
                  | Some p => p
                  | None => claude
                  end with
            | openai => analyzeWithOpenAI b64 prompt' config
            | claude => analyzeWithClaude b64 prompt' config
            end w0 = (inl (key_error config), w0)).
  { intros w0. unfold key_missing, key_error in *.
    unfold analyzeWithOpenAI, analyzeWithClaude, missing in *.
    destruct (analysis_field provider config) as [[|]|];
      match goal with
      | |- context [or_else ?a ?b] => destruct (or_else a b) as [k|]
      end; try reflexivity; rewrite Hkey; reflexivity. }
  set (fn := match match analysis_field provider config with
                   | Some p => p
                   | None => claude
                   end with
             | openai => analyzeWithOpenAI b64 prompt' config
             | claude => analyzeWithClaude b64 prompt' config
             end) in *.
  unfold Retry.retryWithBackoff, api_retry.
  cbn [Retry.attempts Retry.baseDelayMs Retry.maxDelayMs Retry.spread
       Retry.DEFAULT_RETRY].
  change (Z.to_nat 3) with 3%nat.
  cbn [Retry.retry_loop Retry.onRetry]. rewrite Hfn.
  change (1 =? 3) with false. cbv iota.
  destruct (Math_random w) as [rnd1 w1]. cbn [snd].
  rewrite Hfn. change (1 + 1 =? 3) with false. cbv iota.
  destruct (Math_random w1) as [rnd2 w2]. cbn [snd].
  rewrite Hfn. change (1 + 1 + 1 =? 3) with true. cbv iota.
  eexists. split; [reflexivity|]. split; reflexivity.
Qed.

(** X23 (an answer without text).  When the first call of the provider
    returns a response that holds no text (no text block for
    Anthropic; no choice, no message or no content for OpenAI), nothing
    is thrown and nothing is retried: the result is the fallback
    analysis of the empty text, whose fields are all empty, given that
    [JSON.parse] rejects the empty text. *)
Theorem analyzeScreenshot_accepts_an_empty_answer
    screenshotPath url viewport goals config w :
  inputs_readable screenshotPath config ->
  JSON_parse EmptyString = None ->
  (forall k m image p,
     exists blocks w',
       messages_create k m image p w = (inr blocks, w') /\
       first_text blocks = EmptyString) ->
  (forall k base m image p,
     exists choices w',
       chat_completions_create k base m image p w = (inr choices, w') /\
       first_choice choices = EmptyString) ->
  key_missing config = false ->
  exists w' log,
    analyzeScreenshot screenshotPath url viewport goals config w
    = (Retry.Returned (fallback EmptyString), w', log) /\
    Retry.invocations log = 1 /\ Retry.sleeps log = 0.
Proof.
  intros [(buffer & Hshot) Hprompt] Hjson Hclaude Hopenai Hkey.
  unfold analyzeScreenshot. rewrite Hshot.
  assert (Hcustom : exists custom,
            match analysis_field prompt config with
            | Some file =>
                if String.eqb file EmptyString then inr None
                else match readText file with
                     | inr text => inr (Some text)
                     | inl err => inl err
                     end
            | None => inr None
            end = inr (B := option string) (A := Thrown) custom).
  { destruct (analysis_field prompt config) as [file|]; [|eauto].
    destruct (String.eqb_spec file EmptyString) as [->|Hne]; [eauto|].
    destruct (Hprompt file eq_refl Hne) as (text & ->). eauto. }
  destruct Hcustom as (custom & ->).
  set (prompt' := buildPrompt url viewport goals custom (focus config)).
  set (b64 := toBase64 buffer).
  assert (Hfn : exists w',
            match match analysis_field provider config with
                  | Some p => p
                  | None => claude
                  end with
            | openai => analyzeWithOpenAI b64 prompt' config
            | claude => analyzeWithClaude b64 prompt' config
            end w = (inr EmptyString, w')).
  { unfold key_missing in Hkey.
    unfold analyzeWithOpenAI, analyzeWithClaude, missing in *.
    destruct (analysis_field provider config) as [[|]|];
      match goal with
      | |- context [or_else ?a ?b] =>
          destruct (or_else a b) as [k|]; [|discriminate]
      end; rewrite Hkey.
    - match goal with
      | |- context [messages_create ?a ?b ?c ?d w] =>
          destruct (Hclaude a b c d) as (blocks & w' & -> & ->)
      end. eauto.
    - match goal with
      | |- context [chat_completions_create ?a ?b ?c ?d ?e w] =>
          destruct (Hopenai a b c d e) as (choices & w' & -> & ->)
      end. eauto.
    - match goal with
      | |- context [messages_create ?a ?b ?c ?d w] =>
          destruct (Hclaude a b c d) as (blocks & w' & -> & ->)
      end. eauto. }
  destruct Hfn as (w' & Hfn).
  unfold Retry.retryWithBackoff, api_retry.
  cbn [Retry.attempts Retry.baseDelayMs Retry.maxDelayMs Retry.spread
       Retry.DEFAULT_RETRY].
  change (Z.to_nat 3) with 3%nat.
  cbn [Retry.retry_loop]. rewrite Hfn.
  exists w'. eexists. split; [|split].
  - unfold parseAnalysisResponse, try_parse.
    change (extract_json EmptyString) with EmptyString. rewrite Hjson.
    reflexivity.
  - reflexivity.
  - reflexivity.
Qed.

End AnalyzeScreenshot.

(** Stand-ins: a world that counts the random numbers it has given
    (by one) and the provider calls it has answered (by a hundred),
    providers that answer without any text, a disk with one screenshot
    and an environment without keys. *)
Definition coin (w : nat) : Q * nat := (1 # 2, S w).

Definition no_keys : Env :=
  {| ANTHROPIC_API_KEY := None; OPENAI_API_KEY := None |}.

Definition one_screenshot (path : string) : Thrown + Fs.Buffer :=
  if String.eqb path "/s/index/mobile.png"
  then inr [Byte.x89; Byte.x50; Byte.x4e; Byte.x47]
  else inl (ErrorObject "ENOENT").

Definition no_text_file (path : string) : Thrown + string :=
  inl (ErrorObject "ENOENT").

Definition fixed_base64 (buffer : Fs.Buffer) : string := "iVBORw==".

Definition short_prompt (url : string) (viewport : Types.ViewportConfig)
    (goals : list string) (custom focus : option string) : string :=
  ("Review " ++ url)%string.

Definition silent_anthropic (key model image prompt : string) (w : nat)
    : (Thrown + list ContentBlock) * nat :=
  (inr [OtherBlock "tool_use"], (w + 100)%nat).

Definition silent_openai (key : string) (base : option string)
    (model image prompt : string) (w : nat) : (Thrown + list Choice) * nat :=
  (inr [{| message := Some {| content := None |} |}], (w + 100)%nat).

Definition without_key : LookerConfig :=
  {| analysis := None; focus := None |}.

Definition with_key : LookerConfig :=
  {| analysis := Some {| model := None; provider := Some openai;
                         apiKey := Some "sk-test"%string; apiUrl := None;
                         prompt := None |};
     focus := None |}.

Lemma analyzeScreenshot_retries_a_missing_key_witness :
  exists log,
    analyzeScreenshot coin no_keys one_screenshot no_text_file fixed_base64
      short_prompt silent_anthropic silent_openai tiny_parse
      "/s/index/mobile.png" "https://example.com/" CacheKey.mobile []
      without_key 0%nat
    = (Retry.Threw
         (Some (ErrorObject
                  "ANTHROPIC_API_KEY not set. Provide via --api-key or environment variable.")),
       2%nat, log) /\
    Retry.invocations log = 3 /\ Retry.sleeps log = 2.
Proof.
  apply (analyzeScreenshot_retries_a_missing_key coin no_keys one_screenshot
           no_text_file fixed_base64 short_prompt silent_anthropic silent_openai
           tiny_parse "/s/index/mobile.png" "https://example.com/"
           CacheKey.mobile [] without_key 0%nat).
  - split; [eexists; reflexivity|]. intros file Hfile. discriminate.
  - reflexivity.
Defined.

Lemma analyzeScreenshot_accepts_an_empty_answer_witness :
  exists w' log,
    analyzeScreenshot coin no_keys one_screenshot no_text_file fixed_base64
      short_prompt silent_anthropic silent_openai tiny_parse
      "/s/index/mobile.png" "https://example.com/" CacheKey.mobile []
      with_key 0%nat
    = (Retry.Returned (fallback EmptyString), w', log) /\
    Retry.invocations log = 1 /\ Retry.sleeps log = 0.
Proof.
  apply (analyzeScreenshot_accepts_an_empty_answer coin no_keys one_screenshot
           no_text_file fixed_base64 short_prompt silent_anthropic silent_openai
           tiny_parse "/s/index/mobile.png" "https://example.com/"
           CacheKey.mobile [] with_key 0%nat).
  - split; [eexists; reflexivity|]. intros file Hfile. discriminate.
  - reflexivity.
  - intros k m image p. do 2 eexists. split; reflexivity.
  - intros k base m image p. do 2 eexists. split; reflexivity.
  - reflexivity.
Defined.

End Vision.

(* ===================================================================== *)
(** * compare.ts: comparing the viewports of a page *)
(* ===================================================================== *)

Module Compare.
Import Orchestrator Analyze Vision.

Definition CrossViewportAnalysisSchema : Schema :=
  ZObject [ ("breakpointQuality"%string, ZString);
            ("contentParity"%string, ZString);
            ("navigationAdaptation"%string, ZString);
            ("consistencyAcrossSizes"%string, ZString);
            ("goalConsistency"%string, ZNullable ZString);
            ("issues"%string, ZArray IssueSchema);
            ("rawResponse"%string, ZOptional ZString) ].

(** The object of the [catch] block. *)
Definition fallback (raw : string) : JsValue :=
  JObject [ ("breakpointQuality"%string, JString raw);
            ("contentParity"%string, JString EmptyString);
            ("navigationAdaptation"%string, JString EmptyString);
            ("consistencyAcrossSizes"%string, JString EmptyString);
            ("goalConsistency"%string, JNull);
            ("issues"%string, JArray []);
            ("rawResponse"%string, JString raw) ].

Section ParseComparisonResponse.
Variable JSON_parse : string -> option JsValue.

(** The [try] block; [None] when it throws. *)
Definition try_parse (raw jsonStr : string) : option JsValue :=
  match JSON_parse jsonStr with
  | None => None
  | Some parsed =>
      match safeParse CrossViewportAnalysisSchema parsed with
      | Some data => Some (spread_with data "rawResponse" (JString raw))
      | None =>
          match member parsed "breakpointQuality",
                member parsed "contentParity",
                member parsed "navigationAdaptation",
                member parsed "consistencyAcrossSizes",
                member parsed "goalConsistency",
                member parsed "issues" with
          | Some breakpointQuality, Some contentParity,
            Some navigationAdaptation, Some consistencyAcrossSizes,
            Some goalConsistency, Some issues =>
              Some (JObject
                [ ("breakpointQuality"%string,
                     nullish breakpointQuality (JString EmptyString));
                  ("contentParity"%string,
                     nullish contentParity (JString EmptyString));
                  ("navigationAdaptation"%string,
                     nullish navigationAdaptation (JString EmptyString));
                  ("consistencyAcrossSizes"%string,
                     nullish consistencyAcrossSizes (JString EmptyString));
                  ("goalConsistency"%string, nullish goalConsistency JNull);
                  ("issues"%string, array_or_empty issues);
                  ("rawResponse"%string, JString raw) ])
          | _, _, _, _, _, _ => None
          end
      end
  end.

Definition parseComparisonResponse (raw : string) : JsValue :=
  match try_parse raw (extract_json raw) with
  | Some comparison => comparison
  | None => fallback raw
  end.

Lemma validated_issues parsed data :
  safeParse CrossViewportAnalysisSchema parsed = Some data ->
  exists props,
    data = JObject props /\ is_array (own "issues" props) = true.
Proof.
  destruct parsed as [| | | | | |props]; try discriminate.
  unfold CrossViewportAnalysisSchema.
  rewrite safeParse_object_fields. cbn [fields].
  destruct (safeParse ZString (own "breakpointQuality" props))
    as [v1|] eqn:H1; [|discriminate].
  destruct (safeParse ZString (own "contentParity" props))
    as [v2|] eqn:H2; [|discriminate].
  destruct (safeParse ZString (own "navigationAdaptation" props))
    as [v3|] eqn:H3; [|discriminate].
  destruct (safeParse ZString (own "consistencyAcrossSizes" props))
    as [v4|] eqn:H4; [|discriminate].
  destruct (safeParse (ZNullable ZString) (own "goalConsistency" props))
    as [v5|] eqn:H5; [|discriminate].
  destruct (safeParse (ZArray IssueSchema) (own "issues" props))
    as [v6|] eqn:H6; [|discriminate].
  destruct (safeParse (ZOptional ZString) (own "rawResponse" props))
    as [v7|] eqn:H7; [|discriminate].
  destruct (safeParse_array _ _ _ H6) as (found & ->).
  cbn [is_undefined option_map]. intros [= <-].
  eexists. split; [reflexivity|].
  destruct (is_undefined v1), (is_undefined v2), (is_undefined v3),
    (is_undefined v4), (is_undefined v5), (is_undefined v7); reflexivity.
Qed.

(** X24 (the answer of a comparison).  [parseComparisonResponse]
    returns on every input an object whose [rawResponse] is the input
    and whose [issues] is an array; and when the text left after
    trimming and removing a code fence is not JSON, the result has the
    input as [breakpointQuality], the other texts empty, a [null] goal
    consistency and no issues. *)
Theorem parseComparisonResponse_total raw :
  (exists props,
     parseComparisonResponse raw = JObject props /\
     own "rawResponse" props = JString raw /\
     is_array (own "issues" props) = true) /\
  (JSON_parse (extract_json raw) = None ->
   parseComparisonResponse raw
   = JObject
       [ ("breakpointQuality"%string, JString raw);
         ("contentParity"%string, JString EmptyString);
         ("navigationAdaptation"%string, JString EmptyString);
         ("consistencyAcrossSizes"%string, JString EmptyString);
         ("goalConsistency"%string, JNull);
         ("issues"%string, JArray []);
         ("rawResponse"%string, JString raw) ]).
Proof.
  unfold parseComparisonResponse, try_parse. split.
  - destruct (JSON_parse (extract_json raw)) as [parsed|];
      [|eexists; repeat split].
    destruct (safeParse CrossViewportAnalysisSchema parsed) as [data|] eqn:Hdata.
    + destruct (validated_issues _ _ Hdata) as (props & -> & Hi).
      cbn [spread_with]. eexists. split; [reflexivity|].
      split; [apply own_with_prop|].
      rewrite own_with_other_prop by discriminate. exact Hi.
    + destruct (member parsed "breakpointQuality"),
        (member parsed "contentParity"),
        (member parsed "navigationAdaptation"),
        (member parsed "consistencyAcrossSizes"),
        (member parsed "goalConsistency"),
        (member parsed "issues");
        eexists; (split; [reflexivity|]);
        cbn [own String.eqb Ascii.eqb Bool.eqb];
        rewrite ?array_or_empty_is_array; repeat split.
  - intros ->. reflexivity.
Qed.

End ParseComparisonResponse.

Section CompareViewports.
Context {W : Type}.
Variable Math_random : W -> Q * W.
Variable env : Env.
Variable existsSync : string -> bool.
Variable readFile : string -> Thrown + Fs.Buffer.
Variable toBase64 : Fs.Buffer -> string.

(** [buildComparisonPrompt(url, viewportNames, goals)] for the goals of
    the page. *)
Variable buildComparisonPrompt : string -> list string -> list string -> string.

(** [client.messages.create] with the key, the model, the named images
    and the prompt, and [client.chat.completions.create] with the key,
    the base URL, the model, the named images and the prompt. *)
Variable messages_create :
  string -> string -> list (string * string) -> string -> W ->
  (Thrown + list ContentBlock) * W.
Variable chat_completions_create :
  string -> option string -> string -> list (string * string) -> string -> W ->
  (Thrown + list Choice) * W.

Variable JSON_parse : string -> option JsValue.

Definition compareWithClaude (images : list (string * string))
    (prompt' : string) (config : LookerConfig) (w : W)
    : (Thrown + string) * W :=
  let key := or_else (analysis_field apiKey config) (ANTHROPIC_API_KEY env) in
  if missing key then (inl (ErrorObject "ANTHROPIC_API_KEY not set"), w)
  else
    let k := match key with Some k => k | None => EmptyString end in
    let model' :=
      match analysis_field model config with
      | Some m => m
      | None => DEFAULT_MODEL
      end in
    match messages_create k model' images prompt' w with
    | (inr blocks, w') => (inr (first_text blocks), w')
    | (inl err, w') => (inl err, w')
    end.

Definition compareWithOpenAI (images : list (string * string))
    (prompt' : string) (config : LookerConfig) (w : W)
    : (Thrown + string) * W :=
  let key := or_else (analysis_field apiKey config) (OPENAI_API_KEY env) in
  if missing key then (inl (ErrorObject "OPENAI_API_KEY not set"), w)
  else
    let k := match key with Some k => k | None => EmptyString end in
    let model' :=
      match analysis_field model config with
      | Some m => m
      | None => "gpt-4o"%string
      end in
    match chat_completions_create k (analysis_field apiUrl config) model'
            images prompt' w with
    | (inr choices, w') => (inr (first_choice choices), w')
    | (inl err, w') => (inl err, w')
    end.

(** The loop that loads the screenshots: a missing file is skipped, a
    file that cannot be read ends the comparison. *)
Fixpoint load_images (screenshots : ScreenshotMap)
    (imageContents : list (string * string))
    : Thrown + list (string * string) :=
  match screenshots with
  | [] => inr imageContents
  | (name, entry) :: rest =>
      if negb (existsSync (Types.filePath entry))
      then load_images rest imageContents
      else match readFile (Types.filePath entry) with
           | inl err => inl err
           | inr buffer =>
               load_images rest (imageContents ++ [(name, toBase64 buffer)])
           end
  end.

(** [compareViewports]: how it settles ([Returned None] is [null]), the
    world after it, and what the retry loop did. *)
Definition compareViewports (url : string) (screenshots : ScreenshotMap)
    (goals : list string) (config : LookerConfig) (w : W)
    : Retry.Outcome Thrown (option JsValue) * W
      * list (Retry.Event Thrown string) :=
  if (List.length screenshots <? 2)%nat then (Retry.Returned None, w, [])
  else
    let provider' :=
      match analysis_field provider config with
      | Some p => p
      | None => claude
      end in
    match load_images screenshots [] with
    | inl err => (Retry.Threw (Some err), w, [])
    | inr imageContents =>
        if (List.length imageContents <? 2)%nat
        then (Retry.Returned None, w, [])
        else
          let viewportNames := List.map fst imageContents in
          let prompt' := buildComparisonPrompt url viewportNames goals in
          let fn :=
            match provider' with
            | openai => compareWithOpenAI imageContents prompt' config
            | claude => compareWithClaude imageContents prompt' config
            end in
          match Retry.retryWithBackoff Math_random fn api_retry w with
          | (Retry.Returned raw, w', log) =>
              (Retry.Returned (Some (parseComparisonResponse JSON_parse raw)),
               w', log)
          | (Retry.Threw err, w', log) => (Retry.Threw err, w', log)
          end
    end.

(** The screenshots whose file is on disk. *)
Definition on_disk (screenshots : ScreenshotMap) : ScreenshotMap :=
  List.filter (fun '(_, entry) => existsSync (Types.filePath entry)) screenshots.

Lemma load_images_length screenshots acc loaded :
  load_images screenshots acc = inr loaded ->
  List.length loaded
  = (List.length acc + List.length (on_disk screenshots))%nat.
Proof.
  revert acc. unfold on_disk.
  induction screenshots as [|[name entry] rest IH]; intros acc;
    cbn [load_images List.filter].
  - intros [= <-]. cbn. lia.
  - destruct (existsSync (Types.filePath entry)); cbn [negb].
    + destruct (readFile (Types.filePath entry)) as [err|buffer]; [discriminate|].
      intros H. rewrite (IH _ H), length_app. cbn. lia.
    + intros H. exact (IH _ H).
Qed.

Lemma load_images_readable screenshots acc :
  (forall name entry, In (name, entry) (on_disk screenshots) ->
     exists buffer, readFile (Types.filePath entry) = inr buffer) ->
  exists loaded, load_images screenshots acc = inr loaded.
Proof.
  revert acc. unfold on_disk.
  induction screenshots as [|[name entry] rest IH]; intros acc Hread;
    cbn [load_images List.filter] in *; [eauto|].
  destruct (existsSync (Types.filePath entry)) eqn:Hex; cbn [negb].
  - destruct (Hread name entry (or_introl eq_refl)) as (buffer & ->).
    apply IH. intros n e Hin. apply (Hread n e). right. exact Hin.
  - apply IH. exact Hread.
Qed.

(** X25 (a comparison needs two screenshots on disk).  When fewer than
    two of the screenshots of a page are on disk, [compareViewports]
    never calls a provider: the world is untouched and nothing is
    retried; the result is [null] when the files that are there can be
    read, and otherwise the error of the read. *)
Theorem compareViewports_needs_two_files url screenshots goals config w :
  (List.length (on_disk screenshots) < 2)%nat ->
  exists outcome,
    compareViewports url screenshots goals config w = (outcome, w, []) /\
    (outcome = Retry.Returned None \/ exists err, outcome = Retry.Threw (Some err)) /\
    ((forall name entry, In (name, entry) (on_disk screenshots) ->
        exists buffer, readFile (Types.filePath entry) = inr buffer) ->
     outcome = Retry.Returned None).
Proof.
  intros Hfew. unfold compareViewports.
  destruct (Nat.ltb_spec (List.length screenshots) 2) as [Hsmall|Hsize].
  { eexists. split; [reflexivity|]. split; [left; reflexivity | reflexivity]. }
  destruct (load_images screenshots []) as [err|loaded] eqn:Hload.
  - eexists. split; [reflexivity|]. split; [right; eauto|].
    intros Hread. destruct (load_images_readable screenshots [] Hread) as (l & Hl).
    rewrite Hl in Hload. discriminate.
  - pose proof (load_images_length _ _ _ Hload) as Hlen. cbn [List.length] in Hlen.
    destruct (Nat.ltb_spec (List.length loaded) 2) as [_|Hmany]; [|lia].
    eexists. split; [reflexivity|]. split; [left; reflexivity | reflexivity].
Qed.

End CompareViewports.

(** Stand-ins: providers that answer with a fixed text, and the two
    screenshots of a page of which only the first is on disk. *)
Definition talkative_anthropic (key model : string)
    (images : list (string * string)) (prompt : string) (w : nat)
    : (Thrown + list ContentBlock) * nat :=
  (inr [TextBlock "{}"], (w + 100)%nat).

Definition talkative_openai (key : string) (base : option string)
    (model : string) (images : list (string * string)) (prompt : string)
    (w : nat) : (Thrown + list Choice) * nat :=
  (inr [{| message := Some {| content := Some "{}"%string |} |}],
   (w + 100)%nat).

Definition names_only (url : string) (viewportNames goals : list string)
    : string :=
  String.concat ", " viewportNames.

Definition two_shots : ScreenshotMap :=
  [ shot "https://example.com/" "mobile" 375 812 "/s/index/mobile.png";
    shot "https://example.com/" "desktop" 1440 900 "/s/index/desktop.png" ].

Definition only_mobile (path : string) : bool :=
  String.eqb path "/s/index/mobile.png".

Lemma compareViewports_needs_two_files_witness :
  exists outcome,
    compareViewports coin no_keys only_mobile one_screenshot fixed_base64
      names_only talkative_anthropic talkative_openai tiny_parse
      "https://example.com/" two_shots [] with_key 0%nat
    = (outcome, 0%nat, []) /\
    (outcome = Retry.Returned None \/
     exists err, outcome = Retry.Threw (Some err)) /\
    ((forall name entry, In (name, entry) (on_disk only_mobile two_shots) ->
        exists buffer, one_screenshot (Types.filePath entry) = inr buffer) ->
     outcome = Retry.Returned None).
Proof.
  apply (compareViewports_needs_two_files coin no_keys only_mobile
           one_screenshot fixed_base64 names_only talkative_anthropic
           talkative_openai tiny_parse "https://example.com/" two_shots []
           with_key 0%nat).
  cbn. lia.
Defined.

Lemma parseComparisonResponse_witness :
  (exists props,
     parseComparisonResponse tiny_parse "Looks consistent." = JObject props /\
     own "rawResponse" props = JString "Looks consistent." /\
     is_array (own "issues" props) = true) /\
  (tiny_parse (extract_json "Looks consistent.") = None ->
   parseComparisonResponse tiny_parse "Looks consistent."
   = JObject
       [ ("breakpointQuality"%string, JString "Looks consistent.");
         ("contentParity"%string, JString EmptyString);
         ("navigationAdaptation"%string, JString EmptyString);
         ("consistencyAcrossSizes"%string, JString EmptyString);
         ("goalConsistency"%string, JNull);
         ("issues"%string, JArray []);
         ("rawResponse"%string, JString "Looks consistent.") ]).
Proof.
  exact (parseComparisonResponse_total tiny_parse "Looks consistent.").
Defined.

End Compare.

(* ===================================================================== *)
(** * capture.ts: where a screenshot is saved *)
(* ===================================================================== *)

Module Capture.
Import Types.

Definition SCREENSHOT_DIR : string := "./screenshots".

(** [s || 'index']. *)
Definition or_index (s : string) : string :=
  if String.eqb s EmptyString then "index"%string else s.

(** [s.replace(/^\//, '')]: one leading slash is dropped. *)
Definition strip_leading_slash (s : string) : string :=
  match s with
  | String c rest => if Ascii.eqb c Path.slash then rest else s
  | EmptyString => EmptyString
  end.

(** [s.replace(/\//g, '-')]: every slash becomes a dash. *)
Fixpoint dash_slashes (s : string) : string :=
  match s with
  | EmptyString => EmptyString
  | String c rest =>
      String (if Ascii.eqb c Path.slash then "-"%char else c) (dash_slashes rest)
  end.

Section Slugify.
(** [new URL(url).pathname]; [None] when [new URL] throws. *)
Variable URL_pathname : string -> option string.

Definition slugify (url : string) : option string :=
  match URL_pathname url with
  | Some pathname =>
      let path := or_index (Crawler.strip_trailing_slash pathname) in
      Some (or_index (dash_slashes (strip_leading_slash path)))
  | None => None
  end.

(** The file a task of [captureScreenshots] saves (or restores) the
    screenshot of [url] at [viewport] to, in a process whose working
    directory is [cwd]. *)
Definition filePath (cwd url : string) (viewport : ViewportConfig)
    : option string :=
  match slugify url with
  | Some slug =>
      let dir := Path.resolve cwd [SCREENSHOT_DIR; slug] in
      Some (Path.join [dir; (name viewport ++ ".png")%string])
  | None => None
  end.

Lemma dash_slashes_no_slash s : Path.no_slash (dash_slashes s) = true.
Proof.
  induction s as [|c s IH]; [reflexivity|]. cbn. rewrite IH.
  destruct (Ascii.eqb c Path.slash) eqn:Hc; [reflexivity|].
  rewrite Hc. reflexivity.
Qed.

Lemma dash_slashes_app a b :
  dash_slashes (a ++ b) = (dash_slashes a ++ dash_slashes b)%string.
Proof.
  induction a as [|c a IH]; [reflexivity|].
  change (String c a ++ b)%string with (String c (a ++ b)%string).
  cbn [dash_slashes]. rewrite IH. reflexivity.
Qed.

Lemma or_index_shape s :
  Path.no_slash s = true ->
  or_index s <> EmptyString /\ Path.no_slash (or_index s) = true.
Proof.
  intros Hs. unfold or_index.
  destruct (String.eqb_spec s EmptyString) as [->|Hne]; [split; [discriminate|reflexivity]|].
  split; assumption.
Qed.

Lemma strip_trailing_slash_app a b :
  b <> EmptyString ->
  Crawler.strip_trailing_slash (a ++ b)
  = (a ++ Crawler.strip_trailing_slash b)%string.
Proof.
  intros Hb. induction a as [|c a IH]; [reflexivity|].
  change (String c a ++ b)%string with (String c (a ++ b)%string).
  change (String c a ++ Crawler.strip_trailing_slash b)%string
    with (String c (a ++ Crawler.strip_trailing_slash b)%string).
  rewrite <- IH.
  destruct (a ++ b)%string eqn:Hab; [|reflexivity].
  destruct a; [cbn in Hab; contradiction | discriminate].
Qed.

(** X27 (the shape of a slug).  Whatever path the URL has, the slug is
    not empty and holds no slash: it is a single path segment, however
    deep the path of the page. *)
Theorem slugify_is_one_path_segment url slug :
  slugify url = Some slug ->
  slug <> EmptyString /\ Path.no_slash slug = true.
Proof.
  unfold slugify. destruct (URL_pathname url) as [pathname|]; [|discriminate].
  intros [= <-]. apply or_index_shape, dash_slashes_no_slash.
Qed.

(** X28 (slugs collide).  Two pages whose paths differ in a slash where
    the other has a dash, such as [/blog/post] and [/blog-post], get the
    same slug, so for every viewport their screenshots are saved to the
    same file. *)
Theorem slugify_confuses_slash_and_dash
    url1 url2 (before rest : string) cwd viewport :
  rest <> EmptyString ->
  URL_pathname url1 = Some ("/" ++ before ++ "/" ++ rest)%string ->
  URL_pathname url2 = Some ("/" ++ before ++ "-" ++ rest)%string ->
  slugify url1 = slugify url2 /\
  filePath cwd url1 viewport = filePath cwd url2 viewport.
Proof.
  intros Hrest H1 H2.
  assert (Hslug : slugify url1 = slugify url2).
  { unfold slugify. rewrite H1, H2. f_equal.
    replace ("/" ++ before ++ "/" ++ rest)%string
      with ((("/" ++ before) ++ "/") ++ rest)%string
      by (rewrite !Text.append_assoc; reflexivity).
    replace ("/" ++ before ++ "-" ++ rest)%string
      with ((("/" ++ before) ++ "-") ++ rest)%string
      by (rewrite !Text.append_assoc; reflexivity).
    rewrite !(strip_trailing_slash_app _ rest Hrest).
    rewrite !Text.append_assoc.
    set (tail := Crawler.strip_trailing_slash rest).
    change ("/" ++ before ++ "/" ++ tail)%string
      with (String "/" (before ++ "/" ++ tail)%string).
    change ("/" ++ before ++ "-" ++ tail)%string
      with (String "/" (before ++ "-" ++ tail)%string).
    unfold or_index at 2 4. cbn [String.eqb strip_leading_slash].
    change (Ascii.eqb "/" Path.slash) with true. cbv iota.
    rewrite !dash_slashes_app. reflexivity. }
  split; [exact Hslug|]. unfold filePath. rewrite Hslug. reflexivity.
Qed.

End Slugify.

Lemma slugify_is_one_path_segment_witness :
  "docs-guide-intro"%string <> EmptyString /\
  Path.no_slash "docs-guide-intro" = true.
Proof.
  apply (slugify_is_one_path_segment Goals.example_pathname
           "https://example.com/docs/guide/intro/").
  vm_compute. reflexivity.
Defined.

Lemma slugify_confuses_slash_and_dash_witness :
  slugify Goals.example_pathname "https://example.com/blog/post"
  = slugify Goals.example_pathname "https://example.com/blog-post" /\
  filePath Goals.example_pathname "/work" "https://example.com/blog/post"
    Cache.sample_viewport
  = filePath Goals.example_pathname "/work" "https://example.com/blog-post"
      Cache.sample_viewport.
Proof.
  apply (slugify_confuses_slash_and_dash Goals.example_pathname
           "https://example.com/blog/post" "https://example.com/blog-post"
           "blog" "post" "/work" Cache.sample_viewport).
  - discriminate.
  - vm_compute. reflexivity.
  - vm_compute. reflexivity.
Defined.

End Capture.

(* ===================================================================== *)
(** * config.ts: finding and merging the configuration *)
(* ===================================================================== *)

Module Config.
Import Analyze.

Definition CONFIG_FILENAMES : list string :=
  [".lookerrc.json"; "looker.config.json"]%string.

(** ** [deepMerge] *)

(** [Object.keys(obj)]. *)
Definition keys (props : list (string * JsValue)) : list string :=
  List.map fst props.

(** The value [result[key]] holds after the body of the loop of
    [deepMerge] has run for a [val] that is not [undefined], [current]
    being [result[key]] before: the merge of the two when both are
    objects that are neither [null] nor arrays, and [val] otherwise.
    The inner loop is the loop of the recursive call, over the
    properties of [val] in order, on a copy of [current].  The key
    [__proto__], which an assignment does not store as a property, is
    outside the model. *)
Fixpoint merge_value (current val : JsValue) {struct val} : JsValue :=
  match val, current with
  | JObject override, JObject base =>
      JObject
        ((fix each (result entries : list (string * JsValue))
              {struct entries} : list (string * JsValue) :=
            match entries with
            | [] => result
            | (key, v) :: rest =>
                each (match v with
                      | JUndefined => result
                      | _ => with_prop key (merge_value (own key result) v) result
                      end) rest
            end) base override)
  | _, _ => val
  end.

Definition deepMerge (base override : list (string * JsValue))
    : list (string * JsValue) :=
  match merge_value (JObject base) (JObject override) with
  | JObject result => result
  | _ => base
  end.

(** No object of the value has a property called [__proto__]. *)
Fixpoint ordinary (v : JsValue) : bool :=
  match v with
  | JObject props =>
      (fix each (entries : list (string * JsValue)) : bool :=
         match entries with
         | [] => true
         | (key, x) :: rest =>
             negb (String.eqb key "__proto__") && ordinary x && each rest
         end) props
  | _ => true
  end.

(** ** [findConfigFile] *)

(** The loop of [dirname] of [node:path]: from index [i] down to 1, the
    index of the last slash that has something other than a slash
    after it. *)
Fixpoint dirname_scan (path : string) (i : nat) (matchedSlash : bool)
    : option nat :=
  match i with
  | O => None
  | S below =>
      match String.get i path with
      | Some c =>
          if Ascii.eqb c Path.slash
          then if negb matchedSlash then Some i
               else dirname_scan path below matchedSlash
          else dirname_scan path below false
      | None => dirname_scan path below false
      end
  end.

Definition dirname (path : string) : string :=
  if String.eqb path EmptyString then "."%string
  else
    let hasRoot := Path.isAbsolute path in
    match dirname_scan path (String.length path - 1) true with
    | None => if hasRoot then "/"%string else "."%string
    | Some finish =>
        if hasRoot && (finish =? 1)%nat then "//"%string
        else String.substring 0 finish path
    end.

Section FindConfigFile.
Variable disk : Fs.FileSystem.
(** [process.cwd()], which [resolve] reads. *)
Variable cwd : string.

(** The [for] loop over [CONFIG_FILENAMES] in [dir]: the first
    candidate that exists. *)
Definition candidates (dir : string) : list string :=
  List.map (fun name => Path.resolve cwd [dir; name]) CONFIG_FILENAMES.

Definition first_existing (paths : list string) : option string :=
  List.find (Fs.existsSync disk) paths.

(** The [while (true)] loop, for at most [fuel] rounds; the outer
    [None] is a loop that has not ended by then. *)
Fixpoint search (fuel : nat) (root dir : string) : option (option string) :=
  match fuel with
  | O => None
  | S fuel' =>
      match first_existing (candidates dir) with
      | Some candidate => Some (Some candidate)
      | None =>
          let parent := dirname dir in
          if String.eqb parent dir || String.eqb dir root then Some None
          else search fuel' root parent
      end
  end.

Definition findConfigFile (fuel : nat) (startDir : string)
    : option (option string) :=
  let dir := Path.resolve cwd [startDir] in
  let root := dirname dir in
  search fuel root dir.

End FindConfigFile.

Lemma deepMerge_nil base : deepMerge base [] = base.
Proof. reflexivity. Qed.

Lemma deepMerge_cons base key v rest :
  deepMerge base ((key, v) :: rest)
  = deepMerge (match v with
               | JUndefined => base
               | _ => with_prop key (merge_value (own key base) v) base
               end) rest.
Proof. reflexivity. Qed.

Lemma merge_value_eq current val :
  merge_value current val
  = match val, current with
    | JObject override, JObject base => JObject (deepMerge base override)
    | _, _ => val
    end.
Proof. destruct val, current; reflexivity. Qed.

Lemma own_absent key props :
  ~ In key (keys props) -> own key props = JUndefined.
Proof.
  induction props as [|[k v] rest IH]; [reflexivity|].
  cbn [keys List.map fst own]. intros Hnot.
  destruct (String.eqb_spec k key) as [->|Hk].
  - destruct Hnot. left. reflexivity.
  - apply IH. intros Hin. apply Hnot. right. exact Hin.
Qed.

Lemma keys_with_prop key v props k :
  In k (keys props) -> In k (keys (with_prop key v props)).
Proof.
  induction props as [|[k' x] rest IH]; [intros []|].
  cbn [keys List.map fst with_prop].
  destruct (String.eqb_spec k' key) as [->|Hk]; cbn [List.map fst]; [auto|].
  intros [->|Hin]; [left; reflexivity | right; apply IH; exact Hin].
Qed.

Lemma deepMerge_keeps_keys base override k :
  In k (keys base) -> In k (keys (deepMerge base override)).
Proof.
  revert base. induction override as [|[key v] rest IH]; intros base Hin.
  - exact Hin.
  - rewrite deepMerge_cons. apply IH.
    destruct v; try exact Hin; apply keys_with_prop; exact Hin.
Qed.

(** X29 (what wins in a merge).  For an override in which every key
    occurs once and no key, at any depth, is [__proto__]: a property
    that the override does not have, or has as
    [undefined], keeps the value of the base; when both values are
    objects (not [null], not arrays) the property is their merge; in
    every other case the value of the override replaces that of the
    base, arrays included.  No property of the base is dropped. *)
Theorem deepMerge_precedence base override key :
  List.NoDup (keys override) ->
  ordinary (JObject override) = true ->
  own key (deepMerge base override)
  = match own key override, own key base with
    | JUndefined, inherited => inherited
    | JObject o, JObject b => JObject (deepMerge b o)
    | given, _ => given
    end /\
  (In key (keys base) -> In key (keys (deepMerge base override))).
Proof.
  intros Hnodup _. split; [|apply deepMerge_keeps_keys].
  revert base. induction override as [|[k v] rest IH]; intros base.
  - reflexivity.
  - cbn [keys List.map fst] in Hnodup. apply List.NoDup_cons_iff in Hnodup as [Hk Hrest].
    rewrite deepMerge_cons, (IH Hrest). cbn [own].
    destruct (String.eqb_spec k key) as [->|Hne].
    + rewrite (own_absent key rest Hk).
      destruct v; try reflexivity; rewrite own_with_prop, merge_value_eq;
        reflexivity.
    + destruct v; try reflexivity;
        rewrite (own_with_other_prop key k) by congruence; reflexivity.
Qed.

(** X30 (where the configuration file is looked for).  The search ends
    within two rounds: [findConfigFile] returns the first file that
    exists among [.lookerrc.json] and [looker.config.json] in the start
    directory and then in its parent, and [null] when there is none; a
    file further up is not found. *)
Theorem findConfigFile_looks_two_levels disk cwd fuel startDir :
  (2 <= fuel)%nat ->
  let dir := Path.resolve cwd [startDir] in
  findConfigFile disk cwd fuel startDir
  = Some (first_existing disk
            (candidates cwd dir ++
             (if String.eqb (dirname dir) dir then []
              else candidates cwd (dirname dir)))).
Proof.
  intros Hfuel dir. unfold findConfigFile. fold dir.
  destruct fuel as [|[|fuel]]; [lia | lia |].
  cbn [search]. unfold first_existing.
  destruct (String.eqb_spec (dirname dir) dir) as [Hroot|Hroot].
  - rewrite List.app_nil_r.
    destruct (find (Fs.existsSync disk) (candidates cwd dir)); reflexivity.
  - assert (Hsym : String.eqb dir (dirname dir) = false)
      by (apply String.eqb_neq; congruence).
    rewrite Hsym, String.eqb_refl, orb_true_r.
    assert (Hfind : forall l1 l2,
               find (Fs.existsSync disk) (l1 ++ l2)
               = match find (Fs.existsSync disk) l1 with
                 | Some x => Some x
                 | None => find (Fs.existsSync disk) l2
                 end).
    { intros l1 l2. induction l1 as [|x l1 IH]; [reflexivity|].
      cbn. destruct (Fs.existsSync disk x); [reflexivity | exact IH]. }
    rewrite Hfind.
    destruct (find (Fs.existsSync disk) (candidates cwd dir)); [reflexivity|].
    cbn [orb].
    destruct (find (Fs.existsSync disk) (candidates cwd (dirname dir)));
      reflexivity.
Qed.

(** The defaults, a configuration file and the flags of a run. *)
Definition sample_defaults : list (string * JsValue) :=
  [ ("url"%string, JString "http://localhost:3000");
    ("analysis"%string,
     JObject [ ("model"%string, JString "claude-sonnet");
               ("provider"%string, JString "claude") ]);
    ("viewports"%string, JArray [JString "mobile"; JString "desktop"]) ].

Definition sample_flags : list (string * JsValue) :=
  [ ("sitemap"%string, JString "https://example.com/sitemap.xml");
    ("url"%string, JUndefined);
    ("analysis"%string, JObject [ ("model"%string, JString "gpt-4o") ]);
    ("viewports"%string, JArray [JString "mobile"]) ].

Example sample_merge :
  deepMerge sample_defaults sample_flags
  = [ ("url"%string, JString "http://localhost:3000");
      ("analysis"%string,
       JObject [ ("model"%string, JString "gpt-4o");
                 ("provider"%string, JString "claude") ]);
      ("viewports"%string, JArray [JString "mobile"]);
      ("sitemap"%string, JString "https://example.com/sitemap.xml") ].
Proof. reflexivity. Qed.

Lemma deepMerge_precedence_witness :
  own "analysis" (deepMerge sample_defaults sample_flags)
  = JObject (deepMerge [ ("model"%string, JString "claude-sonnet");
                         ("provider"%string, JString "claude") ]
               [ ("model"%string, JString "gpt-4o") ]) /\
  (In "analysis"%string (keys sample_defaults) ->
   In "analysis"%string (keys (deepMerge sample_defaults sample_flags))).
Proof.
  apply (deepMerge_precedence sample_defaults sample_flags "analysis").
  - unfold sample_flags, keys. cbn [List.map fst].
    repeat (apply List.NoDup_cons; [cbn; intuition discriminate|]).
    apply List.NoDup_nil.
  - reflexivity.
Defined.

(** A project in [/repo/packages/app] whose configuration file is at
    the top of the repository. *)
Definition repo_disk : Fs.FileSystem :=
  {| Fs.directories :=
       list_to_set ["/"; "/repo"; "/repo/packages"; "/repo/packages/app"]%string;
     Fs.files := {[ "/repo/.lookerrc.json"%string := [Byte.x7b; Byte.x7d] ]} |}.

Lemma findConfigFile_looks_two_levels_witness :
  findConfigFile repo_disk "/repo/packages/app" 5 "/repo/packages/app"
  = Some None.
Proof.
  rewrite (findConfigFile_looks_two_levels repo_disk "/repo/packages/app" 5
             "/repo/packages/app"); [|lia].
  vm_compute. reflexivity.
Defined.

End Config.
